(** * Verification of the palette extractor and the commit analyzer

    Shallow embedding of [random-scripts/color_palette_extractor.py] and
    [random-scripts/git_commit_analyzer/git_commit_analyzer.py].

    Conventions of the embedding:
    - a Python [str] is a [string] (a sequence of one-byte characters);
    - a Python [int] is a [Z]; counts kept by a [Counter] are [nat];
    - a Python [float] is the rational [Q] that the binary64 number holds:
      every operation rounds its exact result to the nearest binary64
      number, a tie going to the even one; [round(x, 2)] and the [.1f]
      format round the number held, half-to-even; infinities and magnitudes
      above 1.8e308 are not modelled;
    - a [dict] or [Counter] whose iteration order is observable is an
      association list in insertion order;
    - an uncaught exception and [sys.exit] are values of an error type. *)

From Stdlib Require Import List String Ascii ZArith QArith Qround Qminmax Qabs Qpower Bool Lia Arith.
From Stdlib Require Import Sorting.Sorted Sorting.Permutation Lqa DecimalString.
From Stdlib Require HexadecimalString.
Import ListNotations.

Local Open Scope string_scope.
Local Open Scope Z_scope.

(** ** Python [str] operations used by the two scripts *)
Module PyStr.

(** [s.split(sep)] for a one-character separator: always at least one field. *)
Fixpoint split (sep : ascii) (s : string) : list string :=
  match s with
  | EmptyString => [EmptyString]
  | String c s' =>
      if Ascii.eqb c sep then EmptyString :: split sep s'
      else match split sep s' with
           | f :: fs => String c f :: fs
           | [] => [String c EmptyString]
           end
  end.

(** [c in s] for a one-character [c]. *)
Fixpoint contains (c : ascii) (s : string) : bool :=
  match s with
  | EmptyString => false
  | String c' s' => Ascii.eqb c' c || contains c s'
  end.

(** The one-byte characters for which [str.isspace] holds. *)
Definition is_space (c : ascii) : bool :=
  let n := nat_of_ascii c in
  ((9 <=? n) && (n <=? 13) || (28 <=? n) && (n <=? 32))%nat.

Fixpoint lstrip (s : string) : string :=
  match s with
  | EmptyString => EmptyString
  | String c s' => if is_space c then lstrip s' else s
  end.

(** Removes trailing white space: a character is kept when something
    that is not white space follows or it is not white space itself. *)
Fixpoint rstrip (s : string) : string :=
  match s with
  | EmptyString => EmptyString
  | String c s' =>
      match rstrip s' with
      | EmptyString => if is_space c then EmptyString else String c EmptyString
      | r => String c r
      end
  end.

Definition strip (s : string) : string := rstrip (lstrip s).

(** Truth value of a [str]: non-empty. *)
Definition truthy (s : string) : bool :=
  match s with EmptyString => false | _ => true end.

Definition is_digit (c : ascii) : bool :=
  let n := nat_of_ascii c in ((48 <=? n) && (n <=? 57))%nat.

Definition digit_val (c : ascii) : Z := Z.of_nat (nat_of_ascii c) - 48.

(** Digits of a decimal literal after its first digit: single underscores
    are allowed between digits. [us] tells that the previous character was
    an underscore. *)
Fixpoint int_digits (acc : Z) (us : bool) (s : string) : option Z :=
  match s with
  | EmptyString => if us then None else Some acc
  | String c s' =>
      if is_digit c then int_digits (10 * acc + digit_val c) false s'
      else if Ascii.eqb c "_" then (if us then None else int_digits acc true s')
      else None
  end.

Definition int_unsigned (s : string) : option Z :=
  match s with
  | String c s' => if is_digit c then int_digits (digit_val c) false s' else None
  | EmptyString => None
  end.

(** [int(s)] in base ten: [None] stands for [ValueError]. Surrounding white
    space, one sign and underscores between digits are accepted. *)
Definition int (s : string) : option Z :=
  match strip s with
  | String "+" r => int_unsigned r
  | String "-" r => option_map Z.opp (int_unsigned r)
  | t => int_unsigned t
  end.

(** [s.replace(' +', '+')]. *)
Fixpoint replace_space_plus (s : string) : string :=
  match s with
  | String " " (String "+" r) => String "+" (replace_space_plus r)
  | String c r => String c (replace_space_plus r)
  | EmptyString => EmptyString
  end.

(** [s.startswith(p)], with the rest of [s] when it holds. *)
Fixpoint strip_prefix (p s : string) : option string :=
  match p, s with
  | EmptyString, _ => Some s
  | String a p', String b s' => if Ascii.eqb a b then strip_prefix p' s' else None
  | String _ _, EmptyString => None
  end.

Example split_pipe : split "|" "h|a|d|m" = ["h"; "a"; "d"; "m"].
Proof. reflexivity. Qed.

Example split_empty : split "|" "" = [""].
Proof. reflexivity. Qed.

Example strip_both : strip "  a b  " = "a b".
Proof. reflexivity. Qed.

Example int_plain : int "12" = Some 12.
Proof. reflexivity. Qed.

Example int_dash : int "-" = None.
Proof. reflexivity. Qed.

Example int_negative : int "-5" = Some (-5).
Proof. reflexivity. Qed.

Example int_word : int "abc" = None.
Proof. reflexivity. Qed.

(** The number of fields is one more than the number of separators. *)
Fixpoint count_char (c : ascii) (s : string) : nat :=
  match s with
  | EmptyString => O
  | String c' s' => (if Ascii.eqb c' c then 1 else 0) + count_char c s'
  end.

Lemma split_nonempty (sep : ascii) (s : string) : split sep s <> [].
Proof.
  destruct s as [|c s]; simpl; [discriminate|].
  destruct (Ascii.eqb c sep); [discriminate|].
  destruct (split sep s); discriminate.
Qed.

Lemma split_length (sep : ascii) (s : string) :
  List.length (split sep s) = S (count_char sep s).
Proof.
  induction s as [|c s IH]; simpl; [reflexivity|].
  destruct (Ascii.eqb c sep); simpl; [now rewrite IH|].
  destruct (split sep s) eqn:E; [now destruct (split_nonempty sep s)|].
  simpl in *. exact IH.
Qed.

Lemma contains_count (c : ascii) (s : string) :
  contains c s = negb (Nat.eqb (count_char c s) 0).
Proof.
  induction s as [|c' s IH]; simpl; [reflexivity|].
  destruct (Ascii.eqb c' c); simpl; [reflexivity|exact IH].
Qed.

(** *** Blank strings, and joining what [split] separated *)

Fixpoint blank (s : string) : bool :=
  match s with
  | EmptyString => true
  | String c s' => is_space c && blank s'
  end.

Lemma rstrip_empty (s : string) : rstrip s = "" <-> blank s = true.
Proof.
  induction s as [|c s IH]; simpl; [tauto|].
  destruct (rstrip s) eqn:E.
  - destruct (is_space c); simpl.
    + split; [intros _; now apply IH|reflexivity].
    + split; discriminate.
  - split; [discriminate|]. rewrite andb_true_iff. intros [_ H].
    apply IH in H. discriminate.
Qed.

Lemma blank_lstrip (s : string) : blank (lstrip s) = blank s.
Proof.
  induction s as [|c s IH]; simpl; [reflexivity|].
  destruct (is_space c) eqn:E; simpl; [exact IH|now rewrite E].
Qed.

Lemma truthy_strip (s : string) : truthy (strip s) = negb (blank s).
Proof.
  unfold strip. rewrite <- (blank_lstrip s).
  destruct (rstrip (lstrip s)) eqn:E; simpl.
  - apply rstrip_empty in E. now rewrite E.
  - destruct (blank (lstrip s)) eqn:B; [|reflexivity].
    apply rstrip_empty in B. congruence.
Qed.

Lemma blank_app (s t : string) : blank (s ++ t) = blank s && blank t.
Proof.
  induction s as [|c s IH]; simpl; [reflexivity|].
  now rewrite IH, andb_assoc.
Qed.

(** A string that [int] accepts is not blank. *)
Lemma int_not_blank (s : string) (z : Z) : int s = Some z -> blank s = false.
Proof.
  unfold int. intros H. destruct (blank s) eqn:B; [|reflexivity].
  assert (E : strip s = "").
  { pose proof (truthy_strip s) as T. rewrite B in T.
    destruct (strip s); [reflexivity|discriminate]. }
  rewrite E in H. discriminate.
Qed.

Lemma split_join (sep : ascii) (s : string) :
  String.concat (String sep "") (split sep s) = s.
Proof.
  induction s as [|c s IH]; simpl; [reflexivity|].
  destruct (Ascii.eqb_spec c sep) as [->|Hne].
  - destruct (split sep s) as [|f fs] eqn:E; [now destruct (split_nonempty sep s)|].
    change (String.concat (String sep "") ("" :: f :: fs))
      with ("" ++ String sep "" ++ String.concat (String sep "") (f :: fs)).
    now rewrite IH.
  - destruct (split sep s) as [|f fs] eqn:E; [now destruct (split_nonempty sep s)|].
    destruct fs as [|g gs]; simpl in *; now rewrite IH.
Qed.

Lemma count_char_app (c : ascii) (s t : string) :
  count_char c (s ++ t) = (count_char c s + count_char c t)%nat.
Proof.
  induction s as [|c' s IH]; simpl; [reflexivity|]. rewrite IH. lia.
Qed.

Lemma contains_count_pos (c : ascii) (s : string) :
  contains c s = true -> (1 <= count_char c s)%nat.
Proof.
  rewrite contains_count. destruct (count_char c s); simpl; [discriminate|lia].
Qed.

End PyStr.

(** ** [collections.Counter] as an association list in insertion order *)
Module Counter.

Local Open Scope list_scope.

Section WithKey.

Context {K : Type} (eqb : K -> K -> bool).
Hypothesis eqb_eq : forall x y, eqb x y = true <-> x = y.

Definition t := list (K * nat).

(** [c[k] += 1]: an existing key keeps its place, a new key goes last. *)
Fixpoint incr (k : K) (c : t) : t :=
  match c with
  | [] => [(k, 1%nat)]
  | (k', n) :: c' => if eqb k k' then (k', S n) :: c' else (k', n) :: incr k c'
  end.

(** [Counter(iterable)]. *)
Definition count_elements (l : list K) : t :=
  fold_left (fun c k => incr k c) l [].

(** Places [x] in a list sorted by decreasing count, before the first
    entry whose count does not exceed its own. *)
Fixpoint insert_desc (x : K * nat) (l : t) : t :=
  match l with
  | [] => [x]
  | y :: l' => if (snd y <=? snd x)%nat then x :: y :: l' else y :: insert_desc x l'
  end.

(** [sorted(c.items(), key=itemgetter(1), reverse=True)]: a stable sort,
    entries of equal count keep their insertion order. *)
Definition sort_desc (c : t) : t := fold_right insert_desc [] c.

(** [c.most_common(n)] for an integer [n]: [heapq.nlargest(n, ...)], which
    is the first [n] entries of the sorted list and is empty for [n <= 0]. *)
Definition most_common (n : Z) (c : t) : t := firstn (Z.to_nat n) (sort_desc c).

(** [c.most_common()]. *)
Definition most_common_all (c : t) : t := sort_desc c.

(** Number of occurrences and place of the first occurrence. *)
Fixpoint occurrences (k : K) (l : list K) : nat :=
  match l with
  | [] => O
  | x :: l' => ((if eqb k x then 1 else 0) + occurrences k l')%nat
  end.

Fixpoint first_index (k : K) (l : list K) : nat :=
  match l with
  | [] => O
  | x :: l' => if eqb k x then O else S (first_index k l')
  end.

Definition keys (c : t) : list K := map fst c.

(** *** Facts about [incr] *)

Lemma eqb_refl (k : K) : eqb k k = true.
Proof. now apply eqb_eq. Qed.

Lemma eqb_neq (x y : K) : eqb x y = false <-> x <> y.
Proof.
  split.
  - intros H E. apply eqb_eq in E. congruence.
  - intros H. destruct (eqb x y) eqn:E; [|reflexivity].
    apply eqb_eq in E. contradiction.
Qed.

Lemma incr_keys_in (k : K) (c : t) :
  In k (keys c) -> keys (incr k c) = keys c.
Proof.
  induction c as [|[k' n] c IH]; simpl; [tauto|].
  intros H. destruct (eqb k k') eqn:E; simpl; [reflexivity|].
  f_equal. apply IH. destruct H as [H|H]; [|exact H].
  apply eqb_neq in E. congruence.
Qed.

Lemma incr_keys_new (k : K) (c : t) :
  ~ In k (keys c) -> keys (incr k c) = keys c ++ [k].
Proof.
  induction c as [|[k' n] c IH]; simpl; [reflexivity|].
  intros H. destruct (eqb k k') eqn:E; simpl.
  - apply eqb_eq in E. subst. tauto.
  - f_equal. apply IH. tauto.
Qed.

Lemma incr_lookup (k x : K) (m : nat) (c : t) :
  NoDup (keys c) ->
  In (x, m) (incr k c) ->
  (x = k /\ ((exists n, In (k, n) c /\ m = S n) \/ (~ In k (keys c) /\ m = 1%nat)))
  \/ (x <> k /\ In (x, m) c).
Proof.
  induction c as [|[k' n] c IH]; simpl; intros ND H.
  - destruct H as [H|[]]. inversion H; subst. left. split; [reflexivity|].
    right. split; [tauto|reflexivity].
  - inversion ND as [|? ? Hnotin ND']; subst.
    destruct (eqb k k') eqn:E.
    + apply eqb_eq in E. subst k'. destruct H as [H|H].
      * inversion H; subst. left. split; [reflexivity|].
        left. exists n. split; [now left|reflexivity].
      * right. split; [|now right].
        intros ->. apply Hnotin. change k with (fst (k, m)). now apply in_map.
    + apply eqb_neq in E. destruct H as [H|H].
      * inversion H; subst. right. split; [congruence|now left].
      * destruct (IH ND' H) as [[-> [[n0 [Hin ->]]|[Hnot ->]]]|[Hne Hin]].
        -- left. split; [reflexivity|]. left. exists n0. split; [now right|reflexivity].
        -- left. split; [reflexivity|]. right. split; [|reflexivity].
           intros [Hk|Hk]; [congruence|contradiction].
        -- right. split; [exact Hne|now right].
Qed.

Lemma keys_in_dec (k : K) (l : list K) : {In k l} + {~ In k l}.
Proof.
  induction l as [|x l IH]; [right; intros []|].
  destruct (eqb k x) eqn:E.
  - left. left. symmetry. now apply eqb_eq.
  - destruct IH as [IH|IH]; [left; now right|].
    right. intros [H|H]; [|contradiction].
    apply eqb_neq in E. congruence.
Qed.

Lemma occurrences_app (k : K) (l1 l2 : list K) :
  occurrences k (l1 ++ l2) = (occurrences k l1 + occurrences k l2)%nat.
Proof. induction l1 as [|x l1 IH]; simpl; [reflexivity|]. rewrite IH. lia. Qed.

Lemma occurrences_zero (k : K) (l : list K) :
  ~ In k l -> occurrences k l = O.
Proof.
  induction l as [|x l IH]; simpl; [reflexivity|]. intros H.
  destruct (eqb k x) eqn:E.
  - apply eqb_eq in E. subst. tauto.
  - apply IH. tauto.
Qed.

Lemma occurrences_pos (k : K) (l : list K) :
  In k l -> (0 < occurrences k l)%nat.
Proof.
  induction l as [|x l IH]; simpl; [tauto|]. intros [->|H].
  - rewrite eqb_refl. lia.
  - specialize (IH H). lia.
Qed.

Lemma first_index_app_in (k : K) (l1 l2 : list K) :
  In k l1 -> first_index k (l1 ++ l2) = first_index k l1.
Proof.
  induction l1 as [|x l1 IH]; simpl; [tauto|]. intros H.
  destruct (eqb k x) eqn:E; [reflexivity|]. f_equal. apply IH.
  destruct H as [H|H]; [|exact H]. apply eqb_neq in E. congruence.
Qed.

Lemma first_index_lt (k : K) (l : list K) :
  In k l -> (first_index k l < List.length l)%nat.
Proof.
  induction l as [|x l IH]; simpl; [tauto|]. intros H.
  destruct (eqb k x) eqn:E; [lia|].
  enough (first_index k l < List.length l)%nat by lia. apply IH.
  destruct H as [H|H]; [|exact H]. apply eqb_neq in E. congruence.
Qed.

Lemma first_index_app_new (k : K) (l : list K) :
  ~ In k l -> first_index k (l ++ [k]) = List.length l.
Proof.
  induction l as [|x l IH]; simpl; intros H.
  - now rewrite eqb_refl.
  - destruct (eqb k x) eqn:E.
    + apply eqb_eq in E. subst. tauto.
    + f_equal. apply IH. tauto.
Qed.

(** *** Facts about [count_elements] *)

Lemma count_elements_snoc (l : list K) (k : K) :
  count_elements (l ++ [k]) = incr k (count_elements l).
Proof. unfold count_elements. now rewrite fold_left_app. Qed.

Lemma sorted_weaken (A : Type) (R R' : A -> A -> Prop) (l : list A) :
  StronglySorted R l ->
  (forall a b, In a l -> In b l -> R a b -> R' a b) ->
  StronglySorted R' l.
Proof.
  induction 1 as [|a l HS IH HF]; intros Himp; constructor.
  - apply IH. intros x y Hx Hy. apply Himp; now right.
  - rewrite Forall_forall in *. intros x Hx.
    apply Himp; [now left|now right|now apply HF].
Qed.

Lemma sorted_snoc (A : Type) (R : A -> A -> Prop) (l : list A) (x : A) :
  StronglySorted R l -> Forall (fun a => R a x) l -> StronglySorted R (l ++ [x]).
Proof.
  induction 1 as [|a l HS IH HF]; intros Hx; simpl.
  - repeat constructor.
  - inversion Hx; subst. constructor; [now apply IH|].
    apply Forall_app. split; [exact HF|]. now constructor.
Qed.

Lemma in_firstn (A : Type) (n : nat) (l : list A) (x : A) :
  In x (firstn n l) -> In x l.
Proof.
  revert l. induction n as [|n IH]; intros [|a l]; simpl; try tauto.
  intros [H|H]; [now left|right; now apply IH].
Qed.

Lemma sorted_firstn (A : Type) (R : A -> A -> Prop) (n : nat) (l : list A) :
  StronglySorted R l -> StronglySorted R (firstn n l).
Proof.
  revert l. induction n as [|n IH]; intros l HS; simpl; [constructor|].
  destruct l as [|a l]; [constructor|].
  inversion HS; subst. constructor; [now apply IH|].
  rewrite Forall_forall in *. intros x Hx. apply H2.
  eapply in_firstn; eassumption.
Qed.

(** The counter of a sequence lists each distinct element once, in the
    order of first occurrence, with its number of occurrences. *)
Lemma count_elements_spec (l : list K) :
  NoDup (keys (count_elements l))
  /\ (forall x, In x (keys (count_elements l)) <-> In x l)
  /\ (forall x m, In (x, m) (count_elements l) -> m = occurrences x l)
  /\ StronglySorted (fun a b => (first_index a l < first_index b l)%nat)
       (keys (count_elements l)).
Proof.
  induction l as [|k l (ND & Hkeys & Hocc & HS)] using rev_ind.
  - cbn. repeat split; try constructor; try tauto.
  - rewrite count_elements_snoc.
    destruct (keys_in_dec k (keys (count_elements l))) as [Hin|Hnew].
    + rewrite (incr_keys_in k _ Hin). repeat split.
      * exact ND.
      * intros H. apply in_or_app. left. now apply Hkeys.
      * intros H. apply in_app_or in H. destruct H as [H|[<-|[]]]; [|exact Hin].
        now apply Hkeys.
      * intros x m H. rewrite occurrences_app. simpl.
        destruct (incr_lookup k x m _ ND H) as [[-> [[n [Hn ->]]|[Hnot _]]]|[Hne Hx]].
        -- rewrite eqb_refl. rewrite <- (Hocc k n Hn). lia.
        -- contradiction.
        -- rewrite (Hocc x m Hx).
           replace (eqb x k) with false; [lia|].
           symmetry. now apply eqb_neq.
      * eapply sorted_weaken; [exact HS|]. intros a b Ha Hb Hab.
        rewrite !first_index_app_in; [exact Hab| |]; now apply Hkeys.
    + rewrite (incr_keys_new k _ Hnew).
      assert (Hk : ~ In k l) by (intros H; apply Hnew; now apply Hkeys).
      repeat split.
      * apply NoDup_app; [exact ND|repeat constructor; intros []|].
        intros a Ha [<-|[]]. contradiction.
      * intros H. apply in_app_or in H. apply in_or_app.
        destruct H as [H|H]; [left; now apply Hkeys|now right].
      * intros H. apply in_app_or in H. apply in_or_app.
        destruct H as [H|H]; [left; now apply Hkeys|now right].
      * intros x m H. rewrite occurrences_app. simpl.
        destruct (incr_lookup k x m _ ND H) as [[-> [[n [Hn _]]|[_ ->]]]|[Hne Hx]].
        -- exfalso. apply Hnew. change k with (fst (k, n)). now apply in_map.
        -- rewrite eqb_refl, (occurrences_zero k l Hk). reflexivity.
        -- rewrite (Hocc x m Hx).
           replace (eqb x k) with false; [lia|].
           symmetry. now apply eqb_neq.
      * apply sorted_snoc.
        -- eapply sorted_weaken; [exact HS|]. intros a b Ha Hb Hab.
           rewrite !first_index_app_in; [exact Hab| |]; now apply Hkeys.
        -- rewrite Forall_forall. intros a Ha. apply Hkeys in Ha.
           rewrite (first_index_app_in a l [k] Ha), (first_index_app_new k l Hk).
           now apply first_index_lt.
Qed.

(** *** Facts about the stable sort *)

Lemma insert_desc_in (x y : K * nat) (l : t) :
  In y (insert_desc x l) <-> y = x \/ In y l.
Proof.
  induction l as [|z l IH]; simpl.
  - split; intros [H|H]; auto.
  - destruct (snd z <=? snd x)%nat; simpl; [split; intros [H|H]; auto|].
    rewrite IH. tauto.
Qed.

Lemma sort_desc_in (y : K * nat) (c : t) : In y (sort_desc c) <-> In y c.
Proof.
  induction c as [|x c IH]; simpl; [tauto|].
  rewrite insert_desc_in, IH. split; intros [H|H]; auto.
Qed.

Lemma insert_desc_length (x : K * nat) (l : t) :
  List.length (insert_desc x l) = S (List.length l).
Proof.
  induction l as [|z l IH]; simpl; [reflexivity|].
  destruct (snd z <=? snd x)%nat; simpl; [reflexivity|now rewrite IH].
Qed.

Lemma sort_desc_length (c : t) : List.length (sort_desc c) = List.length c.
Proof.
  induction c as [|x c IH]; simpl; [reflexivity|].
  now rewrite insert_desc_length, IH.
Qed.

Section Stable.

Variable pos : K * nat -> nat.

(** Larger counts first; among equal counts, the earlier entry first. *)
Definition ranked (a b : K * nat) : Prop :=
  (snd b < snd a)%nat \/ (snd a = snd b /\ (pos a < pos b)%nat).

Lemma ranked_count (a b : K * nat) : ranked a b -> (snd b <= snd a)%nat.
Proof. unfold ranked. lia. Qed.

Lemma insert_desc_sorted (x : K * nat) (l : t) :
  StronglySorted ranked l ->
  Forall (fun y => (pos x < pos y)%nat) l ->
  StronglySorted ranked (insert_desc x l).
Proof.
  induction 1 as [|y l HS IH HF]; intros Hpos; simpl.
  - repeat constructor.
  - inversion Hpos as [|? ? Hy Hl]; subst.
    destruct (snd y <=? snd x)%nat eqn:E.
    + apply Nat.leb_le in E. constructor; [now constructor|].
      constructor.
      * unfold ranked. lia.
      * rewrite Forall_forall in *. intros z Hz.
        specialize (HF z Hz). apply ranked_count in HF.
        specialize (Hl z Hz). unfold ranked. lia.
    + apply Nat.leb_gt in E. constructor; [now apply IH|].
      rewrite Forall_forall in *. intros z Hz.
      apply insert_desc_in in Hz. destruct Hz as [->|Hz]; [|now apply HF].
      unfold ranked. lia.
Qed.

Lemma sort_desc_sorted (c : t) :
  StronglySorted (fun a b => (pos a < pos b)%nat) c ->
  StronglySorted ranked (sort_desc c).
Proof.
  induction 1 as [|x c HS IH HF]; simpl; [constructor|].
  apply insert_desc_sorted; [exact IH|].
  rewrite Forall_forall in *. intros y Hy. apply HF. now apply sort_desc_in.
Qed.

End Stable.

(** *** [most_common] of a counter built from a sequence *)



Lemma count_elements_sorted_items (l : list K) :
  StronglySorted
    (fun a b : K * nat => (first_index (fst a) l < first_index (fst b) l)%nat)
    (count_elements l).
Proof.
  destruct (count_elements_spec l) as (_ & _ & _ & HS).
  revert HS. unfold keys. generalize (count_elements l) as c.
  induction c as [|a c IH]; simpl; intros HS; [constructor|].
  inversion HS; subst. constructor; [now apply IH|].
  rewrite Forall_forall in *. intros y Hy. apply H2. now apply in_map.
Qed.

Lemma most_common_in (n : Z) (c : t) (x : K * nat) :
  In x (most_common n c) -> In x c.
Proof.
  unfold most_common. intros H. apply sort_desc_in.
  eapply in_firstn; eassumption.
Qed.


Lemma most_common_nonpositive (n : Z) (c : t) : n <= 0 -> most_common n c = [].
Proof.
  intros Hn. unfold most_common. replace (Z.to_nat n) with O by lia. reflexivity.
Qed.


Lemma most_common_from (n : Z) (l : list K) (k : K) :
  In k (keys (most_common n (count_elements l))) -> In k l.
Proof.
  intros H. apply in_map_iff in H. destruct H as [[k' m] [<- H]].
  apply most_common_in in H.
  destruct (count_elements_spec l) as (_ & Hkeys & _ & _).
  apply Hkeys. change k' with (fst (k', m)). now apply in_map.
Qed.

Lemma most_common_count (n : Z) (l : list K) (k : K) (m : nat) :
  In (k, m) (most_common n (count_elements l)) ->
  In k l /\ m = occurrences k l.
Proof.
  intros H. apply most_common_in in H.
  destruct (count_elements_spec l) as (_ & Hkeys & Hocc & _). split.
  - apply Hkeys. change k with (fst (k, m)). now apply in_map.
  - now apply Hocc.
Qed.

(** The entries of [most_common] come by decreasing count. *)
Lemma most_common_decreasing (n : Z) (l : list K) :
  StronglySorted (fun a b : K * nat => (snd b <= snd a)%nat)
    (most_common n (count_elements l)).
Proof.
  unfold most_common. apply sorted_firstn.
  eapply sorted_weaken.
  - apply (sort_desc_sorted (fun a => first_index (fst a) l)).
    apply count_elements_sorted_items.
  - intros a b _ _. apply ranked_count.
Qed.

Lemma occurrences_filter (f : K -> bool) (k : K) (l : list K) :
  f k = true -> occurrences k (filter f l) = occurrences k l.
Proof.
  intros Hk. induction l as [|x l IH]; simpl; [reflexivity|].
  destruct (f x) eqn:E; simpl; [now rewrite IH|].
  replace (eqb k x) with false; [exact IH|].
  symmetry. apply eqb_neq. intros ->. congruence.
Qed.

(** *** Further facts: totals, permutation, the entries left out *)

Definition total (c : t) : nat := fold_right (fun kv s => (snd kv + s)%nat) O c.

Lemma incr_total (k : K) (c : t) : total (incr k c) = S (total c).
Proof.
  induction c as [|[k' n] c IH]; simpl; [reflexivity|].
  destruct (eqb k k'); simpl; [reflexivity|]. rewrite IH. lia.
Qed.

Lemma count_elements_total (l : list K) : total (count_elements l) = List.length l.
Proof.
  induction l as [|k l IH] using rev_ind; [reflexivity|].
  rewrite count_elements_snoc, incr_total, IH, length_app. simpl. lia.
Qed.

Lemma insert_desc_perm (x : K * nat) (l : t) : Permutation (x :: l) (insert_desc x l).
Proof.
  induction l as [|y l IH]; simpl; [apply Permutation_refl|].
  destruct (snd y <=? snd x)%nat; [apply Permutation_refl|].
  eapply Permutation_trans; [apply perm_swap|]. now apply perm_skip.
Qed.

Lemma sort_desc_perm (c : t) : Permutation c (sort_desc c).
Proof.
  induction c as [|x c IH]; simpl; [constructor|].
  eapply Permutation_trans; [apply perm_skip, IH|]. apply insert_desc_perm.
Qed.

Lemma total_perm (c c' : t) : Permutation c c' -> total c = total c'.
Proof. induction 1; simpl; lia. Qed.

Lemma nodup_firstn (A : Type) (n : nat) (l : list A) : NoDup l -> NoDup (firstn n l).
Proof.
  revert l. induction n as [|n IH]; intros [|a l] H; simpl; try constructor.
  - inversion H; subst. intros Hin. apply in_firstn in Hin. contradiction.
  - inversion H; subst. now apply IH.
Qed.

Lemma most_common_nodup (n : Z) (l : list K) :
  NoDup (keys (most_common n (count_elements l))).
Proof.
  destruct (count_elements_spec l) as (ND & _).
  unfold most_common, keys. rewrite <- firstn_map. apply nodup_firstn.
  eapply Permutation_NoDup; [|exact ND].
  apply Permutation_map. apply sort_desc_perm.
Qed.

Lemma sorted_split (A : Type) (R : A -> A -> Prop) (n : nat) (l : list A) (a b : A) :
  StronglySorted R l -> In a (firstn n l) -> In b (skipn n l) -> R a b.
Proof.
  revert l. induction n as [|n IH]; intros l HS Ha Hb; simpl in *; [contradiction|].
  destruct l as [|x l]; [contradiction|]. inversion HS; subst.
  destruct Ha as [->|Ha].
  - rewrite Forall_forall in H2. apply H2.
    rewrite <- (firstn_skipn n l). apply in_or_app. now right.
  - apply (IH l); assumption.
Qed.

Lemma count_elements_entry (l : list K) (k : K) :
  In k l -> In (k, occurrences k l) (count_elements l).
Proof.
  intros H. destruct (count_elements_spec l) as (_ & Hkeys & Hocc & _).
  apply Hkeys in H. apply in_map_iff in H. destruct H as [[k' m] [Hk Hin]].
  simpl in Hk. subst k'. now rewrite <- (Hocc k m Hin).
Qed.

(** An element that [most_common] leaves out occurs no more often than
    any element it keeps, and then it keeps [n] entries. *)
Lemma most_common_left_out (n : Z) (l : list K) (k : K) :
  In k l -> ~ In k (keys (most_common n (count_elements l))) ->
  (forall x, In x (keys (most_common n (count_elements l))) ->
             (occurrences k l <= occurrences x l)%nat)
  /\ List.length (most_common n (count_elements l)) = Z.to_nat n.
Proof.
  intros Hk Hout. pose proof (count_elements_entry l k Hk) as He.
  apply sort_desc_in in He.
  assert (Hskip : In (k, occurrences k l) (skipn (Z.to_nat n) (sort_desc (count_elements l)))).
  { rewrite <- (firstn_skipn (Z.to_nat n)) in He. apply in_app_or in He.
    destruct He as [He|He]; [|exact He]. exfalso. apply Hout.
    change k with (fst (k, occurrences k l)). now apply in_map. }
  split.
  - intros x Hx. apply in_map_iff in Hx. destruct Hx as [[x' m] [Hfst Hx]].
    simpl in Hfst. subst x'.
    pose proof (sorted_split _ _ _ _ _ _
                  (sort_desc_sorted (fun a => first_index (fst a) l) _
                     (count_elements_sorted_items l)) Hx Hskip) as Hr.
    apply ranked_count in Hr. simpl in Hr.
    apply most_common_count in Hx. destruct Hx as [_ ->]. exact Hr.
  - unfold most_common. rewrite length_firstn. apply Nat.min_l.
    destruct (Nat.le_gt_cases (Z.to_nat n) (List.length (sort_desc (count_elements l))))
      as [Hle|Hgt]; [exact Hle|].
    rewrite skipn_all2 in Hskip by lia. contradiction.
Qed.

Lemma count_elements_repeat (k : K) (n : nat) :
  count_elements (repeat k (S n)) = [(k, S n)].
Proof.
  induction n as [|n IH]; [reflexivity|].
  change (repeat k (S (S n))) with (k :: repeat k (S n)).
  rewrite repeat_cons, count_elements_snoc, IH. simpl. now rewrite eqb_refl.
Qed.

End WithKey.

End Counter.

(** ** Python numbers: comparisons, rounding, binary64 arithmetic *)
Module PyNum.

Local Open Scope Q_scope.

Definition Qltb (a b : Q) : bool := negb (Qle_bool b a).

Lemma Qltb_lt (a b : Q) : Qltb a b = true <-> a < b.
Proof.
  unfold Qltb. rewrite negb_true_iff. split.
  - intros H. apply Qnot_le_lt. intros Hle.
    apply Qle_bool_iff in Hle. congruence.
  - intros H. destruct (Qle_bool b a) eqn:E; [|reflexivity].
    apply Qle_bool_iff in E. exfalso. exact (Qlt_not_le _ _ H E).
Qed.

Lemma Qltb_ge (a b : Q) : Qltb a b = false <-> b <= a.
Proof.
  unfold Qltb. rewrite negb_false_iff. apply Qle_bool_iff.
Qed.

(** [min(a, b)] and [max(a, b)] of two arguments: the first one wins a tie. *)
Definition py_min (a b : Q) : Q := if Qltb b a then b else a.
Definition py_max (a b : Q) : Q := if Qltb a b then b else a.

Lemma py_min_le_r (a b : Q) : py_min a b <= b.
Proof.
  unfold py_min. destruct (Qltb b a) eqn:E; [apply Qle_refl|].
  now apply Qltb_ge.
Qed.

Lemma py_min_glb (a b c : Q) : c <= a -> c <= b -> c <= py_min a b.
Proof. unfold py_min. now destruct (Qltb b a). Qed.

(** Nearest integer, a tie going to the even one. *)
Definition round_half_even (x : Q) : Z :=
  let f := Qfloor x in
  let r := x - inject_Z f in
  if Qltb r (1 # 2) then f
  else if Qltb (1 # 2) r then (f + 1)%Z
  else if Z.even f then f else (f + 1)%Z.

Lemma round_half_even_mono_int (x : Q) (n : Z) :
  x <= inject_Z n -> (round_half_even x <= n)%Z.
Proof.
  intros H. unfold round_half_even.
  pose proof (Qfloor_le x) as Hfl.
  pose proof (Qlt_floor x) as Hlt.
  set (f := Qfloor x) in *.
  assert (Hfn : (f <= n)%Z).
  { rewrite Zle_Qle. eapply Qle_trans; eassumption. }
  destruct (Qltb (x - inject_Z f) (1 # 2)) eqn:E1; [exact Hfn|].
  assert (Hne : f <> n).
  { intros ->. apply Qltb_ge in E1.
    assert (x - inject_Z n <= 0) by (apply (Qplus_le_l _ _ (inject_Z n)); ring_simplify; exact H).
    assert (Hc : 1 # 2 <= 0) by (eapply Qle_trans; eassumption).
    unfold Qle in Hc. simpl in Hc. lia. }
  destruct (Qltb (1 # 2) (x - inject_Z f)); [lia|].
  destruct (Z.even f); lia.
Qed.

Lemma round_half_even_ge_int (x : Q) (n : Z) :
  inject_Z n <= x -> (n <= round_half_even x)%Z.
Proof.
  intros H. unfold round_half_even.
  assert (Hfn : (n <= Qfloor x)%Z).
  { rewrite <- (Qfloor_Z n). now apply Qfloor_resp_le. }
  destruct (Qltb _ _); [exact Hfn|].
  destruct (Qltb _ _); [lia|].
  destruct (Z.even _); lia.
Qed.

Lemma round_half_even_mono (x y : Q) :
  x <= y -> (round_half_even x <= round_half_even y)%Z.
Proof.
  intros H. unfold round_half_even.
  pose proof (Qfloor_resp_le x y H) as Hf.
  pose proof (Qfloor_le x) as Hx1. pose proof (Qlt_floor x) as Hx2.
  pose proof (Qfloor_le y) as Hy1. pose proof (Qlt_floor y) as Hy2.
  rewrite inject_Z_plus in Hx2, Hy2.
  destruct (Z.eq_dec (Qfloor x) (Qfloor y)) as [E|E].
  - rewrite <- E in *. set (f := Qfloor x) in *.
    destruct (Qltb (x - inject_Z f) (1 # 2)) eqn:E1;
    destruct (Qltb (1 # 2) (x - inject_Z f)) eqn:E2;
    destruct (Qltb (y - inject_Z f) (1 # 2)) eqn:E3;
    destruct (Qltb (1 # 2) (y - inject_Z f)) eqn:E4;
    try apply Qltb_lt in E1; try apply Qltb_ge in E1;
    try apply Qltb_lt in E2; try apply Qltb_ge in E2;
    try apply Qltb_lt in E3; try apply Qltb_ge in E3;
    try apply Qltb_lt in E4; try apply Qltb_ge in E4;
    destruct (Z.even f); try lia; exfalso; lra.
  - assert (Hlt : (Qfloor x + 1 <= Qfloor y)%Z) by lia.
    destruct (Qltb (x - inject_Z (Qfloor x)) (1 # 2));
    destruct (Qltb (1 # 2) (x - inject_Z (Qfloor x)));
    destruct (Qltb (y - inject_Z (Qfloor y)) (1 # 2));
    destruct (Qltb (1 # 2) (y - inject_Z (Qfloor y)));
    destruct (Z.even (Qfloor x)); destruct (Z.even (Qfloor y)); lia.
Qed.

Lemma round_half_even_comp (x y : Q) :
  x == y -> round_half_even x = round_half_even y.
Proof.
  intros H. apply Z.le_antisymm; apply round_half_even_mono; rewrite H; apply Qle_refl.
Qed.

Lemma round_half_even_Z (n : Z) : round_half_even (inject_Z n) = n.
Proof.
  unfold round_half_even. rewrite Qfloor_Z.
  replace (Qltb (inject_Z n - inject_Z n) (1 # 2)) with true; [reflexivity|].
  symmetry. apply Qltb_lt. ring_simplify (inject_Z n - inject_Z n). reflexivity.
Qed.

(** ** Binary floating point

    A Python float is an IEEE 754 binary64 number. A finite one is
    modelled by the rational it holds, and an operation by the exact
    operation followed by [rnd], rounding to the nearest number with 53
    significant bits and exponent at least -1074, a tie going to the even
    significand. Magnitudes beyond the range of binary64 (above 1.8e308)
    are outside the model. *)

Definition pow2 (k : Z) : Q := 2 ^ k.

Lemma pow2_pos (k : Z) : 0 < pow2 k.
Proof. apply Qpower_0_lt. reflexivity. Qed.

Lemma pow2_plus (a b : Z) : pow2 (a + b) == pow2 a * pow2 b.
Proof. apply Qpower_plus. discriminate. Qed.

Lemma pow2_le (a b : Z) : (a <= b)%Z -> pow2 a <= pow2 b.
Proof. intros H. apply Qpower_le_compat_l; [exact H|discriminate]. Qed.

Lemma pow2_lt (a b : Z) : (a < b)%Z -> pow2 a < pow2 b.
Proof. intros H. apply Qpower_lt_compat_l; [exact H|reflexivity]. Qed.

Lemma pow2_Z (k : Z) : (0 <= k)%Z -> pow2 k == inject_Z (2 ^ k).
Proof. intros H. unfold pow2. now rewrite Zpower_Qpower. Qed.

Lemma pow2_minus (a b : Z) : pow2 (a - b) * pow2 b == pow2 a.
Proof. rewrite <- pow2_plus. now replace (a - b + b)%Z with a by lia. Qed.

(** The floor of the binary logarithm of a positive rational. *)
Definition ilog2 (x : Q) : Z :=
  let k := (Z.log2 (Qnum x) - Z.log2 (Zpos (Qden x)))%Z in
  if Qle_bool (pow2 k) x then k else (k - 1)%Z.

Lemma ilog2_spec (x : Q) :
  0 < x -> pow2 (ilog2 x) <= x /\ x < pow2 (ilog2 x + 1).
Proof.
  intros Hx. destruct x as [n d]. unfold ilog2. cbn [Qnum Qden].
  assert (Hn : (0 < n)%Z) by (unfold Qlt in Hx; simpl in Hx; lia).
  pose proof (Z.log2_spec n Hn) as [Ha1 Ha2].
  pose proof (Z.log2_spec (Zpos d) (Pos2Z.is_pos d)) as [Hb1 Hb2].
  pose proof (Z.log2_nonneg n) as Ha0.
  pose proof (Z.log2_nonneg (Zpos d)) as Hb0.
  set (a := Z.log2 n) in *. set (b := Z.log2 (Zpos d)) in *.
  rewrite <- Z.add_1_r in Ha2, Hb2.
  assert (Hp : forall z : Z, (0 <= z)%Z -> (0 < 2 ^ z)%Z) by (intros; apply Z.pow_pos_nonneg; lia).
  pose proof (Hp a Ha0) as Pa. pose proof (Hp b Hb0) as Pb.
  pose proof (Hp (a + 1)%Z ltac:(lia)) as Pa1. pose proof (Hp (b + 1)%Z ltac:(lia)) as Pb1.
  assert (Hup : n # d < pow2 (a - b + 1)).
  { apply (Qmult_lt_r _ _ (pow2 b)); [apply pow2_pos|].
    replace (a - b + 1)%Z with (a + 1 - b)%Z by lia.
    rewrite pow2_minus. rewrite !pow2_Z by lia.
    unfold Qlt, Qmult, inject_Z. cbn [Qnum Qden].
    rewrite ?Z.mul_1_r, ?Z.mul_1_l, ?Pos.mul_1_r, ?Pos.mul_1_l. nia. }
  assert (Hlo : pow2 (a - b - 1) < n # d).
  { apply (Qmult_lt_r _ _ (pow2 (b + 1))); [apply pow2_pos|].
    replace (a - b - 1)%Z with (a - (b + 1))%Z by lia.
    rewrite pow2_minus. rewrite !pow2_Z by lia.
    unfold Qlt, Qmult, inject_Z. cbn [Qnum Qden].
    rewrite ?Z.mul_1_r, ?Z.mul_1_l, ?Pos.mul_1_r, ?Pos.mul_1_l. nia. }
  destruct (Qle_bool (pow2 (a - b)) (n # d)) eqn:E.
  - apply Qle_bool_iff in E. split; assumption.
  - assert (E' : n # d < pow2 (a - b)).
    { apply Qnot_le_lt. intros Hle. apply Qle_bool_iff in Hle. congruence. }
    replace (a - b - 1 + 1)%Z with (a - b)%Z by lia.
    split; [now apply Qlt_le_weak|exact E'].
Qed.

Lemma ilog2_unique (x : Q) (e : Z) :
  pow2 e <= x -> x < pow2 (e + 1) -> ilog2 x = e.
Proof.
  intros H1 H2.
  assert (Hx : 0 < x) by (eapply Qlt_le_trans; [apply pow2_pos|exact H1]).
  destruct (ilog2_spec x Hx) as [S1 S2].
  destruct (Z.lt_trichotomy (ilog2 x) e) as [L|[L|L]]; [|exact L|]; exfalso.
  - assert (pow2 (ilog2 x + 1) <= pow2 e) by (apply pow2_le; lia). lra.
  - assert (pow2 (e + 1) <= pow2 (ilog2 x)) by (apply pow2_le; lia). lra.
Qed.

Lemma ilog2_mono (x y : Q) : 0 < x -> x <= y -> (ilog2 x <= ilog2 y)%Z.
Proof.
  intros Hx Hxy.
  assert (Hy : 0 < y) by lra.
  destruct (ilog2_spec x Hx) as [X1 X2]. destruct (ilog2_spec y Hy) as [Y1 Y2].
  destruct (Z_le_gt_dec (ilog2 x) (ilog2 y)) as [L|L]; [exact L|exfalso].
  assert (pow2 (ilog2 y + 1) <= pow2 (ilog2 x)) by (apply pow2_le; lia). lra.
Qed.

(** The exponent of the last place of [x], and rounding at an exponent. *)
Definition ulp_exp (x : Q) : Z := Z.max (ilog2 (Qabs x) - 52) (-1074).

Definition round_at (q : Z) (x : Q) : Q :=
  inject_Z (round_half_even (x / pow2 q)) * pow2 q.

Definition rnd (x : Q) : Q :=
  if Qeq_bool x 0 then 0 else Qred (round_at (ulp_exp x) x).

Lemma pow2_neq (q : Z) : ~ pow2 q == 0.
Proof. pose proof (pow2_pos q). intros E. rewrite E in H. discriminate. Qed.

Lemma round_at_mono (q : Z) (x y : Q) : x <= y -> round_at q x <= round_at q y.
Proof.
  intros H. unfold round_at.
  apply Qmult_le_compat_r; [|apply Qlt_le_weak, pow2_pos].
  rewrite <- Zle_Qle. apply round_half_even_mono.
  unfold Qdiv. apply Qmult_le_compat_r; [exact H|].
  apply Qlt_le_weak, Qinv_lt_0_compat, pow2_pos.
Qed.

Lemma round_at_comp (q : Z) (x y : Q) : x == y -> round_at q x == round_at q y.
Proof.
  intros H. apply Qle_antisym; apply round_at_mono; rewrite H; apply Qle_refl.
Qed.

Lemma round_at_multiple (q n : Z) :
  round_at q (inject_Z n * pow2 q) == inject_Z n * pow2 q.
Proof.
  unfold round_at.
  rewrite (round_half_even_comp _ (inject_Z n)).
  - now rewrite round_half_even_Z.
  - field. apply pow2_neq.
Qed.

Lemma pow2_multiple (q e : Z) :
  (q <= e)%Z -> pow2 e == inject_Z (2 ^ (e - q)) * pow2 q.
Proof.
  intros H. rewrite <- pow2_Z by lia. now rewrite pow2_minus.
Qed.

Lemma round_at_pow2 (q e : Z) : (q <= e)%Z -> round_at q (pow2 e) == pow2 e.
Proof.
  intros H. rewrite (round_at_comp q _ _ (pow2_multiple q e H)).
  rewrite round_at_multiple. symmetry. now apply pow2_multiple.
Qed.

Lemma round_at_zero (q : Z) : round_at q 0 == 0.
Proof.
  rewrite (round_at_comp q 0 (inject_Z 0 * pow2 q)) by ring.
  rewrite round_at_multiple. ring.
Qed.

Lemma round_at_nonneg (q : Z) (x : Q) : 0 <= x -> 0 <= round_at q x.
Proof. intros H. rewrite <- (round_at_zero q). now apply round_at_mono. Qed.

Lemma round_at_nonpos (q : Z) (x : Q) : x <= 0 -> round_at q x <= 0.
Proof. intros H. rewrite <- (round_at_zero q). now apply round_at_mono. Qed.

Lemma rnd_unfold (x : Q) : ~ x == 0 -> rnd x == round_at (ulp_exp x) x.
Proof.
  intros H. unfold rnd. destruct (Qeq_bool x 0) eqn:E.
  - apply Qeq_bool_eq in E. contradiction.
  - apply Qred_correct.
Qed.

Lemma rnd_zero (x : Q) : x == 0 -> rnd x = 0.
Proof. intros H. unfold rnd. apply Qeq_eq_bool in H. now rewrite H. Qed.

Lemma rnd_nonneg (x : Q) : 0 <= x -> 0 <= rnd x.
Proof.
  intros H. unfold rnd. destruct (Qeq_bool x 0); [apply Qle_refl|].
  rewrite Qred_correct. now apply round_at_nonneg.
Qed.

Lemma rnd_nonpos (x : Q) : x <= 0 -> rnd x <= 0.
Proof.
  intros H. unfold rnd. destruct (Qeq_bool x 0); [apply Qle_refl|].
  rewrite Qred_correct. now apply round_at_nonpos.
Qed.

Lemma Qabs_of_pos (x : Q) : 0 < x -> Qabs x == x.
Proof. intros H. apply Qabs_pos. now apply Qlt_le_weak. Qed.

Lemma ilog2_comp (x y : Q) : 0 < x -> x == y -> ilog2 x = ilog2 y.
Proof.
  intros Hx E. destruct (ilog2_spec x Hx) as [H1 H2].
  symmetry. apply ilog2_unique; rewrite <- E; assumption.
Qed.

Lemma ulp_exp_pos (x : Q) : 0 < x -> ulp_exp x = Z.max (ilog2 x - 52) (-1074).
Proof.
  intros H. unfold ulp_exp. f_equal. f_equal.
  apply ilog2_comp; [|now apply Qabs_of_pos].
  rewrite Qabs_of_pos; assumption.
Qed.

Lemma rnd_mono_pos (x y : Q) : 0 < x -> x <= y -> rnd x <= rnd y.
Proof.
  intros Hx Hxy. assert (Hy : 0 < y) by lra.
  rewrite (rnd_unfold x) by (intros E; rewrite E in Hx; discriminate).
  rewrite (rnd_unfold y) by (intros E; rewrite E in Hy; discriminate).
  rewrite (ulp_exp_pos x Hx), (ulp_exp_pos y Hy).
  pose proof (ilog2_mono x y Hx Hxy) as He.
  destruct (ilog2_spec x Hx) as [X1 X2]. destruct (ilog2_spec y Hy) as [Y1 Y2].
  set (ex := ilog2 x) in *. set (ey := ilog2 y) in *.
  destruct (Z.eq_dec (Z.max (ex - 52) (-1074)) (Z.max (ey - 52) (-1074))) as [E|E].
  - rewrite E. now apply round_at_mono.
  - assert (Hlt : (ex < ey)%Z) by lia.
    assert (Hq : Z.max (ey - 52) (-1074) = (ey - 52)%Z) by lia.
    rewrite Hq.
    apply (Qle_trans _ (pow2 ey)).
    + rewrite <- (round_at_pow2 (Z.max (ex - 52) (-1074)) ey) by lia.
      apply round_at_mono.
      apply Qlt_le_weak. eapply Qlt_le_trans; [exact X2|]. apply pow2_le. lia.
    + rewrite <- (round_at_pow2 (ey - 52) ey) at 1 by lia.
      now apply round_at_mono.
Qed.

(** Rounding is monotone towards a number that is not negative. *)
Lemma rnd_mono (x y : Q) : x <= y -> 0 <= y -> rnd x <= rnd y.
Proof.
  intros Hxy Hy. destruct (Qlt_le_dec 0 x) as [Hx|Hx].
  - now apply rnd_mono_pos.
  - apply (Qle_trans _ 0); [now apply rnd_nonpos|now apply rnd_nonneg].
Qed.

Lemma rnd_comp (x y : Q) : x == y -> rnd x = rnd y.
Proof.
  intros E. unfold rnd.
  destruct (Qeq_bool x 0) eqn:Ex; destruct (Qeq_bool y 0) eqn:Ey; try reflexivity.
  - apply Qeq_bool_eq in Ex. rewrite E in Ex. apply Qeq_eq_bool in Ex. congruence.
  - apply Qeq_bool_eq in Ey. rewrite <- E in Ey. apply Qeq_eq_bool in Ey. congruence.
  - apply Qred_complete.
    assert (Hx : ~ x == 0) by (now apply Qeq_bool_neq).
    assert (Hu : ulp_exp x = ulp_exp y).
    { unfold ulp_exp. f_equal. f_equal. apply ilog2_comp.
      - apply Qabs_case; intros H; apply Qle_lt_or_eq in H;
          destruct H as [H|H]; try lra; exfalso; apply Hx; lra.
      - now rewrite E. }
    rewrite Hu. now apply round_at_comp.
Qed.

(** Bounds by numbers that binary64 holds. *)
Definition representable (c : Q) : Prop := rnd c == c.

Lemma rnd_le (x c : Q) : representable c -> 0 <= c -> x <= c -> rnd x <= c.
Proof.
  intros Hc H0 H. unfold representable in Hc.
  apply (Qle_trans _ (rnd c)); [now apply rnd_mono|]. rewrite Hc. apply Qle_refl.
Qed.

Lemma rnd_ge (x c : Q) : representable c -> 0 <= c -> c <= x -> c <= rnd x.
Proof.
  intros Hc H0 H. unfold representable in Hc.
  apply (Qle_trans _ (rnd c)); [rewrite Hc; apply Qle_refl|]. apply rnd_mono; lra.
Qed.

(** A multiple of a power of two within 53 bits is held exactly. *)
Lemma format_fixed (N q : Z) :
  (0 < N <= 2 ^ 53)%Z -> (-1074 <= q)%Z ->
  representable (inject_Z N * pow2 q).
Proof.
  intros [HN1 HN2] Hq. unfold representable.
  set (y := inject_Z N * pow2 q).
  assert (HNq : 0 < inject_Z N) by (unfold Qlt; simpl; lia).
  assert (Hy : 0 < y).
  { unfold y. apply Qmult_lt_0_compat; [exact HNq|apply pow2_pos]. }
  pose proof (Z.log2_spec N HN1) as [L1 L2].
  pose proof (Z.log2_nonneg N) as L0.
  rewrite <- Z.add_1_r in L2.
  assert (He : ilog2 y = (Z.log2 N + q)%Z).
  { apply ilog2_unique; unfold y.
    - rewrite pow2_plus. apply Qmult_le_compat_r; [|apply Qlt_le_weak, pow2_pos].
      rewrite pow2_Z by lia. now rewrite <- Zle_Qle.
    - replace (Z.log2 N + q + 1)%Z with ((Z.log2 N + 1) + q)%Z by lia.
      rewrite pow2_plus. apply Qmult_lt_r; [apply pow2_pos|].
      rewrite pow2_Z by lia. now rewrite <- Zlt_Qlt. }
  rewrite rnd_unfold by (intros E; rewrite E in Hy; discriminate).
  rewrite (ulp_exp_pos y Hy), He.
  set (q' := Z.max (Z.log2 N + q - 52) (-1074)).
  assert (Hm : exists M, y == inject_Z M * pow2 q').
  { destruct (Z.eq_dec N (2 ^ 53)) as [E|E].
    - assert (Z.log2 N = 53%Z) by (rewrite E; reflexivity).
      exists (2 ^ 52)%Z. unfold y. rewrite E.
      replace q' with (q + 1)%Z by lia.
      rewrite pow2_plus. change (pow2 1) with 2.
      change (inject_Z (2 ^ 53)) with (inject_Z (2 ^ 52) * 2). ring.
    - assert (HL : (Z.log2 N < 53)%Z) by (apply Z.log2_lt_pow2; lia).
      exists (N * 2 ^ (q - q'))%Z. unfold y.
      rewrite inject_Z_mult, <- Qmult_assoc.
      rewrite <- (pow2_multiple q' q) by lia. reflexivity. }
  destruct Hm as [M HM].
  rewrite (round_at_comp q' _ _ HM), round_at_multiple. now symmetry.
Qed.

(** What rounding returns is held exactly. *)
Lemma rnd_idem (x : Q) : 0 <= x -> representable (rnd x).
Proof.
  intros H. unfold representable.
  destruct (Qeq_bool x 0) eqn:E.
  { apply Qeq_bool_eq in E. rewrite (rnd_zero x E). now rewrite rnd_zero. }
  assert (Hne : ~ x == 0) by (now apply Qeq_bool_neq).
  assert (Hx : 0 < x).
  { apply Qle_lt_or_eq in H. destruct H as [H|H]; [exact H|]. exfalso. apply Hne. now symmetry. }
  destruct (ilog2_spec x Hx) as [X1 X2].
  pose proof (rnd_unfold x Hne) as Hr. rewrite (ulp_exp_pos x Hx) in Hr.
  set (e := ilog2 x) in *. set (q := Z.max (e - 52) (-1074)) in *.
  unfold round_at in Hr. set (N := round_half_even (x / pow2 q)) in *.
  assert (HN0 : (0 <= N)%Z).
  { unfold N. apply (round_half_even_mono 0). apply Qlt_le_weak.
    apply Qlt_shift_div_l; [apply pow2_pos|]. now rewrite Qmult_0_l. }
  assert (HN1 : (N <= 2 ^ 53)%Z).
  { unfold N. rewrite <- (round_half_even_Z (2 ^ 53)).
    apply round_half_even_mono.
    apply Qle_shift_div_r; [apply pow2_pos|].
    rewrite <- pow2_Z by lia. rewrite <- pow2_plus.
    apply Qlt_le_weak. eapply Qlt_le_trans; [exact X2|]. apply pow2_le. lia. }
  destruct (Z.eq_dec N 0) as [E0|E0].
  - rewrite E0 in Hr. assert (Hz : rnd x == 0) by (rewrite Hr; ring).
    rewrite (rnd_zero _ Hz). now symmetry.
  - rewrite (rnd_comp _ _ Hr). rewrite Hr.
    apply format_fixed; lia.
Qed.

(** Every number held is a multiple of the least positive one. *)
Lemma rnd_grid (x : Q) : exists M, rnd x == inject_Z M * pow2 (-1074).
Proof.
  unfold rnd. destruct (Qeq_bool x 0).
  - exists 0%Z. ring.
  - set (q := ulp_exp x). set (N := round_half_even (x / pow2 q)).
    exists (N * 2 ^ (q + 1074))%Z.
    rewrite Qred_correct. unfold round_at. fold N.
    rewrite inject_Z_mult, <- Qmult_assoc.
    assert (Hq : (-1074 <= q)%Z) by (unfold q, ulp_exp; lia).
    rewrite (pow2_multiple (-1074) q Hq).
    now replace (q - -1074)%Z with (q + 1074)%Z by lia.
Qed.

(** The difference of two numbers held does not round to zero. *)
Lemma rnd_gap (x y : Q) : rnd x < rnd y -> 0 < rnd (rnd y - rnd x).
Proof.
  intros H. destruct (rnd_grid x) as [a Ha]. destruct (rnd_grid y) as [b Hb].
  assert (Hu : 0 < pow2 (-1074)) by apply pow2_pos.
  assert (Hab : (a + 1 <= b)%Z).
  { rewrite Ha, Hb in H. apply Qmult_lt_r in H; [|exact Hu].
    rewrite <- Zlt_Qlt in H. lia. }
  assert (Hr : representable (pow2 (-1074))).
  { pose proof (format_fixed 1 (-1074) ltac:(lia) ltac:(lia)) as F.
    unfold representable in *. change (inject_Z 1) with 1 in F.
    rewrite <- (rnd_comp _ _ (Qmult_1_l (pow2 (-1074)))) at 1.
    rewrite F. apply Qmult_1_l. }
  eapply Qlt_le_trans; [exact Hu|].
  apply rnd_ge; [exact Hr|now apply Qlt_le_weak|].
  rewrite Ha, Hb. rewrite Zle_Qle in Hab. rewrite inject_Z_plus in Hab.
  change (inject_Z 1) with 1 in Hab.
  set (u := pow2 (-1074)) in *.
  setoid_replace (inject_Z b * u - inject_Z a * u)
    with ((inject_Z b - inject_Z a) * u) by ring.
  rewrite <- (Qmult_1_l u) at 1.
  apply Qmult_le_compat_r; [|now apply Qlt_le_weak]. lra.
Qed.

(** The operations [+], [-], [*], [/] of floats, and [round(x, 2)]: the
    decimal nearest to the float held, then the float nearest to it. *)
Definition fadd (x y : Q) : Q := rnd (x + y).
Definition fsub (x y : Q) : Q := rnd (x - y).
Definition fmul (x y : Q) : Q := rnd (x * y).
Definition fdiv (x y : Q) : Q := rnd (x / y).
Definition round2 (x : Q) : Q := rnd (inject_Z (round_half_even (x * 100)) / 100).


Lemma representable_zero : representable 0.
Proof. reflexivity. Qed.

Lemma representable_Z (n : Z) : (0 <= n <= 2 ^ 53)%Z -> representable (inject_Z n).
Proof.
  intros H. destruct (Z.eq_dec n 0) as [->|Hn]; [reflexivity|].
  pose proof (format_fixed n 0 ltac:(lia) ltac:(lia)) as F.
  unfold representable in *. change (pow2 0) with 1 in F.
  rewrite <- (rnd_comp _ _ (Qmult_1_r (inject_Z n))) at 1.
  rewrite F. apply Qmult_1_r.
Qed.

(** A comparison with a float literal that lies above the decimal it was
    written as decides the comparison with the decimal. *)
Lemma lt_literal (s t : Q) :
  representable s -> 0 <= s -> t <= rnd t -> (s < rnd t <-> s < t).
Proof.
  intros Hs H0 Ht. split; intros H.
  - apply Qnot_le_lt. intros Hle.
    assert (rnd t <= rnd s) by (now apply rnd_mono).
    unfold representable in Hs. rewrite Hs in H1. lra.
  - lra.
Qed.

Lemma round2_nonneg (x : Q) : 0 <= x -> 0 <= round2 x.
Proof.
  intros H. unfold round2. apply rnd_nonneg.
  apply Qle_shift_div_l; [reflexivity|]. rewrite Qmult_0_l.
  change 0 with (inject_Z 0). rewrite <- Zle_Qle.
  apply (round_half_even_mono 0). 
  change 0 with (0 * 100). apply Qmult_le_compat_r; [exact H|discriminate].
Qed.

Lemma round2_le (x : Q) (hi : Z) :
  (0 <= hi <= 2 ^ 53)%Z -> x <= inject_Z hi -> round2 x <= inject_Z hi.
Proof.
  intros Hhi H. unfold round2.
  apply rnd_le; [now apply representable_Z| |].
  - change 0 with (inject_Z 0). rewrite <- Zle_Qle. lia.
  - apply Qle_shift_div_r; [reflexivity|].
    change 100 with (inject_Z 100). rewrite <- inject_Z_mult, <- Zle_Qle.
    rewrite <- (round_half_even_Z (hi * 100)).
    apply round_half_even_mono. rewrite inject_Z_mult.
    apply Qmult_le_compat_r; [exact H|discriminate].
Qed.

(** [x % 1.0]: the remainder of the truncated division is exact and takes
    the sign of [x]; a negative one is moved up by a rounded addition. *)
Definition trunc (x : Q) : Z := if Qltb x 0 then Qceiling x else Qfloor x.

Definition mod1 (x : Q) : Q :=
  let m := x - inject_Z (trunc x) in
  if Qeq_bool m 0 then 0
  else if Qltb m 0 then fadd m 1
  else m.

Lemma representable_one : representable 1.
Proof. apply (representable_Z 1). lia. Qed.

Lemma mod1_range (x : Q) : 0 <= mod1 x /\ mod1 x <= 1.
Proof.
  unfold mod1, trunc.
  pose proof (Qfloor_le x) as F1. pose proof (Qlt_floor x) as F2.
  pose proof (Qle_ceiling x) as C1. pose proof (Qceiling_lt x) as C2.
  rewrite inject_Z_plus in F2.
  unfold Z.sub in C2. rewrite inject_Z_plus in C2.
  change (inject_Z (- (1))) with (-1 # 1) in C2.
  change (inject_Z 1) with 1 in *.
  destruct (Qltb x 0) eqn:Ex.
  - apply Qltb_lt in Ex.
    destruct (Qeq_bool (x - inject_Z (Qceiling x)) 0); [split; [apply Qle_refl|discriminate]|].
    destruct (Qltb (x - inject_Z (Qceiling x)) 0) eqn:Em.
    + apply Qltb_lt in Em. unfold fadd. split.
      * apply rnd_nonneg. lra.
      * apply rnd_le; [apply representable_one|discriminate|lra].
    + apply Qltb_ge in Em. split; lra.
  - apply Qltb_ge in Ex.
    destruct (Qeq_bool (x - inject_Z (Qfloor x)) 0); [split; [apply Qle_refl|discriminate]|].
    destruct (Qltb (x - inject_Z (Qfloor x)) 0) eqn:Em.
    + apply Qltb_lt in Em. unfold fadd. split.
      * apply rnd_nonneg. lra.
      * apply rnd_le; [apply representable_one|discriminate|lra].
    + split; lra.
Qed.

Example rnd_tenth : rnd (1 # 10) = 3602879701896397 # 36028797018963968.
Proof. reflexivity. Qed.

Example rnd_tie_to_even :
  rnd (1 + (1 # 2 ^ 53)) == 1 /\ rnd (1 + (3 # 2 ^ 53)) == 1 + (4 # 2 ^ 53).
Proof. split; reflexivity. Qed.

Example rnd_below_least :
  rnd (1 # 2 ^ 1075) == 0 /\ rnd (3 # 2 ^ 1075) == 1 # 2 ^ 1073.
Proof. split; reflexivity. Qed.

Example round2_tie_even : round2 (1 # 8) = rnd (12 # 100).
Proof. reflexivity. Qed.

Example round2_above_tie :
  fadd (5 # 8) (rnd (3 # 10)) == 4165829655317709 # 4503599627370496
  /\ round2 (fadd (5 # 8) (rnd (3 # 10))) == rnd (93 # 100).
Proof. split; reflexivity. Qed.

Example round2_negative : round2 (- (10 # 1)) == - (10 # 1).
Proof. reflexivity. Qed.

Example mod1_negative : mod1 (- (1 # 4)) == 3 # 4 /\ mod1 (- (1 # 2 ^ 60)) == 1.
Proof. split; reflexivity. Qed.

End PyNum.

(** ** color_palette_extractor.py *)
Module Palette.

Import PyNum.
Local Open Scope list_scope.
Local Open Scope Q_scope.

(** A pixel of an image in mode RGB. *)
Definition rgb := (Z * Z * Z)%type.

Definition valid_rgb (c : rgb) : Prop :=
  let '(r, g, b) := c in
  (0 <= r <= 255 /\ 0 <= g <= 255 /\ 0 <= b <= 255)%Z.

Definition rgb_eqb (x y : rgb) : bool :=
  let '(r1, g1, b1) := x in
  let '(r2, g2, b2) := y in
  (r1 =? r2)%Z && (g1 =? g2)%Z && (b1 =? b2)%Z.

Lemma rgb_eqb_eq (x y : rgb) : rgb_eqb x y = true <-> x = y.
Proof.
  destruct x as [[r1 g1] b1], y as [[r2 g2] b2]. simpl.
  rewrite !andb_true_iff, !Z.eqb_eq. split.
  - intros [[-> ->] ->]. reflexivity.
  - intros H. inversion H. auto.
Qed.

(** What a function of the script does: it returns, or the process ends
    through [sys.exit] after printing a message. *)
Inductive run (A : Type) : Type :=
| Returned (a : A)
| Exited (code : Z).

Arguments Returned {A} a.
Arguments Exited {A} code.

(** Every [q]-th element, the next one being taken after [i] more. *)
Fixpoint every {A : Type} (q i : nat) (l : list A) : list A :=
  match l with
  | [] => []
  | x :: t =>
      match i with
      | O => x :: every q (q - 1) t
      | S i' => every q i' t
      end
  end.

(** [l[::step]]: from the front for a positive step, from the back for a
    negative one; [None] is the [ValueError] of a zero step. *)
Definition slice_step {A : Type} (l : list A) (step : Z) : option (list A) :=
  if (step =? 0)%Z then None
  else if (0 <? step)%Z then Some (every (Z.to_nat step) 0 l)
  else Some (every (Z.to_nat (- step)) 0 (rev l)).

(** [get_dominant_colors(image_path, num_colors, quality)]. The image
    library is outside the script: [decoded] is the pixel sequence of the
    image opened, resized to 150 by 150 and converted to RGB, or [None] when
    any of that raises. Every exception ends the process with code 1. *)
Definition get_dominant_colors (decoded : option (list rgb))
    (num_colors quality : Z) : run (list rgb) :=
  match decoded with
  | None => Exited 1%Z
  | Some pixels =>
      match slice_step pixels quality with
      | None => Exited 1%Z
      | Some sampled =>
          let color_counts := Counter.count_elements rgb_eqb sampled in
          Returned (map fst (Counter.most_common num_colors color_counts))
      end
  end.

(** [colorsys.rgb_to_hsv] of the Python standard library, on floats.
    [None] is the [ZeroDivisionError] of the division by [maxc] or by
    [rangec]. *)
Definition rgb_to_hsv (r g b : Q) : option (Q * Q * Q) :=
  let maxc := py_max (py_max r g) b in
  let minc := py_min (py_min r g) b in
  let rangec := fsub maxc minc in
  let v := maxc in
  if Qeq_bool minc maxc then Some (0, 0, v)
  else if Qeq_bool maxc 0 then None
  else if Qeq_bool rangec 0 then None
  else
    let s := fdiv rangec maxc in
    let rc := fdiv (fsub maxc r) rangec in
    let gc := fdiv (fsub maxc g) rangec in
    let bc := fdiv (fsub maxc b) rangec in
    let h :=
      if Qeq_bool r maxc then fsub bc gc
      else if Qeq_bool g maxc then fsub (fadd 2 rc) bc
      else fsub (fadd 4 gc) rc in
    Some (mod1 (fdiv h 6), s, v).

(** The float literals [0.1] and [0.9]. *)
Definition lit_0_1 : Q := rnd (1 # 10).
Definition lit_0_9 : Q := rnd (9 # 10).

(** The body of [get_color_name] after the conversion, [h] in degrees. *)
Definition name_of_hsv (h s v : Q) : string :=
  if Qltb s lit_0_1 then
    if Qltb lit_0_9 v then "White"
    else if Qltb v lit_0_1 then "Black"
    else "Gray"
  else if Qltb h 15 || Qle_bool 345 h then "Red"
  else if Qltb h 45 then "Orange"
  else if Qltb h 75 then "Yellow"
  else if Qltb h 150 then "Green"
  else if Qltb h 210 then "Cyan"
  else if Qltb h 270 then "Blue"
  else if Qltb h 330 then "Magenta"
  else "Red".

(** [x / 255] of an integer channel. *)
Definition channel (x : Z) : Q := fdiv (inject_Z x) 255.

(** [get_color_name(rgb)]. *)
Definition get_color_name (c : rgb) : option string :=
  let '(r, g, b) := c in
  match rgb_to_hsv (channel r) (channel g) (channel b) with
  | Some (h, s, v) => Some (name_of_hsv (fmul h 360) s v)
  | None => None
  end.

(** The names of the specification, and its classification as a relation:
    low saturation is named by value, the rest by half-open hue ranges, the
    range of Red running from 330 through the wrap-around to 15. *)
Definition color_names : list string :=
  ["White"; "Black"; "Gray"; "Red"; "Orange"; "Yellow"; "Green"; "Cyan";
   "Blue"; "Magenta"]%string.

Definition classified (h s v : Q) (name : string) : Prop :=
  (s < 1 # 10 /\
     ((9 # 10 < v /\ name = "White"%string)
      \/ (v < 1 # 10 /\ name = "Black"%string)
      \/ (1 # 10 <= v /\ v <= 9 # 10 /\ name = "Gray"%string)))
  \/ (1 # 10 <= s /\
     (((h < 15 \/ 330 <= h) /\ name = "Red"%string)
      \/ (15 <= h /\ h < 45 /\ name = "Orange"%string)
      \/ (45 <= h /\ h < 75 /\ name = "Yellow"%string)
      \/ (75 <= h /\ h < 150 /\ name = "Green"%string)
      \/ (150 <= h /\ h < 210 /\ name = "Cyan"%string)
      \/ (210 <= h /\ h < 270 /\ name = "Blue"%string)
      \/ (270 <= h /\ h < 330 /\ name = "Magenta"%string))).

Example dominant_two : 
  get_dominant_colors (Some [(1, 2, 3); (9, 9, 9); (9, 9, 9); (1, 2, 3); (0, 0, 0)]%Z) 2%Z 1%Z
  = Returned [(1, 2, 3); (9, 9, 9)]%Z.
Proof. reflexivity. Qed.

Example dominant_stride :
  get_dominant_colors (Some [(1, 2, 3); (9, 9, 9); (9, 9, 9); (1, 2, 3); (0, 0, 0)]%Z) 5%Z 2%Z
  = Returned [(1, 2, 3); (9, 9, 9); (0, 0, 0)]%Z.
Proof. reflexivity. Qed.

Example dominant_backwards :
  get_dominant_colors (Some [(1, 2, 3); (9, 9, 9); (0, 0, 0)]%Z) 5%Z (-1)%Z
  = Returned [(0, 0, 0); (9, 9, 9); (1, 2, 3)]%Z.
Proof. reflexivity. Qed.

Example dominant_zero_stride :
  get_dominant_colors (Some [(1, 2, 3)]%Z) 5%Z 0%Z = Exited 1%Z.
Proof. reflexivity. Qed.

Example name_pure_red : get_color_name (255, 0, 0)%Z = Some "Red"%string.
Proof. reflexivity. Qed.

Example name_pure_blue : get_color_name (0, 0, 255)%Z = Some "Blue"%string.
Proof. reflexivity. Qed.

Example name_white : get_color_name (255, 255, 255)%Z = Some "White"%string.
Proof. reflexivity. Qed.

Example name_mid_gray : get_color_name (128, 128, 128)%Z = Some "Gray"%string.
Proof. reflexivity. Qed.

Example name_rose : get_color_name (255, 0, 100)%Z = Some "Red"%string.
Proof. reflexivity. Qed.

(** *** Sampling *)

Lemma every_in (A : Type) (q i : nat) (l : list A) (x : A) :
  In x (every q i l) -> In x l.
Proof.
  revert i. induction l as [|a l IH]; simpl; intros i H; [exact H|].
  destruct i as [|i]; [destruct H as [H|H]|]; eauto.
Qed.

(** With a stride [q >= 1], entry [j] of the sample is pixel [i + j * q]. *)
Lemma every_nth (A : Type) (q i j : nat) (l : list A) :
  (1 <= q)%nat -> nth_error (every q i l) j = nth_error l (i + j * q).
Proof.
  intros Hq. revert i j. induction l as [|a l IH]; intros i j; simpl.
  - destruct (i + j * q)%nat; now destruct j.
  - destruct i as [|i]; simpl.
    + destruct j as [|j]; simpl; [reflexivity|].
      rewrite IH. replace (q + j * q)%nat with (S (q - 1 + j * q)) by lia.
      reflexivity.
    + apply IH.
Qed.


Lemma slice_step_total (A : Type) (l : list A) (step : Z) :
  step <> 0%Z -> exists s, slice_step l step = Some s.
Proof.
  intros H. unfold slice_step. apply Z.eqb_neq in H. rewrite H.
  destruct (0 <? step)%Z; eauto.
Qed.

Lemma slice_step_forward (A : Type) (l : list A) (step : Z) (j : nat) :
  (0 < step)%Z ->
  exists s, slice_step l step = Some s
    /\ nth_error s j = nth_error l (j * Z.to_nat step).
Proof.
  intros H. unfold slice_step.
  replace (step =? 0)%Z with false by (symmetry; apply Z.eqb_neq; lia).
  replace (0 <? step)%Z with true by (symmetry; apply Z.ltb_lt; lia).
  eexists. split; [reflexivity|]. rewrite every_nth by lia. reflexivity.
Qed.

(** A negative count selects nothing. *)
Lemma get_dominant_colors_negative (pixels : list rgb) (num_colors quality : Z) :
  (num_colors <= 0)%Z -> quality <> 0%Z ->
  get_dominant_colors (Some pixels) num_colors quality = Returned [].
Proof.
  intros Hn Hq. unfold get_dominant_colors.
  destruct (slice_step_total rgb pixels quality Hq) as [s ->].
  now rewrite Counter.most_common_nonpositive.
Qed.



(** C4, the claim refuted: asked for -1 colors, which the command line
    accepts, the function returns no color, and 0 colors are not at most
    -1 colors. *)
Lemma negative_count_returns_none :
  get_dominant_colors (Some [(1, 2, 3); (9, 9, 9); (9, 9, 9)]%Z) (-1) 1 = Returned []
  /\ ~ (Z.of_nat (List.length (@nil rgb)) <= -1)%Z.
Proof. split; [reflexivity|simpl; lia]. Qed.

(** *** Classification *)

Lemma py_max_ge_l (a b : Q) : a <= py_max a b.
Proof.
  unfold py_max. destruct (Qltb a b) eqn:E; [|apply Qle_refl].
  apply Qltb_lt in E. now apply Qlt_le_weak.
Qed.

Lemma py_max_ge_r (a b : Q) : b <= py_max a b.
Proof.
  unfold py_max. destruct (Qltb a b) eqn:E; [apply Qle_refl|].
  now apply Qltb_ge.
Qed.

Lemma py_min_le_l (a b : Q) : py_min a b <= a.
Proof.
  unfold py_min. destruct (Qltb b a) eqn:E; [|apply Qle_refl].
  apply Qltb_lt in E. now apply Qlt_le_weak.
Qed.

Lemma py_max_cases (a b : Q) : py_max a b = a \/ py_max a b = b.
Proof. unfold py_max. destruct (Qltb a b); auto. Qed.

Lemma py_min_cases (a b : Q) : py_min a b = a \/ py_min a b = b.
Proof. unfold py_min. destruct (Qltb b a); auto. Qed.

Lemma channel_nonneg (x : Z) : (0 <= x)%Z -> 0 <= channel x.
Proof.
  intros H. unfold channel, fdiv. apply rnd_nonneg.
  unfold Qdiv. apply Qmult_le_0_compat; [|discriminate].
  unfold Qle. simpl. lia.
Qed.

Lemma channel_mono (x y : Z) : (0 <= y)%Z -> (x <= y)%Z -> channel x <= channel y.
Proof.
  intros Hy H. unfold channel, fdiv. apply rnd_mono.
  - unfold Qdiv. apply Qmult_le_compat_r; [|discriminate]. now rewrite <- Zle_Qle.
  - unfold Qdiv. apply Qmult_le_0_compat; [|discriminate].
    unfold Qle. simpl. lia.
Qed.

Lemma channel_representable (x : Z) : (0 <= x)%Z -> representable (channel x).
Proof.
  intros H. unfold channel, fdiv. apply rnd_idem.
  unfold Qdiv. apply Qmult_le_0_compat; [|discriminate].
  unfold Qle. simpl. lia.
Qed.

(** The value of a color is one of its channels. *)
Definition is_channel (q : Q) : Prop :=
  exists k, (0 <= k <= 255)%Z /\ q = channel k.

Lemma py_max_channel (a b : Q) : is_channel a -> is_channel b -> is_channel (py_max a b).
Proof. intros Ha Hb. destruct (py_max_cases a b) as [->| ->]; assumption. Qed.

Lemma py_min_channel (a b : Q) : is_channel a -> is_channel b -> is_channel (py_min a b).
Proof. intros Ha Hb. destruct (py_min_cases a b) as [->| ->]; assumption. Qed.

(** The conversion never divides by zero on valid channels: two
    different channels differ by a multiple of the least positive float,
    which does not round to zero. The hue lies between 0 and 1, the
    saturation is a float that is not negative, the value is a channel. *)
Lemma rgb_to_hsv_total (r g b : Z) :
  valid_rgb (r, g, b) ->
  exists h s v,
    rgb_to_hsv (channel r) (channel g) (channel b) = Some (h, s, v)
    /\ 0 <= h /\ h <= 1
    /\ 0 <= s /\ representable s
    /\ is_channel v.
Proof.
  intros (Hr & Hg & Hb). unfold rgb_to_hsv.
  assert (Cr : is_channel (channel r)) by (exists r; auto).
  assert (Cg : is_channel (channel g)) by (exists g; auto).
  assert (Cb : is_channel (channel b)) by (exists b; auto).
  pose proof (py_max_channel _ _ (py_max_channel _ _ Cr Cg) Cb) as Cmax.
  pose proof (py_min_channel _ _ (py_min_channel _ _ Cr Cg) Cb) as Cmin.
  set (maxc := py_max (py_max (channel r) (channel g)) (channel b)) in *.
  set (minc := py_min (py_min (channel r) (channel g)) (channel b)) in *.
  assert (Hle : minc <= maxc).
  { eapply Qle_trans; [apply py_min_le_r|apply py_max_ge_r]. }
  destruct (Qeq_bool minc maxc) eqn:E.
  - exists 0, 0, maxc. split; [reflexivity|].
    repeat split; try apply Qle_refl; try discriminate; try exact Cmax.
  - apply Qeq_bool_neq in E.
    assert (Hlt : minc < maxc).
    { apply Qle_lt_or_eq in Hle. destruct Hle as [H|H]; [exact H|contradiction]. }
    destruct Cmax as (kmax & Hkmax & Emax). destruct Cmin as (kmin & Hkmin & Emin).
    assert (Hmin0 : 0 <= minc) by (rewrite Emin; apply channel_nonneg; lia).
    assert (Hrange : 0 < fsub maxc minc).
    { rewrite Emax, Emin in *. unfold channel, fdiv, fsub in *. now apply rnd_gap. }
    destruct (Qeq_bool maxc 0) eqn:E0.
    { apply Qeq_bool_eq in E0. exfalso. lra. }
    destruct (Qeq_bool (fsub maxc minc) 0) eqn:E1.
    { apply Qeq_bool_eq in E1. exfalso. lra. }
    do 3 eexists. split; [reflexivity|].
    pose proof (mod1_range
      (fdiv (if Qeq_bool (channel r) maxc
             then fsub (fdiv (fsub maxc (channel b)) (fsub maxc minc))
                       (fdiv (fsub maxc (channel g)) (fsub maxc minc))
             else if Qeq_bool (channel g) maxc
             then fsub (fadd 2 (fdiv (fsub maxc (channel r)) (fsub maxc minc)))
                       (fdiv (fsub maxc (channel b)) (fsub maxc minc))
             else fsub (fadd 4 (fdiv (fsub maxc (channel g)) (fsub maxc minc)))
                       (fdiv (fsub maxc (channel r)) (fsub maxc minc))) 6)) as [M1 M2].
    assert (Hq : 0 <= fsub maxc minc / maxc).
    { apply Qle_shift_div_l; [lra|]. rewrite Qmult_0_l. now apply Qlt_le_weak. }
    split; [exact M1|]. split; [exact M2|]. split; [|split].
    + unfold fdiv at 1. now apply rnd_nonneg.
    + unfold fdiv at 1. now apply rnd_idem.
    + exists kmax. split; [exact Hkmax|exact Emax].
Qed.

Lemma Qle_bool_gt (a b : Q) : Qle_bool a b = false -> b < a.
Proof. intros H. apply Qltb_lt. unfold Qltb. now rewrite H. Qed.

(** The literals lie above the decimals they are written as. *)
Lemma lit_0_1_above : 1 # 10 < lit_0_1.
Proof. now vm_compute. Qed.

Lemma lit_0_9_above : 9 # 10 < lit_0_9.
Proof. now vm_compute. Qed.

(** A test of a float against the literal [0.1] decides the comparison
    with one tenth. *)
Lemma below_tenth (x : Q) :
  representable x -> 0 <= x -> (Qltb x lit_0_1 = true <-> x < 1 # 10).
Proof.
  intros Hx H0. rewrite Qltb_lt. unfold lit_0_1. apply lt_literal; try assumption.
  apply Qlt_le_weak, lit_0_1_above.
Qed.

(** The channels that pass the tests of the gray branch. *)
Lemma channel_white (k : Z) :
  (0 <= k)%Z -> (Qltb lit_0_9 (channel k) = true <-> (230 <= k)%Z).
Proof.
  intros Hk. rewrite Qltb_lt. split; intros H.
  - destruct (Z_le_gt_dec 230 k) as [L|L]; [exact L|exfalso].
    assert (H1 : channel k <= channel 229) by (apply channel_mono; lia).
    assert (H2 : channel 229 < lit_0_9) by now vm_compute.
    lra.
  - assert (H1 : channel 230 <= channel k) by (apply channel_mono; lia).
    assert (H2 : lit_0_9 < channel 230) by now vm_compute.
    lra.
Qed.

Lemma channel_black (k : Z) :
  (0 <= k)%Z -> (Qltb (channel k) lit_0_1 = true <-> (k <= 25)%Z).
Proof.
  intros Hk. rewrite Qltb_lt. split; intros H.
  - destruct (Z_le_gt_dec k 25) as [L|L]; [exact L|exfalso].
    assert (H1 : channel 26 <= channel k) by (apply channel_mono; lia).
    assert (H2 : lit_0_1 < channel 26) by now vm_compute.
    lra.
  - assert (H1 : channel k <= channel 25) by (apply channel_mono; lia).
    assert (H2 : channel 25 < lit_0_1) by now vm_compute.
    lra.
Qed.

(** No channel lies between nine tenths and the literal [0.9]. *)
Lemma channel_above_0_9 (k : Z) :
  (0 <= k)%Z -> (Qltb lit_0_9 (channel k) = true <-> 9 # 10 < channel k).
Proof.
  intros Hk. rewrite (channel_white k Hk). split; intros H.
  - assert (H1 : channel 230 <= channel k) by (apply channel_mono; lia).
    assert (H2 : 9 # 10 < channel 230) by now vm_compute.
    lra.
  - destruct (Z_le_gt_dec 230 k) as [L|L]; [exact L|exfalso].
    assert (H1 : channel k <= channel 229) by (apply channel_mono; lia).
    assert (H2 : channel 229 < 9 # 10) by now vm_compute.
    lra.
Qed.

Ltac settle :=
  match goal with
  | |- _ \/ _ => (left; settle) || (right; settle)
  | |- _ /\ _ => split; settle
  | |- @eq string _ _ => reflexivity
  | |- _ => lra
  end.

Ltac split_tests :=
  repeat match goal with
  | |- context [Qltb ?a ?b] =>
      let E := fresh "E" in
      destruct (Qltb a b) eqn:E;
      [apply Qltb_lt in E|apply Qltb_ge in E]; simpl
  | |- context [Qle_bool ?a ?b] =>
      let E := fresh "E" in
      destruct (Qle_bool a b) eqn:E;
      [apply Qle_bool_iff in E|apply Qle_bool_gt in E]; simpl
  end.

(** Where the three tests against the literals decide the comparisons
    with the decimals, the name is the one the classification relates. *)
Lemma name_of_hsv_classified (h s v : Q) :
  (Qltb s lit_0_1 = true <-> s < 1 # 10) ->
  (Qltb lit_0_9 v = true <-> 9 # 10 < v) ->
  (Qltb v lit_0_1 = true <-> v < 1 # 10) ->
  classified h s v (name_of_hsv h s v).
Proof.
  intros Hs Hw Hb. unfold name_of_hsv, classified.
  destruct (Qltb s lit_0_1) eqn:E1.
  - left. split; [now apply Hs|].
    destruct (Qltb lit_0_9 v) eqn:E2.
    + left. split; [now apply Hw|reflexivity].
    + assert (N2 : v <= 9 # 10).
      { apply Qnot_lt_le. intros C. apply Hw in C. congruence. }
      destruct (Qltb v lit_0_1) eqn:E3.
      * right. left. split; [now apply Hb|reflexivity].
      * assert (N3 : 1 # 10 <= v).
        { apply Qnot_lt_le. intros C. apply Hb in C. congruence. }
        right. right. repeat split; assumption.
  - assert (N1 : 1 # 10 <= s).
    { apply Qnot_lt_le. intros C. apply Hs in C. congruence. }
    right. split; [exact N1|]. clear Hs Hw Hb E1.
    split_tests; settle.
Qed.

Lemma classified_unique (h s v : Q) (n1 n2 : string) :
  classified h s v n1 -> classified h s v n2 -> n1 = n2.
Proof.
  unfold classified. intros H1 H2.
  repeat match goal with
  | H : _ \/ _ |- _ => destruct H
  | H : _ /\ _ |- _ => destruct H
  end; subst; try reflexivity; exfalso; lra.
Qed.

Lemma name_of_hsv_in_names (h s v : Q) : In (name_of_hsv h s v) color_names.
Proof.
  unfold name_of_hsv, color_names.
  repeat match goal with
  | |- context [if ?c then _ else _] => destruct c
  end; simpl; tauto.
Qed.

(** The hues at which the name changes. *)
Lemma name_of_hsv_boundaries (s v : Q) :
  lit_0_1 <= s ->
  map (fun h => name_of_hsv h s v) [0; 15; 45; 75; 150; 210; 270; 330; 345]
  = ["Red"; "Orange"; "Yellow"; "Green"; "Cyan"; "Blue"; "Magenta"; "Red"; "Red"]%string.
Proof.
  intros Hs. unfold name_of_hsv.
  replace (Qltb s lit_0_1) with false by (symmetry; now apply Qltb_ge).
  reflexivity.
Qed.

Lemma hue_degrees (h : Q) : 0 <= h -> h <= 1 -> 0 <= fmul h 360 /\ fmul h 360 <= 360.
Proof.
  intros H0 H1. unfold fmul. split.
  - apply rnd_nonneg. lra.
  - apply (rnd_le _ 360); [apply (representable_Z 360); lia|discriminate|lra].
Qed.

(** C5. Every RGB triple with channels in 0..255 is given a name, one of
    the ten names. With the hue (in degrees, from 0 to 360), the saturation
    and the value that the conversion computes in binary floating point, the
    name is the one the classification of the specification relates to
    them: by value when the saturation is below 0.1, by the half-open hue
    ranges otherwise, Red from 330 on and below 15; and the classification
    relates no other name to them. *)
Theorem get_color_name_total (c : rgb) :
  valid_rgb c ->
  exists h s v name,
    (let '(r, g, b) := c in rgb_to_hsv (channel r) (channel g) (channel b))
      = Some (h, s, v)
    /\ get_color_name c = Some name
    /\ In name color_names
    /\ 0 <= fmul h 360 /\ fmul h 360 <= 360
    /\ classified (fmul h 360) s v name
    /\ (forall other, classified (fmul h 360) s v other -> other = name).
Proof.
  destruct c as [[r g] b]. intros Hvalid.
  destruct (rgb_to_hsv_total r g b Hvalid)
    as (h & s & v & Hhsv & Hlo & Hhi & Hs0 & Hsr & (k & Hk & ->)).
  exists h, s, (channel k), (name_of_hsv (fmul h 360) s (channel k)).
  unfold get_color_name. rewrite Hhsv.
  assert (Hc : classified (fmul h 360) s (channel k)
                 (name_of_hsv (fmul h 360) s (channel k))).
  { apply name_of_hsv_classified.
    - now apply below_tenth.
    - apply channel_above_0_9. lia.
    - apply below_tenth; [apply channel_representable|apply channel_nonneg]; lia. }
  destruct (hue_degrees h Hlo Hhi) as [D1 D2].
  repeat split; try assumption.
  - apply name_of_hsv_in_names.
  - intros other Hother. eapply classified_unique; [exact Hother|exact Hc].
Qed.

Lemma get_color_name_total_witness :
  exists h s v name,
    rgb_to_hsv (channel 255) (channel 0) (channel 100) = Some (h, s, v)
    /\ get_color_name (255, 0, 100)%Z = Some name
    /\ In name color_names
    /\ 0 <= fmul h 360 /\ fmul h 360 <= 360
    /\ classified (fmul h 360) s v name
    /\ (forall other, classified (fmul h 360) s v other -> other = name).
Proof.
  apply (get_color_name_total (255, 0, 100)%Z). simpl. lia.
Defined.

(** Colors on a boundary of the exact conversion fall where the rounded
    one puts them: the hue of (33, 9, 1) is 15 degrees in exact arithmetic
    and a little less in floats, the saturation of (100, 90, 90) is one
    tenth and a little less in floats. *)
Example name_below_orange :
  get_color_name (33, 9, 1)%Z = Some "Red"%string
  /\ get_color_name (33, 10, 1)%Z = Some "Orange"%string.
Proof. split; now vm_compute. Qed.

Example name_below_tenth :
  get_color_name (100, 90, 90)%Z = Some "Gray"%string
  /\ get_color_name (100, 89, 90)%Z = Some "Red"%string.
Proof. split; now vm_compute. Qed.

(** *** More on the dominant colors *)

Lemma all_equal_repeat (A : Type) (c : A) (l : list A) :
  (forall x, In x l -> x = c) -> l = repeat c (List.length l).
Proof.
  induction l as [|a l IH]; intros H; simpl; [reflexivity|].
  rewrite (H a (or_introl eq_refl)). f_equal. apply IH.
  intros x Hx. apply H. now right.
Qed.

Lemma slice_step_repeat (c : rgb) (n : nat) (step : Z) :
  (1 <= n)%nat -> step <> 0%Z ->
  exists m, slice_step (repeat c n) step = Some (repeat c (S m)).
Proof.
  intros Hn Hstep. unfold slice_step.
  replace (step =? 0)%Z with false by (symmetry; now apply Z.eqb_neq).
  rewrite rev_repeat.
  assert (H : forall q, exists m, every q 0 (repeat c n) = repeat c (S m)).
  { intros q. destruct n as [|n]; [lia|]. simpl.
    exists (List.length (every q (q - 1) (repeat c n))). f_equal.
    apply all_equal_repeat. intros x Hx. apply every_in in Hx.
    now apply repeat_spec in Hx. }
  destruct (0 <? step)%Z.
  - destruct (H (Z.to_nat step)) as [m ->]. now exists m.
  - destruct (H (Z.to_nat (- step))) as [m ->]. now exists m.
Qed.

(** X1. An image of one color has that color as its only dominant color,
    for every requested count of at least one and every stride but zero. *)
Theorem solid_image_single_color (c : rgb) (n : nat) (num_colors quality : Z) :
  (1 <= n)%nat -> (1 <= num_colors)%Z -> quality <> 0%Z ->
  get_dominant_colors (Some (repeat c n)) num_colors quality = Returned [c].
Proof.
  intros Hn Hk Hq. unfold get_dominant_colors.
  destruct (slice_step_repeat c n quality Hn Hq) as [m ->].
  rewrite (Counter.count_elements_repeat rgb_eqb rgb_eqb_eq).
  unfold Counter.most_common. simpl.
  destruct (Z.to_nat num_colors) eqn:E; [lia|]. simpl. now rewrite firstn_nil.
Qed.

Lemma solid_image_single_color_witness :
  get_dominant_colors (Some (repeat (12, 200, 7)%Z 100)) 5 1
  = Returned [(12, 200, 7)%Z].
Proof.
  apply (solid_image_single_color (12, 200, 7)%Z 100 5 1); lia.
Defined.

(** X2. The colors returned are pairwise different, and they are the most
    frequent ones: when a sampled color is left out, [num_colors] colors
    were returned and none of them occurs less often among the sampled
    pixels than the color left out. *)
Theorem dominant_colors_most_frequent (pixels : list rgb) (num_colors quality : Z) :
  (0 <= num_colors)%Z -> quality <> 0%Z ->
  exists sampled colors,
    slice_step pixels quality = Some sampled
    /\ get_dominant_colors (Some pixels) num_colors quality = Returned colors
    /\ NoDup colors
    /\ (forall c, In c sampled -> ~ In c colors ->
          Z.of_nat (List.length colors) = num_colors
          /\ forall d, In d colors ->
               (Counter.occurrences rgb_eqb c sampled
                <= Counter.occurrences rgb_eqb d sampled)%nat).
Proof.
  intros Hn Hq. destruct (slice_step_total rgb pixels quality Hq) as [s Hs].
  exists s, (map fst (Counter.most_common num_colors (Counter.count_elements rgb_eqb s))).
  unfold get_dominant_colors. rewrite Hs. split; [reflexivity|]. split; [reflexivity|].
  split.
  - apply (Counter.most_common_nodup rgb_eqb rgb_eqb_eq).
  - intros c Hc Hout.
    destruct (Counter.most_common_left_out rgb_eqb rgb_eqb_eq num_colors s c Hc Hout)
      as [Hle Hlen].
    split; [|exact Hle]. rewrite length_map, Hlen. lia.
Qed.

Lemma dominant_colors_most_frequent_witness :
  exists sampled colors,
    slice_step [(1, 2, 3); (9, 9, 9); (9, 9, 9); (0, 0, 0)]%Z 1 = Some sampled
    /\ get_dominant_colors (Some [(1, 2, 3); (9, 9, 9); (9, 9, 9); (0, 0, 0)]%Z) 2 1
       = Returned colors
    /\ NoDup colors
    /\ (forall c, In c sampled -> ~ In c colors ->
          Z.of_nat (List.length colors) = 2%Z
          /\ forall d, In d colors ->
               (Counter.occurrences rgb_eqb c sampled
                <= Counter.occurrences rgb_eqb d sampled)%nat).
Proof.
  apply (dominant_colors_most_frequent
           [(1, 2, 3); (9, 9, 9); (9, 9, 9); (0, 0, 0)]%Z 2 1); lia.
Defined.

(** *** Colors without hue *)

Lemma py_max_same (x : Q) : py_max x x = x.
Proof. unfold py_max. now destruct (Qltb x x). Qed.

Lemma py_min_same (x : Q) : py_min x x = x.
Proof. unfold py_min. now destruct (Qltb x x). Qed.

(** X3. A gray level (three equal channels) is named by its value alone:
    Black up to 25, White from 230, Gray in between. *)
Theorem gray_levels_named (v : Z) :
  (0 <= v <= 255)%Z ->
  get_color_name (v, v, v)
  = Some (if (v <=? 25)%Z then "Black"
          else if (230 <=? v)%Z then "White" else "Gray")%string.
Proof.
  intros Hv. unfold get_color_name, rgb_to_hsv.
  rewrite !py_max_same, !py_min_same.
  replace (Qeq_bool (channel v) (channel v)) with true
    by (symmetry; apply Qeq_bool_iff; reflexivity).
  replace (fmul 0 360) with 0 by reflexivity.
  unfold name_of_hsv.
  replace (Qltb 0 lit_0_1) with true by reflexivity.
  pose proof (channel_white v ltac:(lia)) as Hw.
  pose proof (channel_black v ltac:(lia)) as Hb.
  destruct (Qltb lit_0_9 (channel v)) eqn:E1.
  - assert (230 <= v)%Z by now apply Hw.
    replace (v <=? 25)%Z with false by (symmetry; apply Z.leb_gt; lia).
    replace (230 <=? v)%Z with true by (symmetry; apply Z.leb_le; lia).
    reflexivity.
  - assert (~ (230 <= v)%Z) by (intros C; apply Hw in C; congruence).
    replace (230 <=? v)%Z with false by (symmetry; apply Z.leb_gt; lia).
    destruct (Qltb (channel v) lit_0_1) eqn:E2.
    + assert (v <= 25)%Z by now apply Hb.
      replace (v <=? 25)%Z with true by (symmetry; apply Z.leb_le; lia).
      reflexivity.
    + assert (~ (v <= 25)%Z) by (intros C; apply Hb in C; congruence).
      replace (v <=? 25)%Z with false by (symmetry; apply Z.leb_gt; lia).
      reflexivity.
Qed.

Lemma gray_levels_named_witness :
  get_color_name (128, 128, 128)%Z = Some "Gray"%string.
Proof. apply (gray_levels_named 128). lia. Defined.

End Palette.

(** ** Regular expressions of Python's [re], matched by derivatives *)
Module Regex.

Inductive re : Type :=
| Void
| Eps
| Chr (c : ascii)
| Dot
| Cat (a b : re)
| Alt (a b : re)
| Star (a : re).

(** [r?], [r+] and a literal word. *)
Definition Opt (r : re) : re := Alt r Eps.
Definition Plus (r : re) : re := Cat r (Star r).

Fixpoint Lit (s : string) : re :=
  match s with
  | EmptyString => Eps
  | String c s' => Cat (Chr c) (Lit s')
  end.

(** The line feed, the one character [.] does not match. *)
Definition newline : ascii := "010"%char.

(** The words of a regular expression. *)
Inductive lang : re -> string -> Prop :=
| lang_eps : lang Eps ""
| lang_chr c : lang (Chr c) (String c "")
| lang_dot c : c <> newline -> lang Dot (String c "")
| lang_cat a b s t : lang a s -> lang b t -> lang (Cat a b) (s ++ t)
| lang_alt_l a b s : lang a s -> lang (Alt a b) s
| lang_alt_r a b s : lang b s -> lang (Alt a b) s
| lang_star_nil a : lang (Star a) ""
| lang_star_cons a c s t :
    lang a (String c s) -> lang (Star a) t -> lang (Star a) (String c s ++ t).

Fixpoint nullable (r : re) : bool :=
  match r with
  | Void | Chr _ | Dot => false
  | Eps | Star _ => true
  | Cat a b => nullable a && nullable b
  | Alt a b => nullable a || nullable b
  end.

Fixpoint deriv (c : ascii) (r : re) : re :=
  match r with
  | Void | Eps => Void
  | Chr c' => if Ascii.eqb c c' then Eps else Void
  | Dot => if Ascii.eqb c newline then Void else Eps
  | Cat a b =>
      if nullable a then Alt (Cat (deriv c a) b) (deriv c b)
      else Cat (deriv c a) b
  | Alt a b => Alt (deriv c a) (deriv c b)
  | Star a => Cat (deriv c a) (Star a)
  end.

(** [re.fullmatch]: the whole string is a word. *)
Fixpoint accepts (r : re) (s : string) : bool :=
  match s with
  | EmptyString => nullable r
  | String c s' => accepts (deriv c r) s'
  end.

(** [re.match] as a truth value: some prefix of the string is a word. *)
Fixpoint match_prefix (r : re) (s : string) : bool :=
  nullable r ||
  match s with
  | EmptyString => false
  | String c s' => match_prefix (deriv c r) s'
  end.

Lemma append_nil_r (s : string) : s ++ "" = s.
Proof. induction s as [|c s IH]; simpl; [reflexivity|now rewrite IH]. Qed.

Lemma append_assoc (s t u : string) : (s ++ t) ++ u = s ++ (t ++ u).
Proof. induction s as [|c s IH]; simpl; [reflexivity|now rewrite IH]. Qed.

Lemma append_eq_nil (s t : string) : s ++ t = "" -> s = "" /\ t = "".
Proof. destruct s; simpl; [auto|discriminate]. Qed.

Lemma lang_cat_inv (a b : re) (w : string) :
  lang (Cat a b) w -> exists u t, w = u ++ t /\ lang a u /\ lang b t.
Proof. intros H. inversion H; subst. eauto. Qed.

Lemma lang_star_inv (a : re) (w : string) :
  lang (Star a) w ->
  w = "" \/ exists c s t, w = String c s ++ t /\ lang a (String c s) /\ lang (Star a) t.
Proof. intros H. inversion H; subst; [now left|right; eauto 6]. Qed.

Lemma nullable_lang (r : re) : nullable r = true <-> lang r "".
Proof.
  induction r as [| | c | | a IHa b IHb | a IHa b IHb | a IHa]; simpl.
  - split; [discriminate|intros H; inversion H].
  - split; [constructor|reflexivity].
  - split; [discriminate|intros H; inversion H].
  - split; [discriminate|intros H; inversion H].
  - rewrite andb_true_iff, IHa, IHb. split.
    + intros [Ha Hb]. exact (lang_cat a b "" "" Ha Hb).
    + intros H. apply lang_cat_inv in H. destruct H as (u & t & Heq & Hu & Ht).
      symmetry in Heq. apply append_eq_nil in Heq. destruct Heq; subst. auto.
  - rewrite orb_true_iff, IHa, IHb. split.
    + intros [H|H]; [now apply lang_alt_l|now apply lang_alt_r].
    + intros H. inversion H; subst; auto.
  - split; [constructor|reflexivity].
Qed.

Lemma deriv_lang (r : re) (c : ascii) (s : string) :
  lang (deriv c r) s <-> lang r (String c s).
Proof.
  revert s. induction r as [| | c' | | a IHa b IHb | a IHa b IHb | a IHa];
    intros s; simpl.
  - split; intros H; inversion H.
  - split; intros H; inversion H.
  - destruct (Ascii.eqb_spec c c') as [->|Hne].
    + split; intros H; inversion H; subst; constructor.
    + split; intros H; inversion H; subst. congruence.
  - destruct (Ascii.eqb_spec c newline) as [->|Hne].
    + split; intros H; inversion H; subst. congruence.
    + split; intros H; inversion H; subst; now constructor.
  - assert (Hcat : lang (Cat (deriv c a) b) s
                   <-> exists s1 s2, s = s1 ++ s2 /\ lang a (String c s1) /\ lang b s2).
    { split.
      - intros H. inversion H; subst. do 2 eexists. split; [reflexivity|].
        split; [now apply IHa|assumption].
      - intros (s1 & s2 & -> & H1 & H2). constructor; [now apply IHa|assumption]. }
    assert (Hsplit : lang (Cat a b) (String c s)
                     <-> (lang a "" /\ lang b (String c s))
                         \/ exists s1 s2, s = s1 ++ s2 /\ lang a (String c s1) /\ lang b s2).
    { split.
      - intros H. apply lang_cat_inv in H. destruct H as (u & t & Heq & Hu & Ht).
        destruct u as [|c0 u]; simpl in Heq.
        + left. subst. auto.
        + right. inversion Heq; subst. eauto.
      - intros [[H1 H2]|(s1 & s2 & -> & H1 & H2)].
        + exact (lang_cat a b "" (String c s) H1 H2).
        + exact (lang_cat a b (String c s1) s2 H1 H2). }
    rewrite Hsplit. destruct (nullable a) eqn:En.
    + split.
      * intros H. inversion H; subst.
        -- right. now apply Hcat.
        -- left. split; [now apply nullable_lang|now apply IHb].
      * intros [[H1 H2]|H].
        -- apply lang_alt_r. now apply IHb.
        -- apply lang_alt_l. now apply Hcat.
    + rewrite Hcat. split; [auto|]. intros [[H1 _]|H]; [|exact H].
      apply nullable_lang in H1. congruence.
  - split.
    + intros H. inversion H; subst.
      * apply lang_alt_l. now apply IHa.
      * apply lang_alt_r. now apply IHb.
    + intros H. inversion H; subst.
      * apply lang_alt_l. now apply IHa.
      * apply lang_alt_r. now apply IHb.
  - split.
    + intros H. inversion H; subst.
      match goal with H1 : lang (deriv c a) _ |- _ => apply IHa in H1 end.
      now apply (lang_star_cons a c).
    + intros H. apply lang_star_inv in H.
      destruct H as [H|(c' & u & t & Heq & Hu & Ht)]; [discriminate|].
      simpl in Heq. inversion Heq; subst.
      constructor; [now apply IHa|assumption].
Qed.

Lemma accepts_lang (r : re) (s : string) : accepts r s = true <-> lang r s.
Proof.
  revert r. induction s as [|c s IH]; intros r; simpl.
  - apply nullable_lang.
  - rewrite IH. apply deriv_lang.
Qed.

(** [re.match] succeeds exactly when the string starts with a word. *)
Lemma match_prefix_lang (r : re) (s : string) :
  match_prefix r s = true <-> exists p rest, s = p ++ rest /\ lang r p.
Proof.
  revert r. induction s as [|c s IH]; intros r; simpl.
  - rewrite orb_false_r, nullable_lang. split.
    + intros H. exists "", "". auto.
    + intros (p & rest & Heq & H). symmetry in Heq.
      apply append_eq_nil in Heq. destruct Heq; subst. exact H.
  - rewrite orb_true_iff, nullable_lang, IH. split.
    + intros [H|(p & rest & -> & H)].
      * exists "", (String c s). auto.
      * exists (String c p), rest. split; [reflexivity|now apply deriv_lang].
    + intros (p & rest & Heq & H). destruct p as [|c' p]; simpl in *.
      * now left.
      * right. inversion Heq; subst. exists p, rest.
        split; [reflexivity|now apply deriv_lang].
Qed.

(** *** Words of the expressions used by the analyzer *)

Lemma lang_chr_inv (c : ascii) (w : string) : lang (Chr c) w <-> w = String c "".
Proof. split; [intros H; now inversion H|intros ->; constructor]. Qed.

Lemma lang_eps_inv (w : string) : lang Eps w <-> w = "".
Proof. split; [intros H; now inversion H|intros ->; constructor]. Qed.

Lemma lang_alt_inv (a b : re) (w : string) : lang (Alt a b) w <-> lang a w \/ lang b w.
Proof.
  split.
  - intros H. inversion H; subst; auto.
  - intros [H|H]; [now apply lang_alt_l|now apply lang_alt_r].
Qed.

Lemma lang_cat_iff (a b : re) (w : string) :
  lang (Cat a b) w <-> exists u t, w = u ++ t /\ lang a u /\ lang b t.
Proof.
  split; [apply lang_cat_inv|]. intros (u & t & -> & Hu & Ht). now constructor.
Qed.

Lemma lang_lit (t w : string) : lang (Lit t) w <-> w = t.
Proof.
  revert w. induction t as [|c t IH]; intros w; simpl.
  - apply lang_eps_inv.
  - rewrite lang_cat_iff. split.
    + intros (u & v & -> & Hu & Hv). apply lang_chr_inv in Hu. apply IH in Hv.
      now subst.
    + intros ->. exists (String c ""), t. split; [reflexivity|].
      split; [constructor|now apply IH].
Qed.

Lemma lang_star_dot (w : string) :
  lang (Star Dot) w <-> PyStr.contains newline w = false.
Proof.
  induction w as [|c w IH]; simpl.
  - split; [reflexivity|constructor].
  - rewrite orb_false_iff, <- IH. split.
    + intros H. apply lang_star_inv in H.
      destruct H as [H|(c' & u & t & Heq & Hu & Ht)]; [discriminate|].
      inversion Hu; subst. simpl in Heq. inversion Heq; subst.
      split; [|exact Ht]. now apply Ascii.eqb_neq.
    + intros [Hc Hw]. apply Ascii.eqb_neq in Hc.
      exact (lang_star_cons Dot c "" w (lang_dot c Hc) Hw).
Qed.

Lemma lang_plus_dot (w : string) :
  lang (Plus Dot) w <-> w <> "" /\ PyStr.contains newline w = false.
Proof.
  unfold Plus. rewrite lang_cat_iff. split.
  - intros (u & t & -> & Hu & Ht). inversion Hu; subst. simpl.
    split; [discriminate|]. apply orb_false_iff. split.
    + now apply Ascii.eqb_neq.
    + now apply lang_star_dot.
  - intros [Hne Hw]. destruct w as [|c w]; [congruence|].
    simpl in Hw. apply orb_false_iff in Hw. destruct Hw as [Hc Hw].
    exists (String c ""), w. split; [reflexivity|]. split.
    + constructor. now apply Ascii.eqb_neq.
    + now apply lang_star_dot.
Qed.

End Regex.

(** ** Conversions of numbers to text *)
Module PyFormat.

Import PyNum.

(** [str(z)] of an integer. *)
Definition str_Z (z : Z) : string := NilZero.string_of_int (Z.to_int z).

Definition str_nat (n : nat) : string := str_Z (Z.of_nat n).

(** A comma before every group of three digits but the first. *)
Fixpoint group3 (digits : string) : string :=
  match digits with
  | EmptyString => EmptyString
  | String c rest =>
      String c
        (match rest with
         | EmptyString => EmptyString
         | _ => if Nat.eqb (Nat.modulo (String.length rest) 3) 0
                then String "," (group3 rest) else group3 rest
         end)
  end.

(** The formats [{z:,}] and [{z:+,}] of an integer. *)
Definition fmt_comma (z : Z) : string :=
  ((if (z <? 0)%Z then "-" else "") ++ group3 (str_Z (Z.abs z)))%string.

Definition fmt_plus_comma (z : Z) : string :=
  ((if (z <? 0)%Z then "-" else "+") ++ group3 (str_Z (Z.abs z)))%string.

(** The format [{x:.1f}]. *)
Definition fmt_1f (x : Q) : string :=
  let n := Z.abs (round_half_even (x * 10)) in
  ((if Qltb x 0 then "-" else "") ++ str_Z (n / 10) ++ "." ++ str_Z (n mod 10))%string.

(** [str(x)] of a float that [round(_, 2)] returned, of magnitude below
    1e16: one decimal at least, two when the second is not zero. *)
Definition str_round2 (x : Q) : string :=
  let n := Z.abs (round_half_even (x * 100)) in
  let cents := (n mod 100)%Z in
  ((if Qltb x 0 then "-" else "") ++ str_Z (n / 100) ++ "."
   ++ str_Z (cents / 10)
   ++ (if (cents mod 10 =? 0)%Z then "" else str_Z (cents mod 10)))%string.

Example str_Z_zero : str_Z 0 = "0".
Proof. reflexivity. Qed.

Example str_Z_negative : str_Z (-42) = "-42".
Proof. reflexivity. Qed.

Example fmt_comma_millions : fmt_comma 1234567 = "1,234,567".
Proof. reflexivity. Qed.

Example fmt_comma_small : fmt_comma 999 = "999".
Proof. reflexivity. Qed.

Example fmt_plus_comma_negative : fmt_plus_comma (-12345) = "-12,345".
Proof. reflexivity. Qed.

Example fmt_plus_comma_zero : fmt_plus_comma 0 = "+0".
Proof. reflexivity. Qed.

Example fmt_1f_two_thirds : fmt_1f (200 # 3) = "66.7".
Proof. reflexivity. Qed.

Example fmt_1f_whole : fmt_1f 5 = "5.0".
Proof. reflexivity. Qed.

Example str_round2_whole : str_round2 40 = "40.0".
Proof. reflexivity. Qed.

Example str_round2_cents : str_round2 (1205 # 100) = "12.05".
Proof. reflexivity. Qed.

Example str_round2_tenths : str_round2 (123 # 10) = "12.3".
Proof. reflexivity. Qed.

End PyFormat.

(** ** git_commit_analyzer.py *)
Module Analyzer.

Import PyStr PyNum.

(** Exceptions that reach the top of the script, and results of functions
    that may raise. *)
Inductive exn : Type := ValueError | ZeroDivisionError | OSError.

Inductive result (A : Type) : Type :=
| Ok (a : A)
| Raise (e : exn).

Arguments Ok {A} a.
Arguments Raise {A} e.

Definition bind {A B : Type} (m : result A) (f : A -> result B) : result B :=
  match m with
  | Ok a => f a
  | Raise e => Raise e
  end.

Notation "x <- m ;; k" := (bind m (fun x => k))
  (at level 61, m at next level, right associativity).

(** What [subprocess.run(..., check=True)] does: the command ends with
    status zero and its output, or with another status, which raises
    [CalledProcessError] (with text [e]), or it cannot be started at all. *)
Inductive process : Type :=
| Completed (stdout : string)
| CalledProcessError (e : string)
| NotStarted.

(** [run_git_command]: the lines printed and the value returned. Only
    [CalledProcessError] is caught. *)
Definition run_git_command (p : process) : list string * result string :=
  match p with
  | Completed stdout => ([], Ok stdout)
  | CalledProcessError e => (["Error running git command: " ++ e], Ok "")
  | NotStarted => ([], Raise OSError)
  end.

Record FileChange : Type := {
  file_name : string;
  file_additions : Z;
  file_deletions : Z
}.

(** A JSON document. Integers and floats are both numbers. *)
#[warnings="-register-all"]
Inductive json : Type :=
| JNull
| JNum (x : Q)
| JStr (s : string)
| JObj (members : list (string * json)).

Section WithDatetime.

#[local] Set Default Proof Using "Type".

(** The [datetime] library is outside the script: the type of time stamps,
    [datetime.fromisoformat] ([None] for its [ValueError]), the [hour]
    attribute and the formats [%A] and [%Y-%m-%d] of [strftime]. *)
Variable datetime : Type.
Variable fromisoformat : string -> option datetime.
Variable hour : datetime -> Z.
Variable weekday : datetime -> string.
Variable isodate : datetime -> string.

Record Commit : Type := {
  hash : string;
  author : string;
  date : datetime;
  message : string;
  files : list FileChange;
  additions : Z;
  deletions : Z
}.

(** The state of a [GitCommitAnalyzer]. *)
Record GitCommitAnalyzer : Type := {
  repo_path : string;
  days : Z;
  author_filter : option string;
  commits : list Commit
}.

Definition init (path : string) (d : Z) (a : option string) : GitCommitAnalyzer :=
  {| repo_path := path; days := d; author_filter := a; commits := [] |}.

(** *** fetch_commits *)

(** The commit opened by a metadata line. *)
Definition new_commit (h a : string) (d : datetime) (m : string) : Commit :=
  {| hash := h; author := a; date := d; message := m;
     files := []; additions := 0; deletions := 0 |}.

(** The three updates of the current commit made for a stat line. *)
Definition add_file (c : Commit) (filename : string) (add delete : Z) : Commit :=
  {| hash := hash c; author := author c; date := date c; message := message c;
     files := (files c ++ [{| file_name := filename; file_additions := add;
                              file_deletions := delete |}])%list;
     additions := additions c + add;
     deletions := deletions c + delete |}.

(** [int(field) if field != '-' else 0]. *)
Definition stat_value (field : string) : option Z :=
  if String.eqb field "-" then Some 0 else int field.

(** The test that opens a new commit. *)
Definition is_commit_line (line : string) : bool :=
  contains "|" line && Nat.eqb (List.length (split "|" line)) 4.

Definition tab : ascii := "009"%char.
Definition line_feed : ascii := "010"%char.

(** The loop state: the commits appended so far and [current_commit]. *)
Definition parser_state : Type := (list Commit * option Commit)%type.

Definition flush (st : parser_state) : list Commit :=
  match snd st with
  | Some c => (fst st ++ [c])%list
  | None => fst st
  end.

(** One iteration of the loop over the lines of the log. *)
Definition parse_line (st : parser_state) (line : string) : result parser_state :=
  if is_commit_line line then
    match split "|" line with
    | [hash_val; author_name; date_text; subject] =>
        match fromisoformat (replace_space_plus date_text) with
        | Some d => Ok (flush st, Some (new_commit hash_val author_name d subject))
        | None => Raise ValueError
        end
    | _ => Ok st
    end
  else if truthy (strip line) then
    match snd st with
    | Some current =>
        match split tab line with
        | [adds; dels; filename] =>
            match stat_value adds, stat_value dels with
            | Some add, Some delete =>
                Ok (fst st, Some (add_file current filename add delete))
            | _, _ => Ok st
            end
        | _ => Ok st
        end
    | None => Ok st
    end
  else Ok st.

Fixpoint parse_lines (st : parser_state) (lines : list string) : result parser_state :=
  match lines with
  | [] => Ok st
  | line :: rest => st' <- parse_line st line ;; parse_lines st' rest
  end.

(** The commits parsed from the output of the log command. *)
Definition parse_log (output : string) : result (list Commit) :=
  st <- parse_lines ([], None) (split line_feed output) ;; Ok (flush st).

(** [fetch_commits]: [git] is what running the log command does. The
    lines printed come with the new state. *)
Definition fetch_commits (self : GitCommitAnalyzer) (git : process)
  : list string * result GitCommitAnalyzer :=
  let '(out, output) := run_git_command git in
  (out,
   text <- output ;;
   parsed <- parse_log text ;;
   Ok {| repo_path := repo_path self; days := days self;
         author_filter := author_filter self;
         commits := (commits self ++ parsed)%list |}).

(** *** Helpers for the aggregates *)

Local Open Scope Q_scope.
Local Open Scope string_scope.

(** Rounding is kept folded in the proofs about the analyses. *)
#[local] Opaque rnd.

Definition of_nat (n : nat) : Q := inject_Z (Z.of_nat n).

(** [a / b]: true division raises [ZeroDivisionError] on a zero divisor and
    returns the float nearest to the quotient otherwise. *)
Definition div (a b : Q) : result Q :=
  if Qeq_bool b 0 then Raise ZeroDivisionError else Ok (fdiv a b).

(** [dict(sorted(d.items()))] for a dictionary: increasing keys. *)
Fixpoint insert_key {K V : Type} (leb : K -> K -> bool) (x : K * V)
    (l : list (K * V)) : list (K * V) :=
  match l with
  | [] => [x]
  | y :: l' => if leb (fst x) (fst y) then x :: y :: l' else y :: insert_key leb x l'
  end.

Definition sorted_items {K V : Type} (leb : K -> K -> bool) (l : list (K * V))
  : list (K * V) :=
  fold_right (insert_key leb) [] l.

(** [d[k] += 1] for a key the dictionary has. *)
Fixpoint bump (k : string) (d : list (string * nat)) : list (string * nat) :=
  match d with
  | [] => []
  | (k', n) :: d' => if String.eqb k k' then (k', S n) :: d' else (k', n) :: bump k d'
  end.

Fixpoint lookup {V : Type} (k : string) (d : list (string * V)) : option V :=
  match d with
  | [] => None
  | (k', v) :: d' => if String.eqb k k' then Some v else lookup k d'
  end.

(** *** analyze_commit_frequency *)

Record Frequency : Type := {
  by_hour : list (Z * nat);
  by_day : list (string * nat);
  by_date : list (string * nat)
}.

Definition analyze_commit_frequency (self : GitCommitAnalyzer) : Frequency :=
  let hours := Counter.count_elements Z.eqb (map (fun c => hour (date c)) (commits self)) in
  let weekdays :=
    Counter.count_elements String.eqb (map (fun c => weekday (date c)) (commits self)) in
  let dates :=
    Counter.count_elements String.eqb (map (fun c => isodate (date c)) (commits self)) in
  {| by_hour := sorted_items Z.leb hours;
     by_day := weekdays;
     by_date := sorted_items String.leb dates |}.

(** *** analyze_commit_messages *)

Definition commit_type_tags : list string :=
  ["feat"; "fix"; "docs"; "style"; "refactor"; "test"; "chore"].

(** The pattern [^(feat|fix|docs|style|refactor|test|chore)(\(.+\))?:]:
    its first group, and what follows the group. *)
Definition type_group : Regex.re :=
  fold_right (fun tag r => Regex.Alt (Regex.Lit tag) r) Regex.Void commit_type_tags.

Definition scope_group : Regex.re :=
  Regex.Cat (Regex.Chr "(") (Regex.Cat (Regex.Plus Regex.Dot) (Regex.Chr ")")).

Definition after_type : Regex.re :=
  Regex.Cat (Regex.Opt scope_group) (Regex.Chr ":").

Definition conventional_pattern : Regex.re := Regex.Cat type_group after_type.

(** [re.match(pattern, msg)] with [match.group(1)] when it succeeds: the
    alternatives of the group are tried in order and the first one that lets
    the rest of the pattern match is taken. *)
Definition match_type (msg : string) : option string :=
  find (fun tag => Regex.match_prefix (Regex.Cat (Regex.Lit tag) after_type) msg)
       commit_type_tags.

Record MessageAnalysis : Type := {
  total_commits : nat;
  avg_message_length : Q;
  conventional_commits : nat;
  conventional_percentage : Q;
  commit_types : list (string * nat)
}.

(** The loop over the commits: message lengths, the number of conventional
    messages and the count per type. *)
Definition message_state : Type := (list nat * nat * list (string * nat))%type.

Definition message_step (st : message_state) (c : Commit) : message_state :=
  let '(message_lengths, conventional, patterns) := st in
  let lengths := (message_lengths ++ [String.length (message c)])%list in
  match match_type (message c) with
  | Some commit_type => (lengths, S conventional, bump commit_type patterns)
  | None => (lengths, conventional, patterns)
  end.

Definition message_loop (cs : list Commit) : message_state :=
  fold_left message_step cs ([], O, map (fun tag => (tag, O)) commit_type_tags).

Definition analyze_commit_messages (self : GitCommitAnalyzer)
  : result MessageAnalysis :=
  let '(message_lengths, conventional, patterns) := message_loop (commits self) in
  let n := List.length (commits self) in
  avg <- match message_lengths with
         | [] => Ok 0
         | _ => div (of_nat (fold_right Nat.add O message_lengths))
                    (of_nat (List.length message_lengths))
         end ;;
  percentage <- match commits self with
                | [] => Ok 0
                | _ => share <- div (of_nat conventional) (of_nat n) ;; Ok (fmul share 100)
                end ;;
  Ok {| total_commits := n;
        avg_message_length := avg;
        conventional_commits := conventional;
        conventional_percentage := percentage;
        commit_types := patterns |}.

(** *** analyze_file_changes *)

(** [Path(filename).name] on a POSIX system: the last component of the
    path, empty components and [.] components being dropped. *)
Definition path_name (filename : string) : string :=
  last (filter (fun part => negb (String.eqb part "" || String.eqb part "."))
               (split "/" filename)) "".

(** The place of the last [.] of a name and the text from there on. *)
Fixpoint rfind_dot (s : string) : option (nat * string) :=
  match s with
  | EmptyString => None
  | String c s' =>
      match rfind_dot s' with
      | Some (i, rest) => Some (S i, rest)
      | None => if Ascii.eqb c "." then Some (O, s) else None
      end
  end.

(** [Path(filename).suffix] (pathlib of Python 3.4 to 3.12): the text from
    the last dot of the name on, when that dot is neither its first nor its
    last character. *)
Definition suffix (filename : string) : string :=
  let name := path_name filename in
  match rfind_dot name with
  | Some (i, rest) =>
      if Nat.ltb 0 i && Nat.ltb i (String.length name - 1) then rest else ""
  | None => ""
  end.

Record FileAnalysis : Type := {
  total_additions : Z;
  total_deletions : Z;
  net_lines : Z;
  avg_additions_per_commit : Q;
  avg_deletions_per_commit : Q;
  file_extensions : list (string * nat);
  most_changed_files : list (string * nat)
}.

(** The loop state: both totals, [file_extensions], [most_changed_files]. *)
Definition file_state : Type :=
  (Z * Z * list (string * nat) * list (string * nat))%type.

Definition count_file (st : file_state) (f : FileChange) : file_state :=
  let '(adds, dels, exts, changed) := st in
  let changed' := Counter.incr String.eqb (file_name f) changed in
  let ext := suffix (file_name f) in
  if truthy ext then (adds, dels, Counter.incr String.eqb ext exts, changed')
  else (adds, dels, exts, changed').

Definition file_step (st : file_state) (c : Commit) : file_state :=
  let '(adds, dels, exts, changed) := st in
  fold_left count_file (files c) ((adds + additions c)%Z, (dels + deletions c)%Z, exts, changed).

Definition file_loop (cs : list Commit) : file_state :=
  fold_left file_step cs (0%Z, 0%Z, [], []).

Definition analyze_file_changes (self : GitCommitAnalyzer) : result FileAnalysis :=
  let '(adds, dels, exts, changed) := file_loop (commits self) in
  let n := List.length (commits self) in
  avg_add <- match commits self with
             | [] => Ok 0
             | _ => div (inject_Z adds) (of_nat n)
             end ;;
  avg_del <- match commits self with
             | [] => Ok 0
             | _ => div (inject_Z dels) (of_nat n)
             end ;;
  Ok {| total_additions := adds;
        total_deletions := dels;
        net_lines := (adds - dels)%Z;
        avg_additions_per_commit := avg_add;
        avg_deletions_per_commit := avg_del;
        file_extensions := Counter.most_common 10%Z exts;
        most_changed_files := Counter.most_common 10%Z changed |}.

(** *** analyze_authors *)

Record AuthorStats : Type := {
  stat_commits : nat;
  stat_additions : Z;
  stat_deletions : Z
}.

(** [author_stats[author]] updated for one commit; a new author starts
    from zeros and goes last. *)
Fixpoint credit (a : string) (add del : Z) (d : list (string * AuthorStats))
  : list (string * AuthorStats) :=
  match d with
  | [] => [(a, {| stat_commits := 1%nat; stat_additions := add; stat_deletions := del |})]
  | (a', s) :: d' =>
      if String.eqb a a' then
        (a', {| stat_commits := S (stat_commits s);
                stat_additions := (stat_additions s + add)%Z;
                stat_deletions := (stat_deletions s + del)%Z |}) :: d'
      else (a', s) :: credit a add del d'
  end.

Record AuthorAnalysis : Type := {
  total_authors : nat;
  author_commits : list (string * nat);
  author_stats : list (string * AuthorStats)
}.

Definition analyze_authors (self : GitCommitAnalyzer) : AuthorAnalysis :=
  let authors := Counter.count_elements String.eqb (map author (commits self)) in
  let stats :=
    fold_left (fun d c => credit (author c) (additions c) (deletions c) d)
              (commits self) [] in
  {| total_authors := List.length authors;
     author_commits := Counter.most_common_all authors;
     author_stats := stats |}.

(** *** get_productivity_score *)

(** The float literal [0.3]. *)
Definition lit_0_3 : Q := rnd (3 # 10).

Definition get_productivity_score (self : GitCommitAnalyzer) : result Q :=
  match commits self with
  | [] => Ok 0
  | _ =>
      per_day <- div (of_nat (List.length (commits self))) (inject_Z (days self)) ;;
      let commit_score := py_min (fmul per_day 10) 40 in
      msg_analysis <- analyze_commit_messages self ;;
      let message_score := fmul (conventional_percentage msg_analysis) lit_0_3 in
      file_analysis <- analyze_file_changes self ;;
      let change_score := py_min (fdiv (avg_additions_per_commit file_analysis) 10) 30 in
      Ok (round2 (fadd (fadd commit_score message_score) change_score))
  end.

(** *** generate_report *)

(** [Path.absolute] of the repository path and [datetime.now().isoformat()]
    depend on the process and the clock. *)
Variable absolute : string -> string.
Variable now_isoformat : string.

Definition nl : string := String line_feed "".

(** The box-drawing frame, the rules and the pictographs of the report are
    decoration; they are written here in ASCII. *)
Definition banner : string :=
  "+==============================================================+" ++ nl ++
  "|           GIT COMMIT ANALYSIS REPORT                         |" ++ nl ++
  "+==============================================================+" ++ nl.

Definition rule : string :=
  "--------------------------------------------------------------" ++ nl.

(** [max(d.items(), key=lambda x: x[1])]: the first entry of greatest
    count; [ValueError] on an empty dictionary. *)
Fixpoint max_count {K : Type} (best : K * nat) (l : list (K * nat)) : K * nat :=
  match l with
  | [] => best
  | x :: l' => max_count (if Nat.ltb (snd best) (snd x) then x else best) l'
  end.

Definition max_item {K : Type} (l : list (K * nat)) : result (K * nat) :=
  match l with
  | [] => Raise ValueError
  | x :: l' => Ok (max_count x l')
  end.

Definition no_commits_message : string :=
  "No commits found in the specified time range.".

Definition author_line (stats : list (string * AuthorStats)) (entry : string * nat)
  : string :=
  let '(name, count) := entry in
  match lookup name stats with
  | Some s =>
      "  * " ++ name ++ ": " ++ PyFormat.str_nat count ++ " commits (+"
      ++ PyFormat.str_Z (stat_additions s) ++ " -"
      ++ PyFormat.str_Z (stat_deletions s) ++ ")" ++ nl
  | None => ""
  end.

Definition type_line (entry : string * nat) : string :=
  let '(commit_type, count) := entry in
  if Nat.ltb 0 count
  then "    " ++ commit_type ++ ": " ++ PyFormat.str_nat count ++ nl
  else "".

(** [ext or '(no extension)']. *)
Definition extension_label (ext : string) : string :=
  if truthy ext then ext else "(no extension)".

Definition extension_line (entry : string * nat) : string :=
  let '(ext, count) := entry in
  "    " ++ extension_label ext ++ ": " ++ PyFormat.str_nat count ++ " files" ++ nl.

Definition changed_line (entry : string * nat) : string :=
  let '(filename, count) := entry in
  "    " ++ filename ++ ": " ++ PyFormat.str_nat count ++ " changes" ++ nl.

Definition lines_of {A : Type} (f : A -> string) (l : list A) : string :=
  String.concat "" (map f l).

(** The line of the report that shows the share of conventional messages. *)
Definition conventional_line (messages : MessageAnalysis) : string :=
  "  Conventional Commits: " ++ PyFormat.str_nat (conventional_commits messages)
  ++ "/" ++ PyFormat.str_nat (total_commits messages)
  ++ " (" ++ PyFormat.fmt_1f (conventional_percentage messages) ++ "%)" ++ nl.

Definition generate_report (self : GitCommitAnalyzer) : result string :=
  match commits self with
  | [] => Ok no_commits_message
  | _ =>
      let frequency := analyze_commit_frequency self in
      messages <- analyze_commit_messages self ;;
      files <- analyze_file_changes self ;;
      let authors := analyze_authors self in
      productivity <- get_productivity_score self ;;
      most_productive_hour <- max_item (by_hour frequency) ;;
      most_productive_day <- max_item (by_day frequency) ;;
      Ok (nl ++ banner ++ nl
          ++ "OVERVIEW" ++ nl ++ rule
          ++ "  Repository: " ++ absolute (repo_path self) ++ nl
          ++ "  Analysis Period: Last " ++ PyFormat.str_Z (days self) ++ " days" ++ nl
          ++ "  Total Commits: " ++ PyFormat.str_nat (total_commits messages) ++ nl
          ++ "  Productivity Score: " ++ PyFormat.str_round2 productivity ++ "/100" ++ nl
          ++ nl
          ++ "AUTHOR STATISTICS" ++ nl ++ rule
          ++ "  Total Authors: " ++ PyFormat.str_nat (total_authors authors) ++ nl
          ++ lines_of (author_line (author_stats authors))
               (firstn 5 (author_commits authors))
          ++ nl
          ++ "COMMIT PATTERNS" ++ nl ++ rule
          ++ "  Most Productive Hour: " ++ PyFormat.str_Z (fst most_productive_hour)
          ++ ":00 (" ++ PyFormat.str_nat (snd most_productive_hour) ++ " commits)" ++ nl
          ++ "  Most Productive Day: " ++ fst most_productive_day
          ++ " (" ++ PyFormat.str_nat (snd most_productive_day) ++ " commits)" ++ nl
          ++ nl
          ++ "COMMIT MESSAGE QUALITY" ++ nl ++ rule
          ++ "  Average Message Length: "
          ++ PyFormat.fmt_1f (avg_message_length messages) ++ " characters" ++ nl
          ++ conventional_line messages
          ++ "  " ++ nl
          ++ "  Commit Type Breakdown:" ++ nl
          ++ lines_of type_line (commit_types messages)
          ++ nl
          ++ "FILE CHANGES" ++ nl ++ rule
          ++ "  Total Lines Added: " ++ PyFormat.fmt_comma (total_additions files) ++ nl
          ++ "  Total Lines Deleted: " ++ PyFormat.fmt_comma (total_deletions files) ++ nl
          ++ "  Net Change: " ++ PyFormat.fmt_plus_comma (net_lines files) ++ nl
          ++ "  Avg Changes per Commit: +"
          ++ PyFormat.fmt_1f (avg_additions_per_commit files) ++ " -"
          ++ PyFormat.fmt_1f (avg_deletions_per_commit files) ++ nl
          ++ nl
          ++ "  Top File Types:" ++ nl
          ++ lines_of extension_line (firstn 5 (file_extensions files))
          ++ nl
          ++ "  Most Changed Files:" ++ nl
          ++ lines_of changed_line (firstn 5 (most_changed_files files))
          ++ nl ++ rule)
  end.

(** *** export_json *)

Definition counts_json {K : Type} (key : K -> string) (d : list (K * nat)) : json :=
  JObj (map (fun kv => (key (fst kv), JNum (of_nat (snd kv)))) d).

Definition frequency_json (f : Frequency) : json :=
  JObj [("by_hour", counts_json PyFormat.str_Z (by_hour f));
        ("by_day", counts_json (fun k => k) (by_day f));
        ("by_date", counts_json (fun k => k) (by_date f))].

Definition messages_json (m : MessageAnalysis) : json :=
  JObj [("total_commits", JNum (of_nat (total_commits m)));
        ("avg_message_length", JNum (avg_message_length m));
        ("conventional_commits", JNum (of_nat (conventional_commits m)));
        ("conventional_percentage", JNum (conventional_percentage m));
        ("commit_types", counts_json (fun k => k) (commit_types m))].

Definition files_json (f : FileAnalysis) : json :=
  JObj [("total_additions", JNum (inject_Z (total_additions f)));
        ("total_deletions", JNum (inject_Z (total_deletions f)));
        ("net_lines", JNum (inject_Z (net_lines f)));
        ("avg_additions_per_commit", JNum (avg_additions_per_commit f));
        ("avg_deletions_per_commit", JNum (avg_deletions_per_commit f));
        ("file_extensions", counts_json (fun k => k) (file_extensions f));
        ("most_changed_files", counts_json (fun k => k) (most_changed_files f))].

Definition author_stats_json (s : AuthorStats) : json :=
  JObj [("commits", JNum (of_nat (stat_commits s)));
        ("additions", JNum (inject_Z (stat_additions s)));
        ("deletions", JNum (inject_Z (stat_deletions s)))].

Definition authors_json (a : AuthorAnalysis) : json :=
  JObj [("total_authors", JNum (of_nat (total_authors a)));
        ("author_commits", counts_json (fun k => k) (author_commits a));
        ("author_stats",
         JObj (map (fun kv => (fst kv, author_stats_json (snd kv))) (author_stats a)))].

(** The dictionary [data] that [export_json] builds, as the JSON document
    [json.dump] writes for it. *)
Definition export_data (self : GitCommitAnalyzer) : result json :=
  messages <- analyze_commit_messages self ;;
  files <- analyze_file_changes self ;;
  score <- get_productivity_score self ;;
  Ok (JObj
        [("metadata",
          JObj [("repo_path", JStr (absolute (repo_path self)));
                ("analysis_date", JStr now_isoformat);
                ("days_analyzed", JNum (inject_Z (days self)));
                ("author_filter",
                 match author_filter self with Some a => JStr a | None => JNull end)]);
         ("frequency", frequency_json (analyze_commit_frequency self));
         ("messages", messages_json messages);
         ("files", files_json files);
         ("authors", authors_json (analyze_authors self));
         ("productivity_score", JNum score)]).

(** [export_json]: the file written and the line printed. [writable] tells
    whether [open(output_file, 'w')] succeeds. *)
Definition export_json (self : GitCommitAnalyzer) (output_file : string)
    (writable : bool) : result ((string * json) * string) :=
  data <- export_data self ;;
  if writable
  then Ok ((output_file, data), "Analysis exported to " ++ output_file)
  else Raise OSError.

(** *** main *)

Record Args : Type := {
  arg_repo_path : string;
  arg_days : Z;
  arg_author : option string;
  arg_export : option string
}.

(** What the run meets outside the script: whether [.git] exists under the
    path, what the log command does, whether the export file can be opened. *)
Record World : Type := {
  has_git_dir : bool;
  git : process;
  writable : bool
}.

(** What can be seen of a run: the lines printed, the file written, an
    exception that was not caught, and the exit code of the process. *)
Record Outcome : Type := {
  printed : list string;
  written : option (string * json);
  uncaught : option exn;
  exit_code : Z
}.

Definition crashed (out : list string) (e : exn) : Outcome :=
  {| printed := out; written := None; uncaught := Some e; exit_code := 1 |}.

Definition main (args : Args) (w : World) : Outcome :=
  if negb (has_git_dir w) then
    {| printed := ["Error: " ++ arg_repo_path args ++ " is not a Git repository"];
       written := None; uncaught := None; exit_code := 1 |}
  else
    let out0 :=
      ["Analyzing Git repository at " ++ absolute (arg_repo_path args) ++ "...";
       "Looking at the last " ++ PyFormat.str_Z (arg_days args) ++ " days..."] in
    let analyzer := init (arg_repo_path args) (arg_days args) (arg_author args) in
    let fetched := fetch_commits analyzer (git w) in
    let out1 := (out0 ++ fst fetched)%list in
    match snd fetched with
    | Raise e => crashed out1 e
    | Ok analyzer' =>
        match generate_report analyzer' with
        | Raise e => crashed out1 e
        | Ok report =>
            let out2 := (out1 ++ [report])%list in
            match arg_export args with
            | Some file =>
                if truthy file then
                  match export_json analyzer' file (writable w) with
                  | Raise e => crashed out2 e
                  | Ok (doc, line) =>
                      {| printed := (out2 ++ [line])%list; written := Some doc;
                         uncaught := None; exit_code := 0 |}
                  end
                else {| printed := out2; written := None; uncaught := None; exit_code := 0 |}
            | None => {| printed := out2; written := None; uncaught := None; exit_code := 0 |}
            end
        end
    end.

(** *** The loops of the aggregates, in closed form *)

Definition is_conventional (msg : string) : bool :=
  match match_type msg with Some _ => true | None => false end.

Definition count_conventional (cs : list Commit) : nat :=
  List.length (filter (fun c => is_conventional (message c)) cs).

Definition type_counts (cs : list Commit) (start : list (string * nat))
  : list (string * nat) :=
  fold_left (fun p c => match match_type (message c) with
                        | Some t => bump t p
                        | None => p
                        end) cs start.

Definition sum_additions (cs : list Commit) : Z :=
  fold_right Z.add 0%Z (map additions cs).

Definition sum_deletions (cs : list Commit) : Z :=
  fold_right Z.add 0%Z (map deletions cs).

Definition all_files (cs : list Commit) : list FileChange := flat_map files cs.

(** The extensions that are counted: the suffixes that are not empty. *)
Definition counted_extensions (fs : list FileChange) : list string :=
  filter truthy (map (fun f => suffix (file_name f)) fs).

Lemma message_loop_from (cs : list Commit) (lens : list nat) (k : nat)
    (p : list (string * nat)) :
  fold_left message_step cs (lens, k, p)
  = ((lens ++ map (fun c => String.length (message c)) cs)%list,
     (k + count_conventional cs)%nat,
     type_counts cs p).
Proof.
  revert lens k p. induction cs as [|c cs IH]; intros lens k p; simpl.
  - now rewrite app_nil_r, Nat.add_0_r.
  - unfold count_conventional, is_conventional. simpl.
    destruct (match_type (message c)) as [t|]; rewrite IH; simpl;
      rewrite <- app_assoc; simpl; f_equal; f_equal;
      unfold count_conventional, is_conventional; lia.
Qed.

Lemma message_loop_spec (cs : list Commit) :
  message_loop cs
  = (map (fun c => String.length (message c)) cs,
     count_conventional cs,
     type_counts cs (map (fun tag => (tag, O)) commit_type_tags)).
Proof. unfold message_loop. now rewrite message_loop_from. Qed.

Lemma count_file_from (fs : list FileChange) (a d : Z)
    (exts changed : list (string * nat)) :
  fold_left count_file fs (a, d, exts, changed)
  = (a, d,
     fold_left (fun c k => Counter.incr String.eqb k c) (counted_extensions fs) exts,
     fold_left (fun c k => Counter.incr String.eqb k c) (map file_name fs) changed).
Proof.
  revert exts changed. induction fs as [|f fs IH]; intros exts changed; simpl.
  - reflexivity.
  - unfold counted_extensions. simpl.
    destruct (truthy (suffix (file_name f))); rewrite IH; reflexivity.
Qed.

Lemma file_loop_from (cs : list Commit) (a d : Z) (exts changed : list (string * nat)) :
  fold_left file_step cs (a, d, exts, changed)
  = ((a + sum_additions cs)%Z, (d + sum_deletions cs)%Z,
     fold_left (fun c k => Counter.incr String.eqb k c)
               (counted_extensions (all_files cs)) exts,
     fold_left (fun c k => Counter.incr String.eqb k c)
               (map file_name (all_files cs)) changed).
Proof.
  revert a d exts changed. induction cs as [|c cs IH]; intros a d exts changed; simpl.
  - now rewrite !Z.add_0_r.
  - rewrite count_file_from, IH. unfold counted_extensions, all_files. simpl.
    rewrite !map_app, filter_app, !fold_left_app.
    unfold sum_additions, sum_deletions. simpl. now rewrite !Z.add_assoc.
Qed.

Lemma file_loop_spec (cs : list Commit) :
  file_loop cs
  = (sum_additions cs, sum_deletions cs,
     Counter.count_elements String.eqb (counted_extensions (all_files cs)),
     Counter.count_elements String.eqb (map file_name (all_files cs))).
Proof. unfold file_loop. now rewrite file_loop_from. Qed.

Lemma of_nat_pos (n : nat) : (0 < n)%nat -> 0 < of_nat n.
Proof. intros H. unfold of_nat, Qlt. simpl. lia. Qed.

Lemma div_ok (a b : Q) : ~ b == 0 -> div a b = Ok (fdiv a b).
Proof.
  intros H. unfold div. destruct (Qeq_bool b 0) eqn:E; [|reflexivity].
  apply Qeq_bool_eq in E. contradiction.
Qed.

Lemma div_of_nat (a : Q) (n : nat) : (0 < n)%nat -> div a (of_nat n) = Ok (fdiv a (of_nat n)).
Proof.
  intros H. apply div_ok. intros E. apply of_nat_pos in H.
  rewrite E in H. discriminate H.
Qed.

(** On a commit set that is not empty no division of the two analyses has
    a zero divisor. *)
Lemma analyze_commit_messages_nonempty (self : GitCommitAnalyzer) :
  commits self <> [] ->
  analyze_commit_messages self
  = Ok {| total_commits := List.length (commits self);
          avg_message_length :=
            fdiv (of_nat (fold_right Nat.add O
                            (map (fun c => String.length (message c)) (commits self))))
                 (of_nat (List.length (commits self)));
          conventional_commits := count_conventional (commits self);
          conventional_percentage :=
            fmul (fdiv (of_nat (count_conventional (commits self)))
                       (of_nat (List.length (commits self)))) 100;
          commit_types :=
            type_counts (commits self) (map (fun tag => (tag, O)) commit_type_tags) |}.
Proof.
  intros Hne. unfold analyze_commit_messages. rewrite message_loop_spec.
  destruct (commits self) as [|c cs] eqn:E; [congruence|].
  rewrite length_map. cbn [map].
  rewrite !div_of_nat by (simpl; lia). reflexivity.
Qed.

Lemma analyze_file_changes_nonempty (self : GitCommitAnalyzer) :
  commits self <> [] ->
  analyze_file_changes self
  = Ok {| total_additions := sum_additions (commits self);
          total_deletions := sum_deletions (commits self);
          net_lines := (sum_additions (commits self) - sum_deletions (commits self))%Z;
          avg_additions_per_commit :=
            fdiv (inject_Z (sum_additions (commits self)))
                 (of_nat (List.length (commits self)));
          avg_deletions_per_commit :=
            fdiv (inject_Z (sum_deletions (commits self)))
                 (of_nat (List.length (commits self)));
          file_extensions :=
            Counter.most_common 10%Z
              (Counter.count_elements String.eqb
                 (counted_extensions (all_files (commits self))));
          most_changed_files :=
            Counter.most_common 10%Z
              (Counter.count_elements String.eqb
                 (map file_name (all_files (commits self)))) |}.
Proof.
  intros Hne. unfold analyze_file_changes. rewrite file_loop_spec.
  destruct (commits self) as [|c cs] eqn:E; [congruence|].
  rewrite !div_of_nat by (simpl; lia). reflexivity.
Qed.

Lemma analyze_commit_messages_empty (self : GitCommitAnalyzer) :
  commits self = [] ->
  analyze_commit_messages self
  = Ok {| total_commits := 0; avg_message_length := 0;
          conventional_commits := 0; conventional_percentage := 0;
          commit_types := map (fun tag => (tag, O)) commit_type_tags |}.
Proof. intros H. unfold analyze_commit_messages. now rewrite H. Qed.

Lemma analyze_file_changes_empty (self : GitCommitAnalyzer) :
  commits self = [] ->
  analyze_file_changes self
  = Ok {| total_additions := 0; total_deletions := 0; net_lines := 0;
          avg_additions_per_commit := 0; avg_deletions_per_commit := 0;
          file_extensions := []; most_changed_files := [] |}.
Proof. intros H. unfold analyze_file_changes. now rewrite H. Qed.

(** Neither analysis ever raises. *)
Lemma analyze_commit_messages_total (self : GitCommitAnalyzer) :
  exists m, analyze_commit_messages self = Ok m.
Proof.
  destruct (commits self) as [|c cs] eqn:E.
  - eexists. now apply analyze_commit_messages_empty.
  - eexists. apply analyze_commit_messages_nonempty. congruence.
Qed.

Lemma analyze_file_changes_total (self : GitCommitAnalyzer) :
  exists f, analyze_file_changes self = Ok f.
Proof.
  destruct (commits self) as [|c cs] eqn:E.
  - eexists. now apply analyze_file_changes_empty.
  - eexists. apply analyze_file_changes_nonempty. congruence.
Qed.

(** C3. On an empty commit set the report is the message that no commits
    were found, both analyses return (no division is attempted) with every
    total, average and percentage equal to 0, and the productivity score is
    0, whatever the number of days. *)
Theorem empty_commit_set (self : GitCommitAnalyzer) :
  commits self = [] ->
  generate_report self = Ok "No commits found in the specified time range."
  /\ analyze_commit_messages self
     = Ok {| total_commits := 0; avg_message_length := 0;
             conventional_commits := 0; conventional_percentage := 0;
             commit_types := map (fun tag => (tag, O)) commit_type_tags |}
  /\ analyze_file_changes self
     = Ok {| total_additions := 0; total_deletions := 0; net_lines := 0;
             avg_additions_per_commit := 0; avg_deletions_per_commit := 0;
             file_extensions := []; most_changed_files := [] |}
  /\ get_productivity_score self = Ok 0.
Proof.
  intros H. repeat split.
  - unfold generate_report. now rewrite H.
  - now apply analyze_commit_messages_empty.
  - now apply analyze_file_changes_empty.
  - unfold get_productivity_score. now rewrite H.
Qed.

(** *** The productivity score *)

(** The score written with the four quantities it depends on. *)
Definition score_of (n : nat) (d : Z) (conventional : nat) (added : Z) : Q :=
  round2
    (fadd (fadd (py_min (fmul (fdiv (of_nat n) (inject_Z d)) 10) 40)
                (fmul (fmul (fdiv (of_nat conventional) (of_nat n)) 100) lit_0_3))
          (py_min (fdiv (fdiv (inject_Z added) (of_nat n)) 10) 30)).

Lemma get_productivity_score_nonempty (self : GitCommitAnalyzer) :
  commits self <> [] -> days self <> 0%Z ->
  get_productivity_score self
  = Ok (score_of (List.length (commits self)) (days self)
                 (count_conventional (commits self)) (sum_additions (commits self))).
Proof.
  intros Hne Hd. unfold get_productivity_score.
  rewrite (analyze_commit_messages_nonempty self Hne).
  rewrite (analyze_file_changes_nonempty self Hne).
  destruct (commits self) as [|c cs] eqn:E; [congruence|].
  rewrite div_ok; [reflexivity|].
  unfold Qeq. simpl. lia.
Qed.

(** A window of zero days makes the score of a non-empty set raise. *)
Lemma get_productivity_score_zero_days (self : GitCommitAnalyzer) :
  commits self <> [] -> days self = 0%Z ->
  get_productivity_score self = Raise ZeroDivisionError.
Proof.
  intros Hne Hd. unfold get_productivity_score.
  destruct (commits self) as [|c cs] eqn:E; [congruence|].
  now rewrite Hd.
Qed.

Lemma count_conventional_le (cs : list Commit) :
  (count_conventional cs <= List.length cs)%nat.
Proof. unfold count_conventional. apply filter_length_le. Qed.

Lemma sum_additions_nonneg (cs : list Commit) :
  Forall (fun c => (0 <= additions c)%Z) cs -> (0 <= sum_additions cs)%Z.
Proof.
  unfold sum_additions. induction 1 as [|c cs Hc _ IH]; simpl; lia.
Qed.

Lemma of_nat_le (a b : nat) : (a <= b)%nat -> of_nat a <= of_nat b.
Proof. intros H. unfold of_nat, Qle. simpl. lia. Qed.

Lemma inject_Z_pos (z : Z) : (0 < z)%Z -> 0 < inject_Z z.
Proof. intros H. unfold Qlt. simpl. lia. Qed.

Lemma inject_Z_nonneg (z : Z) : (0 <= z)%Z -> 0 <= inject_Z z.
Proof. intros H. unfold Qle. simpl. lia. Qed.

Lemma Qdiv_nonneg (a b : Q) : 0 <= a -> 0 < b -> 0 <= a / b.
Proof.
  intros Ha Hb. apply Qle_shift_div_l; [exact Hb|]. now rewrite Qmult_0_l.
Qed.

(** The share of the conventional messages and the percentage made of
    it, as floats. *)
Lemma share_bounds (k n : nat) :
  (0 < n)%nat -> (k <= n)%nat ->
  0 <= fmul (fdiv (of_nat k) (of_nat n)) 100
  /\ fmul (fdiv (of_nat k) (of_nat n)) 100 <= 100.
Proof.
  intros Hn Hk. pose proof (of_nat_pos n Hn) as Hn'.
  assert (H2 : 0 <= of_nat k / of_nat n).
  { apply Qdiv_nonneg; [|exact Hn']. apply (of_nat_le 0). lia. }
  assert (H3 : of_nat k / of_nat n <= 1).
  { apply Qle_shift_div_r; [exact Hn'|]. rewrite Qmult_1_l. now apply of_nat_le. }
  assert (S1 : 0 <= fdiv (of_nat k) (of_nat n)) by (now apply rnd_nonneg).
  assert (S2 : fdiv (of_nat k) (of_nat n) <= 1).
  { apply rnd_le; [apply representable_one|discriminate|exact H3]. }
  unfold fmul. split.
  - apply rnd_nonneg. lra.
  - apply (rnd_le _ 100); [apply (representable_Z 100); lia|discriminate|lra].
Qed.

(** [100 * 0.3] is 30 in binary64, so the message score is at most 30. *)
Lemma message_score_bounds (p : Q) :
  0 <= p -> p <= 100 -> 0 <= fmul p lit_0_3 /\ fmul p lit_0_3 <= 30.
Proof.
  intros H0 H1.
  assert (L0 : 0 <= lit_0_3) by (now vm_compute).
  assert (L1 : rnd (100 * lit_0_3) == 30) by (now vm_compute).
  unfold fmul. split.
  - apply rnd_nonneg. now apply Qmult_le_0_compat.
  - rewrite <- L1. apply rnd_mono.
    + now apply Qmult_le_compat_r.
    + apply Qmult_le_0_compat; [discriminate|exact L0].
Qed.

Lemma score_upper (a b c : Q) :
  a <= 40 -> b <= 30 -> c <= 30 -> round2 (fadd (fadd a b) c) <= 100.
Proof.
  intros Ha Hb Hc.
  assert (H1 : fadd a b <= 70).
  { apply (rnd_le _ 70); [apply (representable_Z 70); lia|discriminate|lra]. }
  assert (H2 : fadd (fadd a b) c <= 100).
  { apply (rnd_le _ 100); [apply (representable_Z 100); lia|discriminate|lra]. }
  apply (round2_le _ 100); [lia|exact H2].
Qed.

Lemma score_lower (a b c : Q) :
  0 <= a -> 0 <= b -> 0 <= c -> 0 <= round2 (fadd (fadd a b) c).
Proof.
  intros Ha Hb Hc.
  assert (H1 : 0 <= fadd a b) by (apply rnd_nonneg; lra).
  apply round2_nonneg. apply rnd_nonneg. lra.
Qed.

Lemma score_terms (n : nat) (d : Z) (conventional : nat) (added : Z) :
  (0 < n)%nat -> (conventional <= n)%nat -> (0 < d)%Z -> (0 <= added)%Z ->
  0 <= score_of n d conventional added /\ score_of n d conventional added <= 100.
Proof.
  intros Hn Hc Hd Ha.
  pose proof (of_nat_pos n Hn) as Hn'.
  assert (H1 : 0 <= fdiv (of_nat n) (inject_Z d)).
  { apply rnd_nonneg. apply Qdiv_nonneg; [now apply Qlt_le_weak|now apply inject_Z_pos]. }
  assert (H4 : 0 <= fdiv (inject_Z added) (of_nat n)).
  { apply rnd_nonneg. apply Qdiv_nonneg; [now apply inject_Z_nonneg|exact Hn']. }
  destruct (share_bounds conventional n Hn Hc) as [P0 P1].
  destruct (message_score_bounds _ P0 P1) as [M0 M1].
  unfold score_of. split.
  - apply score_lower; [| exact M0 |].
    + apply py_min_glb; [|discriminate]. apply rnd_nonneg. lra.
    + apply py_min_glb; [|discriminate]. apply rnd_nonneg.
      apply Qdiv_nonneg; [exact H4|reflexivity].
  - apply score_upper; [apply py_min_le_r|exact M1|apply py_min_le_r].
Qed.

(** C2, as amended. For a window of at least one day and commits whose
    added-line counts are not negative, the score is returned, equals
    [round(min(commits / days * 10, 40) + conventional_percentage * 0.3
    + min(avg_additions_per_commit / 10, 30), 2)] computed in binary
    floating point, lies between 0 and 100, and is 0 for the empty commit
    set. *)
Theorem productivity_score_range (self : GitCommitAnalyzer) :
  (0 < days self)%Z ->
  Forall (fun c => (0 <= additions c)%Z) (commits self) ->
  exists score,
    get_productivity_score self = Ok score
    /\ (commits self = [] -> score = 0)
    /\ (commits self <> [] ->
        score = score_of (List.length (commits self)) (days self)
                         (count_conventional (commits self))
                         (sum_additions (commits self)))
    /\ 0 <= score /\ score <= 100.
Proof.
  intros Hd Hadd. destruct (commits self) as [|c cs] eqn:E.
  - exists 0. repeat split; try congruence; try discriminate.
    unfold get_productivity_score. now rewrite E.
  - assert (Hne : commits self <> []) by congruence.
    eexists. split.
    { rewrite (get_productivity_score_nonempty self Hne) by lia. rewrite E. reflexivity. }
    split; [discriminate|]. split; [reflexivity|].
    apply score_terms; try (simpl; lia).
    + apply count_conventional_le.
    + now apply sum_additions_nonneg.
Qed.

(** *** Conventional messages *)

(** The conventional form in the words of the specification: one of the
    type tags, then optionally a scope in parentheses (one or more
    characters of the line), then a colon. *)
Definition conventional_form (msg : string) : Prop :=
  exists tag rest,
    In tag commit_type_tags
    /\ (msg = tag ++ ":" ++ rest
        \/ exists scope,
             scope <> "" /\ contains line_feed scope = false
             /\ msg = tag ++ "(" ++ scope ++ "):" ++ rest).

Lemma lang_scope_group (v : string) :
  Regex.lang scope_group v
  <-> exists scope, scope <> "" /\ contains line_feed scope = false
                    /\ v = "(" ++ scope ++ ")".
Proof.
  unfold scope_group. rewrite Regex.lang_cat_iff. split.
  - intros (u & t & -> & Hu & Ht). apply Regex.lang_chr_inv in Hu. subst u.
    apply Regex.lang_cat_iff in Ht. destruct Ht as (s & k & -> & Hs & Hk).
    apply Regex.lang_chr_inv in Hk. subst k.
    apply Regex.lang_plus_dot in Hs. destruct Hs as [Hne Hnl].
    exists s. auto.
  - intros (scope & Hne & Hnl & ->). exists "(", (scope ++ ")").
    split; [reflexivity|]. split; [constructor|].
    apply Regex.lang_cat_iff. exists scope, ")". split; [reflexivity|].
    split; [now apply Regex.lang_plus_dot|constructor].
Qed.

Lemma lang_after_type (v : string) :
  Regex.lang after_type v
  <-> v = ":"
      \/ exists scope, scope <> "" /\ contains line_feed scope = false
                       /\ v = "(" ++ scope ++ "):".
Proof.
  unfold after_type, Regex.Opt. rewrite Regex.lang_cat_iff. split.
  - intros (u & t & -> & Hu & Ht). apply Regex.lang_chr_inv in Ht. subst t.
    apply Regex.lang_alt_inv in Hu. destruct Hu as [Hu|Hu].
    + apply lang_scope_group in Hu. destruct Hu as (scope & Hne & Hnl & ->).
      right. exists scope. repeat split; auto.
      simpl. now rewrite Regex.append_assoc.
    + apply Regex.lang_eps_inv in Hu. subst u. now left.
  - intros [->|(scope & Hne & Hnl & ->)].
    + exists "", ":". split; [reflexivity|].
      split; [apply Regex.lang_alt_r|]; constructor.
    + exists ("(" ++ scope ++ ")"), ":". split.
      * simpl. now rewrite Regex.append_assoc.
      * split; [|constructor]. apply Regex.lang_alt_l.
        apply lang_scope_group. exists scope. auto.
Qed.

(** When the pattern matches with a given tag as its first group. *)
Lemma tag_matches (tag msg : string) :
  Regex.match_prefix (Regex.Cat (Regex.Lit tag) after_type) msg = true
  <-> exists rest,
        msg = tag ++ ":" ++ rest
        \/ exists scope,
             scope <> "" /\ contains line_feed scope = false
             /\ msg = tag ++ "(" ++ scope ++ "):" ++ rest.
Proof.
  rewrite Regex.match_prefix_lang. split.
  - intros (p & rest & -> & Hp). apply Regex.lang_cat_iff in Hp.
    destruct Hp as (u & v & -> & Hu & Hv). apply Regex.lang_lit in Hu. subst u.
    apply lang_after_type in Hv. exists rest.
    destruct Hv as [->|(scope & Hne & Hnl & ->)].
    + left. now rewrite Regex.append_assoc.
    + right. exists scope. repeat split; auto.
      rewrite Regex.append_assoc. f_equal. simpl. f_equal.
      now rewrite Regex.append_assoc.
  - intros [rest [->|(scope & Hne & Hnl & ->)]].
    + exists (tag ++ ":"), rest. split; [now rewrite Regex.append_assoc|].
      apply Regex.lang_cat_iff. exists tag, ":". split; [reflexivity|].
      split; [now apply Regex.lang_lit|]. apply lang_after_type. now left.
    + exists (tag ++ "(" ++ scope ++ "):"), rest. split.
      * rewrite Regex.append_assoc. f_equal. simpl. f_equal.
        now rewrite Regex.append_assoc.
      * apply Regex.lang_cat_iff. exists tag, ("(" ++ scope ++ "):").
        split; [reflexivity|]. split; [now apply Regex.lang_lit|].
        apply lang_after_type. right. exists scope. auto.
Qed.

Lemma match_type_some (msg tag : string) :
  match_type msg = Some tag ->
  In tag commit_type_tags
  /\ exists rest,
       msg = tag ++ ":" ++ rest
       \/ exists scope,
            scope <> "" /\ contains line_feed scope = false
            /\ msg = tag ++ "(" ++ scope ++ "):" ++ rest.
Proof.
  unfold match_type. intros H. apply find_some in H. destruct H as [Hin H].
  split; [exact Hin|]. now apply tag_matches.
Qed.

(** A message is counted as conventional exactly when it has the
    conventional form. *)
Lemma is_conventional_iff (msg : string) :
  is_conventional msg = true <-> conventional_form msg.
Proof.
  unfold is_conventional, conventional_form. split.
  - destruct (match_type msg) as [tag|] eqn:E; [|discriminate]. intros _.
    apply match_type_some in E. destruct E as [Hin [rest H]].
    exists tag, rest. auto.
  - intros (tag & rest & Hin & H).
    destruct (match_type msg) as [t|] eqn:E; [reflexivity|]. exfalso.
    unfold match_type in E.
    pose proof (find_none _ _ E tag Hin) as Hf. simpl in Hf.
    assert (Ht : Regex.match_prefix (Regex.Cat (Regex.Lit tag) after_type) msg = true).
    { apply tag_matches. exists rest. exact H. }
    congruence.
Qed.

(** The first group of the pattern matches exactly the type tags, so
    trying the tags one after the other is matching the whole pattern. *)
Lemma lang_alternatives (tags : list string) (u : string) :
  Regex.lang
    (fold_right (fun tag r => Regex.Alt (Regex.Lit tag) r) Regex.Void tags) u
  <-> In u tags.
Proof.
  induction tags as [|t tags IH]; simpl.
  - split; [intros H; inversion H|intros []].
  - rewrite Regex.lang_alt_inv, Regex.lang_lit, IH. split; intros [H|H]; auto.
Qed.

Lemma match_type_pattern (msg : string) :
  Regex.match_prefix conventional_pattern msg = is_conventional msg.
Proof.
  apply eq_true_iff_eq. rewrite Regex.match_prefix_lang. split.
  - intros (p & rest & -> & Hp). unfold conventional_pattern in Hp.
    apply Regex.lang_cat_iff in Hp. destruct Hp as (u & v & -> & Hu & Hv).
    apply lang_alternatives in Hu.
    unfold is_conventional. rewrite Regex.append_assoc.
    destruct (match_type (u ++ v ++ rest)) as [t|] eqn:E; [reflexivity|].
    unfold match_type in E. pose proof (find_none _ _ E u Hu) as Hf. simpl in Hf.
    assert (Ht : Regex.match_prefix (Regex.Cat (Regex.Lit u) after_type)
                   ((u ++ v) ++ rest) = true).
    { apply Regex.match_prefix_lang. exists (u ++ v), rest.
      split; [reflexivity|]. apply Regex.lang_cat_iff. exists u, v.
      split; [reflexivity|]. split; [now apply Regex.lang_lit|exact Hv]. }
    rewrite Regex.append_assoc in Ht. congruence.
  - unfold is_conventional.
    destruct (match_type msg) as [tag|] eqn:E; [|discriminate]. intros _.
    unfold match_type in E. apply find_some in E. destruct E as [Hin E].
    apply Regex.match_prefix_lang in E. destruct E as (p & rest & -> & Hp).
    exists p, rest. split; [reflexivity|].
    apply Regex.lang_cat_iff in Hp. destruct Hp as (u & v & -> & Hu & Hv).
    unfold conventional_pattern. apply Regex.lang_cat_iff. exists u, v.
    split; [reflexivity|]. split; [|exact Hv].
    apply lang_alternatives. apply Regex.lang_lit in Hu. now subst.
Qed.

(** *** Lines of the log *)

Lemma stat_value_not_blank (field : string) (z : Z) :
  stat_value field = Some z -> blank field = false.
Proof.
  unfold stat_value. destruct (String.eqb_spec field "-") as [->|Hne].
  - reflexivity.
  - apply int_not_blank.
Qed.

Lemma stat_line_not_blank (line adds dels filename : string) (z : Z) :
  split tab line = [adds; dels; filename] ->
  stat_value adds = Some z ->
  truthy (strip line) = true.
Proof.
  intros Hs Hv. rewrite truthy_strip.
  rewrite <- (split_join tab line), Hs. cbn [String.concat].
  rewrite blank_app, (stat_value_not_blank adds z Hv). reflexivity.
Qed.

Lemma is_commit_line_fields (line : string) :
  is_commit_line line = true <-> List.length (split "|" line) = 4%nat.
Proof.
  unfold is_commit_line. rewrite andb_true_iff, Nat.eqb_eq.
  split; [intros [_ H]; exact H|].
  intros H. split; [|exact H].
  rewrite contains_count. rewrite split_length in H.
  destruct (count_char "|" line); [discriminate|reflexivity].
Qed.

(** A line that does not open a commit leaves the list of commits as it
    is: it is ignored, or it adds a file to the current commit. *)
Lemma parse_line_not_commit (st : parser_state) (line : string) :
  is_commit_line line = false ->
  parse_line st line = Ok st
  \/ exists current filename add delete,
       snd st = Some current
       /\ parse_line st line = Ok (fst st, Some (add_file current filename add delete)).
Proof.
  intros H. unfold parse_line. rewrite H.
  destruct (truthy (strip line)); [|now left].
  destruct (snd st) as [current|] eqn:E; [|now left].
  destruct (split tab line) as [|adds [|dels [|filename [|? ?]]]]; try now left.
  destruct (stat_value adds) as [add|]; [|now left].
  destruct (stat_value dels) as [delete|]; [|now left].
  right. exists current, filename, add, delete. auto.
Qed.

Lemma parse_line_no_current (cs : list Commit) (line : string) :
  is_commit_line line = false -> parse_line (cs, None) line = Ok (cs, None).
Proof.
  intros H. unfold parse_line. rewrite H. simpl.
  now destruct (truthy (strip line)).
Qed.

Lemma parse_line_stat (cs : list Commit) (current : Commit)
    (line adds dels filename : string) (add delete : Z) :
  is_commit_line line = false ->
  split tab line = [adds; dels; filename] ->
  stat_value adds = Some add -> stat_value dels = Some delete ->
  parse_line (cs, Some current) line
  = Ok (cs, Some (add_file current filename add delete)).
Proof.
  intros Hc Hs Ha Hd. unfold parse_line. rewrite Hc.
  rewrite (stat_line_not_blank line adds dels filename add Hs Ha).
  simpl. now rewrite Hs, Ha, Hd.
Qed.

(** C7, as amended. On a stat line of three tab-separated fields read
    while a commit is open, a field that is the placeholder counts as 0 and
    any other field is converted by [int]; the file is recorded with both
    values. With both fields the placeholder the line adds 0 to either total
    of the commit and the file is recorded. When a field that is not the
    placeholder fails to convert, the line is skipped: the state is
    unchanged and parsing goes on. *)
Theorem stat_line_fields (st : parser_state) (current : Commit)
    (line adds dels filename : string) :
  snd st = Some current ->
  is_commit_line line = false ->
  split tab line = [adds; dels; filename] ->
  stat_value "-" = Some 0%Z
  /\ (forall add delete,
        stat_value adds = Some add -> stat_value dels = Some delete ->
        parse_line st line = Ok (fst st, Some (add_file current filename add delete)))
  /\ (adds = "-" -> dels = "-" ->
        parse_line st line = Ok (fst st, Some (add_file current filename 0 0))
        /\ additions (add_file current filename 0 0) = additions current
        /\ deletions (add_file current filename 0 0) = deletions current
        /\ In filename (map file_name (files (add_file current filename 0 0))))
  /\ (stat_value adds = None \/ stat_value dels = None ->
        parse_line st line = Ok st).
Proof.
  intros Hcur Hc Hs. destruct st as [cs cur]. simpl in Hcur. subst cur.
  split; [reflexivity|]. split; [|split].
  - intros add delete Ha Hd. now apply (parse_line_stat cs current line adds dels).
  - intros -> ->. split.
    + now apply (parse_line_stat cs current line "-" "-").
    + simpl. repeat split; try lia.
      rewrite map_app. apply in_or_app. right. now left.
  - intros H. unfold parse_line. rewrite Hc.
    destruct (truthy (strip line)); [|reflexivity]. simpl. rewrite Hs.
    destruct H as [H|H]; rewrite H; [reflexivity|].
    now destruct (stat_value adds).
Qed.

(** C10. A line opens a commit exactly when splitting it on the bar gives
    four fields. The metadata line of a commit whose subject contains a bar
    has more fields: it opens no commit, the list of commits stays as it is
    and the line is at most read as a stat line of the commit that is open.
    The stat lines that follow are added to that commit, or dropped when no
    commit is open. *)
Theorem commit_line_four_fields (st : parser_state)
    (hash_val author_name date_text subject : string) :
  contains "|" subject = true ->
  let line := hash_val ++ "|" ++ author_name ++ "|" ++ date_text ++ "|" ++ subject in
  (forall l, is_commit_line l = true <-> List.length (split "|" l) = 4%nat)
  /\ is_commit_line line = false
  /\ (parse_line st line = Ok st
      \/ exists current filename add delete,
           snd st = Some current
           /\ parse_line st line
              = Ok (fst st, Some (add_file current filename add delete)))
  /\ (List.length (split tab line) <> 3%nat ->
      forall stat adds dels filename add delete,
        is_commit_line stat = false ->
        split tab stat = [adds; dels; filename] ->
        stat_value adds = Some add -> stat_value dels = Some delete ->
        parse_lines st [line; stat]
        = Ok (fst st,
              match snd st with
              | Some previous => Some (add_file previous filename add delete)
              | None => None
              end)).
Proof.
  intros Hbar line.
  assert (Hline : is_commit_line line = false).
  { destruct (is_commit_line line) eqn:E; [|reflexivity].
    apply is_commit_line_fields in E. rewrite split_length in E.
    unfold line in E. rewrite !count_char_app in E. simpl in E.
    apply contains_count_pos in Hbar. lia. }
  split; [exact is_commit_line_fields|]. split; [exact Hline|].
  split; [now apply parse_line_not_commit|].
  intros Htab stat adds dels filename add delete Hc Hs Ha Hd.
  assert (Hskip : parse_line st line = Ok st).
  { unfold parse_line. rewrite Hline.
    destruct (truthy (strip line)); [|reflexivity].
    destruct (snd st); [|reflexivity].
    destruct (split tab line) as [|x [|y [|z [|? ?]]]]; try reflexivity.
    simpl in Htab. congruence. }
  cbn [parse_lines bind]. rewrite Hskip. destruct st as [cs [previous|]]; simpl.
  - now rewrite (parse_line_stat cs previous stat adds dels filename add delete).
  - now rewrite parse_line_no_current.
Qed.

(** *** File churn *)

Lemma string_eqb_eq (x y : string) : String.eqb x y = true <-> x = y.
Proof. apply String.eqb_eq. Qed.

Lemma analyze_file_changes_counts (self : GitCommitAnalyzer) :
  exists f,
    analyze_file_changes self = Ok f
    /\ file_extensions f
       = Counter.most_common 10%Z
           (Counter.count_elements String.eqb
              (counted_extensions (all_files (commits self))))
    /\ most_changed_files f
       = Counter.most_common 10%Z
           (Counter.count_elements String.eqb
              (map file_name (all_files (commits self)))).
Proof.
  destruct (commits self) as [|c cs] eqn:E.
  - eexists. split; [now apply analyze_file_changes_empty|]. now split.
  - eexists. split; [apply analyze_file_changes_nonempty; congruence|].
    rewrite E. now split.
Qed.

Lemma counted_extensions_truthy (fs : list FileChange) (ext : string) :
  In ext (counted_extensions fs) -> truthy ext = true.
Proof. unfold counted_extensions. intros H. now apply filter_In in H. Qed.

(** C8, as amended. The file-extension counts count the file changes
    whose name has a suffix; a change of a file without extension adds
    nothing to them, so no entry has an empty extension and the rendered
    label of an entry is its extension. The file counts count every change
    under the name of the file. Both lists are the ten most common entries,
    by decreasing count. *)
Theorem file_churn_counts (self : GitCommitAnalyzer) :
  exists f,
    analyze_file_changes self = Ok f
    /\ file_extensions f
       = Counter.most_common 10%Z
           (Counter.count_elements String.eqb
              (counted_extensions (all_files (commits self))))
    /\ most_changed_files f
       = Counter.most_common 10%Z
           (Counter.count_elements String.eqb
              (map file_name (all_files (commits self))))
    /\ (forall ext n,
          In (ext, n) (file_extensions f) ->
          ext <> "" /\ extension_label ext = ext
          /\ n = Counter.occurrences String.eqb ext
                   (map (fun c => suffix (file_name c)) (all_files (commits self))))
    /\ (forall name n,
          In (name, n) (most_changed_files f) ->
          n = Counter.occurrences String.eqb name
                (map file_name (all_files (commits self))))
    /\ StronglySorted (fun a b => (snd b <= snd a)%nat) (file_extensions f)
    /\ StronglySorted (fun a b => (snd b <= snd a)%nat) (most_changed_files f)
    /\ (List.length (file_extensions f) <= 10)%nat
    /\ (List.length (most_changed_files f) <= 10)%nat.
Proof.
  destruct (analyze_file_changes_counts self) as (f & Hf & Hext & Hch).
  exists f. split; [exact Hf|]. split; [exact Hext|]. split; [exact Hch|].
  rewrite Hext, Hch. repeat split.
  - apply (Counter.most_common_count String.eqb string_eqb_eq) in H.
    destruct H as [H _]. apply counted_extensions_truthy in H.
    intros ->. discriminate.
  - apply (Counter.most_common_count String.eqb string_eqb_eq) in H.
    destruct H as [H _]. apply counted_extensions_truthy in H.
    unfold extension_label. now rewrite H.
  - apply (Counter.most_common_count String.eqb string_eqb_eq) in H.
    destruct H as [Hin ->]. unfold counted_extensions.
    apply (Counter.occurrences_filter String.eqb string_eqb_eq).
    now apply counted_extensions_truthy in Hin.
  - intros name n H.
    apply (Counter.most_common_count String.eqb string_eqb_eq) in H.
    now destruct H.
  - apply (Counter.most_common_decreasing String.eqb string_eqb_eq).
  - apply (Counter.most_common_decreasing String.eqb string_eqb_eq).
  - unfold Counter.most_common. apply firstn_le_length.
  - unfold Counter.most_common. apply firstn_le_length.
Qed.

(** *** JSON export *)

Definition document_keys : list string :=
  ["metadata"; "frequency"; "messages"; "files"; "authors"; "productivity_score"].

Lemma export_data_keys (self : GitCommitAnalyzer) (doc : json) :
  export_data self = Ok doc ->
  exists members, doc = JObj members /\ map fst members = document_keys.
Proof.
  unfold export_data.
  destruct (analyze_commit_messages self); [|discriminate].
  destruct (analyze_file_changes self); [|discriminate].
  destruct (get_productivity_score self); [|discriminate].
  simpl. intros H. inversion H. eexists. split; reflexivity.
Qed.

(** The document exported for an empty commit set. *)
Definition empty_document (self : GitCommitAnalyzer) : json :=
  JObj
    [("metadata",
      JObj [("repo_path", JStr (absolute (repo_path self)));
            ("analysis_date", JStr now_isoformat);
            ("days_analyzed", JNum (inject_Z (days self)));
            ("author_filter",
             match author_filter self with Some a => JStr a | None => JNull end)]);
     ("frequency",
      JObj [("by_hour", JObj []); ("by_day", JObj []); ("by_date", JObj [])]);
     ("messages",
      JObj [("total_commits", JNum 0);
            ("avg_message_length", JNum 0);
            ("conventional_commits", JNum 0);
            ("conventional_percentage", JNum 0);
            ("commit_types",
             JObj [("feat", JNum 0); ("fix", JNum 0); ("docs", JNum 0);
                   ("style", JNum 0); ("refactor", JNum 0); ("test", JNum 0);
                   ("chore", JNum 0)])]);
     ("files",
      JObj [("total_additions", JNum 0);
            ("total_deletions", JNum 0);
            ("net_lines", JNum 0);
            ("avg_additions_per_commit", JNum 0);
            ("avg_deletions_per_commit", JNum 0);
            ("file_extensions", JObj []);
            ("most_changed_files", JObj [])]);
     ("authors",
      JObj [("total_authors", JNum 0);
            ("author_commits", JObj []);
            ("author_stats", JObj [])]);
     ("productivity_score", JNum 0)].

Lemma export_json_of_empty (self : GitCommitAnalyzer) (output_file : string) :
  commits self = [] ->
  export_json self output_file true
  = Ok ((output_file, empty_document self), "Analysis exported to " ++ output_file).
Proof.
  intros H. unfold export_json, export_data.
  rewrite (analyze_commit_messages_empty self H).
  rewrite (analyze_file_changes_empty self H).
  unfold get_productivity_score, analyze_commit_frequency, analyze_authors.
  rewrite H. reflexivity.
Qed.

(** C9. On an empty commit set, and for any number of days, [export_json]
    does not raise when the file can be opened: it writes the document with
    the six keys whose frequency maps are empty and whose count, averages,
    percentage and score are 0, and prints its line; the report of the same
    analyzer is the message that no commits were found. Every document that
    [export_json] builds has the six keys. *)
Theorem export_json_empty (self : GitCommitAnalyzer) (output_file : string) :
  commits self = [] ->
  export_json self output_file true
  = Ok ((output_file, empty_document self), "Analysis exported to " ++ output_file)
  /\ (exists members,
        empty_document self = JObj members /\ map fst members = document_keys)
  /\ generate_report self = Ok "No commits found in the specified time range."
  /\ (forall other doc,
        export_data other = Ok doc ->
        exists members, doc = JObj members /\ map fst members = document_keys).
Proof.
  intros H. split; [|split; [|split]].
  - now apply export_json_of_empty.
  - eexists. split; reflexivity.
  - unfold generate_report. now rewrite H.
  - exact export_data_keys.
Qed.

(** *** The three messages of the specification *)

Definition with_messages (d : datetime) (msgs : list string) : GitCommitAnalyzer :=
  {| repo_path := "."; days := 30; author_filter := None;
     commits := map (new_commit "h" "dev" d) msgs |}.

(** C6, as amended. A message is counted as conventional exactly when it
    has the conventional form, and the analysis counts those messages. For
    the messages [feat: a], [random text], [fix(core): b] the count is 2, the
    types are feat 1, fix 1 and 0 for the others, and the percentage is
    2/3 * 100 as a float, 66.66666666666666, not rounded: it is the float
    66.67 once rounded to two decimals, and the report shows it with one
    decimal, as 66.7. *)
Theorem conventional_messages_counted (d : datetime) :
  (forall msg, is_conventional msg = true <-> conventional_form msg)
  /\ (forall self,
        exists m,
          analyze_commit_messages self = Ok m
          /\ conventional_commits m = count_conventional (commits self))
  /\ exists m,
       analyze_commit_messages
         (with_messages d ["feat: a"; "random text"; "fix(core): b"]) = Ok m
       /\ total_commits m = 3%nat
       /\ conventional_commits m = 2%nat
       /\ conventional_percentage m = 2345624805922133 # 35184372088832
       /\ round2 (conventional_percentage m) = rnd (6667 # 100)
       /\ conventional_line m = "  Conventional Commits: 2/3 (66.7%)" ++ nl
       /\ commit_types m
          = [("feat", 1); ("fix", 1); ("docs", 0); ("style", 0);
             ("refactor", 0); ("test", 0); ("chore", 0)]%nat.
Proof.
  split; [exact is_conventional_iff|]. split.
  - intros self. destruct (commits self) as [|c cs] eqn:E.
    + eexists. split; [now apply analyze_commit_messages_empty|]. reflexivity.
    + eexists. split; [apply analyze_commit_messages_nonempty; congruence|].
      simpl. now rewrite E.
  - eexists. split; [now vm_compute|]. repeat split; now vm_compute.
Qed.

(** *** A failed log command *)

Lemma parse_log_empty : parse_log "" = Ok [].
Proof. reflexivity. Qed.

(** When the command cannot be started, the exception is not caught. *)
Lemma main_not_started (args : Args) (w : World) :
  has_git_dir w = true -> git w = NotStarted ->
  uncaught (main args w) = Some OSError /\ exit_code (main args w) = 1%Z.
Proof.
  intros Hdir Hgit. unfold main, fetch_commits. rewrite Hdir, Hgit. now simpl.
Qed.

(** C1, as amended. When the log command ends with a status that is not
    zero, [run_git_command] prints its error line and returns no output;
    the run goes on with an empty commit set, prints the message that no
    commits were found and, unless the export file cannot be opened, ends
    with exit code 0. *)
Theorem failed_command_continues (args : Args) (w : World) (e : string) :
  has_git_dir w = true ->
  git w = CalledProcessError e ->
  arg_export args = None \/ writable w = true ->
  exit_code (main args w) = 0%Z
  /\ uncaught (main args w) = None
  /\ firstn 4 (printed (main args w))
     = ["Analyzing Git repository at " ++ absolute (arg_repo_path args) ++ "...";
        "Looking at the last " ++ PyFormat.str_Z (arg_days args) ++ " days...";
        "Error running git command: " ++ e;
        "No commits found in the specified time range."].
Proof.
  intros Hdir Hgit Hexp. unfold main, fetch_commits. rewrite Hdir, Hgit.
  cbn [negb run_git_command fst snd bind]. rewrite parse_log_empty.
  cbn [bind init commits app generate_report].
  destruct (arg_export args) as [file|]; [|now simpl].
  destruct (truthy file); [|now simpl].
  destruct Hexp as [Hexp|Hexp]; [discriminate|]. rewrite Hexp.
  match goal with
  | |- context [export_json ?a file true] =>
      rewrite (export_json_of_empty a file eq_refl)
  end.
  now simpl.
Qed.

(** *** What the parser keeps *)

(** The three ways a line changes the state of the loop. *)
Lemma parse_line_cases (st st' : parser_state) (line : string) :
  parse_line st line = Ok st' ->
  (is_commit_line line = false /\ st' = st)
  \/ (is_commit_line line = false
      /\ exists current adds dels filename add delete,
           snd st = Some current
           /\ split tab line = [adds; dels; filename]
           /\ stat_value adds = Some add /\ stat_value dels = Some delete
           /\ st' = (fst st, Some (add_file current filename add delete)))
  \/ (is_commit_line line = true
      /\ exists hash_val author_name date_text subject d,
           split "|" line = [hash_val; author_name; date_text; subject]
           /\ fromisoformat (replace_space_plus date_text) = Some d
           /\ st' = (flush st, Some (new_commit hash_val author_name d subject))).
Proof.
  unfold parse_line. destruct (is_commit_line line) eqn:Ec.
  - intros H. right. right. split; [reflexivity|].
    apply is_commit_line_fields in Ec.
    destruct (split "|" line) as [|h [|a [|dt [|m [|? ?]]]]]; try discriminate.
    destruct (fromisoformat (replace_space_plus dt)) as [d|] eqn:Ed; [|discriminate].
    inversion H; subst. exists h, a, dt, m, d. auto.
  - destruct (truthy (strip line)); [|intros H; inversion H; now left].
    destruct (snd st) as [current|] eqn:Es; [|intros H; inversion H; now left].
    destruct (split tab line) as [|adds [|dels [|filename [|? ?]]]];
      try solve [intros H; inversion H; now left].
    destruct (stat_value adds) as [add|] eqn:Ea; [|intros H; inversion H; now left].
    destruct (stat_value dels) as [delete|] eqn:Ed; [|intros H; inversion H; now left].
    intros H. inversion H; subst. right. left. split; [reflexivity|].
    exists current, adds, dels, filename, add, delete. auto.
Qed.

(** An invariant of commits that a new commit has and [add_file] keeps
    holds for every commit that the parser returns. *)
Lemma parse_lines_invariant (P : Commit -> Prop) :
  (forall h a d m, P (new_commit h a d m)) ->
  (forall c f add delete, P c -> P (add_file c f add delete)) ->
  forall lines st st',
    Forall P (flush st) ->
    parse_lines st lines = Ok st' ->
    Forall P (flush st').
Proof.
  intros Hnew Hadd. induction lines as [|line lines IH]; intros st st' Hst H.
  - simpl in H. inversion H; subst. exact Hst.
  - simpl in H. destruct (parse_line st line) as [st1|e] eqn:E; [|discriminate].
    simpl in H. apply (IH st1 st'); [|exact H].
    destruct (parse_line_cases st st1 line E)
      as [[_ ->]|[[_ (c & ad & dl & f & a & d & Hs & _ & _ & _ & ->)]
                 |[_ (h & au & dt & m & d & _ & _ & ->)]]].
    + exact Hst.
    + destruct st as [cs cur]. simpl in Hs. subst cur. unfold flush in *. simpl in *.
      apply Forall_app in Hst. destruct Hst as [Hcs Hc]. apply Forall_app.
      split; [exact Hcs|]. constructor; [|constructor].
      apply Hadd. now inversion Hc.
    + unfold flush at 1. simpl. apply Forall_app. split; [exact Hst|].
      constructor; [apply Hnew|constructor].
Qed.

Lemma parse_log_invariant (P : Commit -> Prop) (output : string) (cs : list Commit) :
  (forall h a d m, P (new_commit h a d m)) ->
  (forall c f add delete, P c -> P (add_file c f add delete)) ->
  parse_log output = Ok cs -> Forall P cs.
Proof.
  intros Hnew Hadd. unfold parse_log.
  destruct (parse_lines ([], None) (split line_feed output)) as [st|e] eqn:E;
    [|discriminate].
  simpl. intros H. inversion H; subst.
  apply (parse_lines_invariant P Hnew Hadd (split line_feed output) ([], None) st);
    [constructor|exact E].
Qed.

Definition files_added (c : Commit) : Z :=
  fold_right Z.add 0%Z (map file_additions (files c)).

Definition files_deleted (c : Commit) : Z :=
  fold_right Z.add 0%Z (map file_deletions (files c)).

Lemma fold_add_snoc (l : list Z) (x : Z) :
  fold_right Z.add 0%Z (l ++ [x]) = (fold_right Z.add 0 l + x)%Z.
Proof. induction l as [|y l IH]; simpl; [lia|]. rewrite IH. lia. Qed.

(** X7. In every commit that the parser returns, the totals of added and
    deleted lines are the sums over the files recorded for the commit. *)
Theorem parsed_totals_are_file_sums (output : string) (cs : list Commit) :
  parse_log output = Ok cs ->
  Forall (fun c => additions c = files_added c /\ deletions c = files_deleted c) cs.
Proof.
  apply parse_log_invariant.
  - intros h a d m. split; reflexivity.
  - intros c f add delete [Ha Hd]. unfold files_added, files_deleted. simpl.
    rewrite !map_app. simpl. rewrite !fold_add_snoc.
    unfold files_added, files_deleted in Ha, Hd. split; congruence.
Qed.

(** The fields of a metadata line that a commit keeps as they are. *)
Definition header_of (c : Commit) : string * string * string :=
  (hash c, author c, message c).

Definition header_fields (line : string) : string * string * string :=
  match split "|" line with
  | [hash_val; author_name; _; subject] => (hash_val, author_name, subject)
  | _ => ("", "", "")
  end.

Definition header_lines (output : string) : list string :=
  filter is_commit_line (split line_feed output).

(** Whether the date of a metadata line is accepted. *)
Definition date_accepted (line : string) : Prop :=
  fromisoformat (replace_space_plus (nth 2 (split "|" line) "")) <> None.

Lemma parse_lines_headers (lines : list string) (st st' : parser_state) :
  parse_lines st lines = Ok st' ->
  map header_of (flush st')
  = (map header_of (flush st) ++ map header_fields (filter is_commit_line lines))%list.
Proof.
  revert st st'. induction lines as [|line lines IH]; intros st st' H.
  - simpl in H. inversion H; subst. simpl. now rewrite app_nil_r.
  - simpl in H. destruct (parse_line st line) as [st1|e] eqn:E; [|discriminate].
    simpl in H. rewrite (IH st1 st' H). simpl.
    destruct (parse_line_cases st st1 line E)
      as [[Hc ->]|[[Hc (c & ad & dl & f & a & d & Hs & _ & _ & _ & ->)]
                  |[Hc (h & au & dt & m & d & Hsp & _ & ->)]]]; rewrite Hc.
    + reflexivity.
    + f_equal. destruct st as [cs cur]. simpl in Hs. subst cur.
      unfold flush. simpl. now rewrite !map_app.
    + unfold flush at 1. simpl. rewrite map_app, <- app_assoc. simpl.
      unfold header_fields. now rewrite Hsp.
Qed.

Lemma parsed_commits_headers_aux (output : string) (cs : list Commit) :
  parse_log output = Ok cs ->
  map header_of cs = map header_fields (header_lines output).
Proof.
  unfold parse_log.
  destruct (parse_lines ([], None) (split line_feed output)) as [st|e] eqn:E;
    [|discriminate].
  simpl. intros H. inversion H; subst.
  exact (parse_lines_headers _ _ _ E).
Qed.

(** X8. The parser returns one commit for each line that splits into four
    fields on the bar, in the order of the log, with the first, second and
    fourth field as hash, author and message. *)
Theorem parsed_commits_follow_headers (output : string) (cs : list Commit) :
  parse_log output = Ok cs ->
  map header_of cs = map header_fields (header_lines output)
  /\ List.length cs = List.length (header_lines output).
Proof.
  intros H. apply parsed_commits_headers_aux in H. split; [exact H|].
  rewrite <- (length_map header_of), H, length_map. reflexivity.
Qed.

Lemma parse_line_date (st : parser_state) (line : string) :
  is_commit_line line = true ->
  (exists st', parse_line st line = Ok st' /\ date_accepted line)
  \/ (parse_line st line = Raise ValueError /\ ~ date_accepted line).
Proof.
  intros Ec. unfold parse_line, date_accepted. rewrite Ec.
  apply is_commit_line_fields in Ec.
  destruct (split "|" line) as [|h [|a [|dt [|m [|? ?]]]]]; try discriminate.
  simpl. destruct (fromisoformat (replace_space_plus dt)) as [d|].
  - left. eexists. split; [reflexivity|discriminate].
  - right. split; [reflexivity|]. intros H. now apply H.
Qed.

Lemma parse_lines_raises (lines : list string) (st : parser_state) :
  (exists st', parse_lines st lines = Ok st'
               /\ Forall date_accepted (filter is_commit_line lines))
  \/ (parse_lines st lines = Raise ValueError
      /\ ~ Forall date_accepted (filter is_commit_line lines)).
Proof.
  revert st. induction lines as [|line lines IH]; intros st.
  - left. exists st. split; [reflexivity|constructor].
  - cbn [parse_lines filter]. destruct (is_commit_line line) eqn:Ec.
    + destruct (parse_line_date st line Ec) as [(st1 & -> & Hd)|[-> Hd]];
        cbn [bind].
      * destruct (IH st1) as [(st' & Hst' & Hall)|[Hr Hall]].
        -- left. exists st'. split; [exact Hst'|]. now constructor.
        -- right. split; [exact Hr|]. intros Hx. inversion Hx; subst. contradiction.
      * right. split; [reflexivity|]. intros Hx. inversion Hx; subst. contradiction.
    + assert (Hstep : exists st1, parse_line st line = Ok st1).
      { destruct (parse_line_not_commit st line Ec) as [H|(c & f & a & d & _ & H)];
          eauto. }
      destruct Hstep as [st1 ->]. cbn [bind]. apply IH.
Qed.

(** X9. Parsing raises nothing but [ValueError], and it raises it exactly
    when the date of some metadata line is rejected by [fromisoformat];
    stat lines never make it raise. *)
Theorem parse_log_raises_on_dates (output : string) :
  ((exists cs, parse_log output = Ok cs)
   <-> Forall date_accepted (header_lines output))
  /\ (parse_log output = Raise ValueError
      <-> ~ Forall date_accepted (header_lines output))
  /\ (forall e, parse_log output = Raise e -> e = ValueError).
Proof.
  unfold parse_log, header_lines.
  destruct (parse_lines_raises (split line_feed output) ([], None))
    as [(st' & -> & Hall)|[-> Hnot]]; simpl.
  - split; [split; [intros _; exact Hall|intros _; eauto]|].
    split; [split; [discriminate|intros H; contradiction]|]. discriminate.
  - split; [split; [intros [cs H]; discriminate|intros H; contradiction]|].
    split; [split; [intros _; exact Hnot|reflexivity]|].
    intros e H. now inversion H.
Qed.

(** *** Fields never hold their separator *)

Lemma split_fields_clean (sep : ascii) (s f : string) :
  In f (split sep s) -> contains sep f = false.
Proof.
  revert f. induction s as [|c s IH]; intros f; simpl.
  - intros [<-|[]]. reflexivity.
  - destruct (Ascii.eqb c sep) eqn:E.
    + intros [<-|H]; [reflexivity|now apply IH].
    + destruct (split sep s) as [|g gs] eqn:Es; [now destruct (split_nonempty sep s)|].
      intros [<-|H].
      * simpl. rewrite E. apply IH. now left.
      * apply IH. now right.
Qed.

Lemma split_fields_keep (sep c : ascii) (s f : string) :
  contains c s = false -> In f (split sep s) -> contains c f = false.
Proof.
  revert f. induction s as [|x s IH]; intros f; simpl.
  - intros _ [<-|[]]. reflexivity.
  - intros H. apply orb_false_iff in H. destruct H as [Hx Hs].
    destruct (Ascii.eqb x sep).
    + intros [<-|H]; [reflexivity|now apply IH].
    + destruct (split sep s) as [|g gs] eqn:Es; [now destruct (split_nonempty sep s)|].
      intros [<-|H].
      * simpl. rewrite Hx. apply IH; [exact Hs|now left].
      * apply IH; [exact Hs|now right].
Qed.

Definition clean (s : string) : Prop :=
  contains "|" s = false /\ contains line_feed s = false.

Lemma header_fields_clean (output line : string) :
  In line (header_lines output) ->
  let '(h, a, m) := header_fields line in clean h /\ clean a /\ clean m.
Proof.
  unfold header_lines. intros H. apply filter_In in H. destruct H as [Hl Hc].
  pose proof (split_fields_clean line_feed output line Hl) as Hnl.
  apply is_commit_line_fields in Hc. unfold header_fields.
  destruct (split "|" line) as [|h [|a [|dt [|m [|? ?]]]]] eqn:Es; try discriminate.
  assert (Hin : forall f, In f [h; a; dt; m] -> clean f).
  { intros f Hf. rewrite <- Es in Hf. split.
    - now apply (split_fields_clean "|" line).
    - now apply (split_fields_keep "|" line_feed line). }
  repeat split; apply Hin; simpl; auto.
Qed.

(** X10. The hash, the author and the message of a commit that the
    parser returns contain neither a bar nor a line feed. *)
Theorem parsed_fields_clean (output : string) (cs : list Commit) :
  parse_log output = Ok cs ->
  Forall (fun c => clean (hash c) /\ clean (author c) /\ clean (message c)) cs.
Proof.
  intros H. apply parsed_commits_headers_aux in H.
  rewrite Forall_forall. intros c Hc.
  assert (Hin : In (header_of c) (map header_fields (header_lines output))).
  { rewrite <- H. now apply in_map. }
  apply in_map_iff in Hin. destruct Hin as (line & Hf & Hl).
  pose proof (header_fields_clean output line Hl) as Hclean.
  rewrite Hf in Hclean. exact Hclean.
Qed.

(** *** Bounds *)

(** X11. Whenever the productivity score is returned it is at most 100,
    for every number of days and every line count, negative ones
    included. *)
Theorem productivity_score_at_most_100 (self : GitCommitAnalyzer) (score : Q) :
  get_productivity_score self = Ok score -> score <= 100.
Proof.
  destruct (commits self) as [|c cs] eqn:E.
  - unfold get_productivity_score. rewrite E. intros H. inversion H. discriminate.
  - assert (Hne : commits self <> []) by congruence.
    destruct (Z.eq_dec (days self) 0) as [Hd|Hd].
    + rewrite (get_productivity_score_zero_days self Hne Hd). discriminate.
    + rewrite (get_productivity_score_nonempty self Hne Hd). intros H.
      inversion H. unfold score_of.
      destruct (share_bounds (count_conventional (commits self))
                  (List.length (commits self))) as [P0 P1].
      * rewrite E. simpl. lia.
      * apply count_conventional_le.
      * destruct (message_score_bounds _ P0 P1) as [_ M1].
        apply score_upper; [apply py_min_le_r|exact M1|apply py_min_le_r].
Qed.

(** X12. The message analysis never raises; the number of conventional
    messages is at most the number of commits, the percentage lies between
    0 and 100 and the average message length is not negative. *)
Theorem message_analysis_bounds (self : GitCommitAnalyzer) :
  exists m,
    analyze_commit_messages self = Ok m
    /\ (conventional_commits m <= total_commits m)%nat
    /\ 0 <= conventional_percentage m /\ conventional_percentage m <= 100
    /\ 0 <= avg_message_length m.
Proof.
  destruct (commits self) as [|c cs] eqn:E.
  - eexists. split; [now apply analyze_commit_messages_empty|].
    simpl. repeat split; try lia; discriminate.
  - assert (Hne : commits self <> []) by congruence.
    eexists. split; [now apply analyze_commit_messages_nonempty|].
    cbn [conventional_commits total_commits conventional_percentage avg_message_length].
    split; [apply count_conventional_le|].
    destruct (share_bounds (count_conventional (commits self))
                (List.length (commits self))) as [Hlo Hhi].
    + rewrite E. simpl. lia.
    + apply count_conventional_le.
    + split; [exact Hlo|]. split; [exact Hhi|].
      apply rnd_nonneg. apply Qdiv_nonneg.
      * apply (of_nat_le 0). lia.
      * apply of_nat_pos. rewrite E. simpl. lia.
Qed.

(** *** Counts per type *)

Definition has_type (tag : string) (c : Commit) : bool :=
  match match_type (message c) with
  | Some t => String.eqb t tag
  | None => false
  end.

Definition count_type (tag : string) (cs : list Commit) : nat :=
  List.length (filter (has_type tag) cs).

Lemma bump_keys (k : string) (d : list (string * nat)) :
  map fst (bump k d) = map fst d.
Proof.
  induction d as [|[k' n] d IH]; simpl; [reflexivity|].
  destruct (String.eqb k k'); simpl; [reflexivity|now rewrite IH].
Qed.

Lemma bump_lookup (k x : string) (d : list (string * nat)) :
  lookup x (bump k d)
  = if String.eqb x k then option_map S (lookup x d) else lookup x d.
Proof.
  induction d as [|[k' n] d IH]; simpl.
  - now destruct (String.eqb x k).
  - destruct (String.eqb_spec k k') as [->|Hk]; simpl.
    + destruct (String.eqb_spec x k') as [->|Hx]; reflexivity.
    + destruct (String.eqb_spec x k') as [->|Hx].
      * destruct (String.eqb_spec k' k) as [->|_]; [congruence|reflexivity].
      * exact IH.
Qed.

Lemma bump_total (k : string) (d : list (string * nat)) :
  In k (map fst d) -> Counter.total (bump k d) = S (Counter.total d).
Proof.
  induction d as [|[k' n] d IH]; simpl; [intros []|].
  destruct (String.eqb_spec k k') as [->|Hk]; simpl; [reflexivity|].
  intros [H|H]; [congruence|]. rewrite (IH H). lia.
Qed.

Lemma match_type_tag (msg tag : string) :
  match_type msg = Some tag -> In tag commit_type_tags.
Proof. unfold match_type. intros H. now apply find_some in H. Qed.

Lemma type_counts_spec (cs : list Commit) (start : list (string * nat)) :
  map fst start = commit_type_tags ->
  map fst (type_counts cs start) = commit_type_tags
  /\ (forall tag,
        lookup tag (type_counts cs start)
        = option_map (fun n => (n + count_type tag cs)%nat) (lookup tag start))
  /\ Counter.total (type_counts cs start)
     = (Counter.total start + count_conventional cs)%nat.
Proof.
  revert start. induction cs as [|c cs IH]; intros start Hkeys.
  - simpl. split; [exact Hkeys|]. split.
    + intros tag. unfold count_type. simpl.
      destruct (lookup tag start); simpl; [f_equal; lia|reflexivity].
    + unfold count_conventional. simpl. lia.
  - unfold type_counts. cbn [fold_left]. fold (type_counts cs).
    unfold count_type, count_conventional, has_type, is_conventional.
    cbn [filter]. destruct (match_type (message c)) as [t|] eqn:E.
    + destruct (IH (bump t start)) as (Hk & Hl & Ht);
        [now rewrite bump_keys|].
      split; [exact Hk|]. split.
      * intros tag. rewrite Hl, bump_lookup.
        unfold count_type, has_type. rewrite (String.eqb_sym t tag).
        destruct (String.eqb tag t); destruct (lookup tag start); simpl;
          try reflexivity; f_equal; lia.
      * etransitivity; [exact Ht|]. rewrite bump_total.
        -- unfold count_conventional, is_conventional. simpl. lia.
        -- rewrite Hkeys. now apply (match_type_tag (message c)).
    + destruct (IH start Hkeys) as (Hk & Hl & Ht).
      split; [exact Hk|]. split; [exact Hl|exact Ht].
Qed.

(** X13. The type breakdown always lists the seven tags in their order;
    the count of a tag is the number of commits whose message matched with
    that tag, and the counts add up to the number of conventional
    messages. *)
Theorem commit_types_breakdown (self : GitCommitAnalyzer) :
  exists m,
    analyze_commit_messages self = Ok m
    /\ map fst (commit_types m) = commit_type_tags
    /\ (forall tag, In tag commit_type_tags ->
          lookup tag (commit_types m) = Some (count_type tag (commits self)))
    /\ Counter.total (commit_types m) = conventional_commits m.
Proof.
  destruct (type_counts_spec (commits self) (map (fun tag => (tag, O)) commit_type_tags))
    as (Hk & Hl & Ht); [reflexivity|].
  destruct (commits self) as [|c cs] eqn:E.
  - eexists. split; [now apply analyze_commit_messages_empty|].
    split; [reflexivity|]. split; [|reflexivity].
    intros tag Hin. simpl in Hin.
    repeat (destruct Hin as [<-|Hin]; [reflexivity|]). contradiction.
  - eexists. split; [apply analyze_commit_messages_nonempty; congruence|].
    cbn [commit_types conventional_commits]. rewrite E.
    split; [exact Hk|]. split; [|exact Ht].
    intros tag Hin. rewrite Hl. simpl in Hin.
    repeat (destruct Hin as [<-|Hin]; [reflexivity|]). contradiction.
Qed.

(** *** Frequencies *)

Lemma insert_key_perm (K V : Type) (leb : K -> K -> bool) (x : K * V)
    (l : list (K * V)) :
  Permutation (x :: l) (insert_key leb x l).
Proof.
  induction l as [|y l IH]; simpl; [apply Permutation_refl|].
  destruct (leb (fst x) (fst y)); [apply Permutation_refl|].
  eapply Permutation_trans; [apply perm_swap|]. now apply perm_skip.
Qed.

Lemma sorted_items_perm (K V : Type) (leb : K -> K -> bool) (l : list (K * V)) :
  Permutation l (sorted_items leb l).
Proof.
  induction l as [|x l IH]; simpl; [constructor|].
  eapply Permutation_trans; [apply perm_skip, IH|]. apply insert_key_perm.
Qed.

Lemma sorted_items_sorted (K V : Type) (leb : K -> K -> bool) (l : list (K * V)) :
  (forall a b, leb a b = true \/ leb b a = true) ->
  (forall a b c, leb a b = true -> leb b c = true -> leb a c = true) ->
  StronglySorted (fun a b : K * V => leb (fst a) (fst b) = true) (sorted_items leb l).
Proof.
  intros Htotal Htrans.
  assert (Hins : forall x s,
            StronglySorted (fun a b : K * V => leb (fst a) (fst b) = true) s ->
            StronglySorted (fun a b : K * V => leb (fst a) (fst b) = true) (insert_key leb x s)).
  { intros x s. induction 1 as [|y s HS IH HF]; simpl; [repeat constructor|].
    destruct (leb (fst x) (fst y)) eqn:E.
    - constructor; [now constructor|]. constructor; [exact E|].
      rewrite Forall_forall in *. intros z Hz. eapply Htrans; [exact E|now apply HF].
    - constructor; [exact IH|]. rewrite Forall_forall in *. intros z Hz.
      apply (Permutation_in z (Permutation_sym (insert_key_perm K V leb x s))) in Hz.
      destruct Hz as [<-|Hz]; [|now apply HF].
      destruct (Htotal (fst x) (fst y)) as [H|H]; [congruence|exact H]. }
  induction l as [|x l IH]; simpl; [constructor|]. now apply Hins.
Qed.

Lemma ascii_compare_refl (a : ascii) : Ascii.compare a a = Eq.
Proof. unfold Ascii.compare. apply N.compare_refl. Qed.

Lemma ascii_compare_lt_trans (a b c : ascii) :
  Ascii.compare a b = Lt -> Ascii.compare b c = Lt -> Ascii.compare a c = Lt.
Proof.
  unfold Ascii.compare. rewrite !N.compare_lt_iff. lia.
Qed.

Lemma string_compare_lt_trans (s1 s2 s3 : string) :
  String.compare s1 s2 = Lt -> String.compare s2 s3 = Lt -> String.compare s1 s3 = Lt.
Proof.
  revert s2 s3. induction s1 as [|a s1 IH]; intros [|b s2] [|c s3]; simpl;
    try discriminate; try reflexivity.
  destruct (Ascii.compare a b) eqn:Eab; try discriminate;
    destruct (Ascii.compare b c) eqn:Ebc; try discriminate.
  - apply Ascii.compare_eq_iff in Eab, Ebc. subst. rewrite ascii_compare_refl.
    apply IH.
  - apply Ascii.compare_eq_iff in Eab. subst. now rewrite Ebc.
  - apply Ascii.compare_eq_iff in Ebc. subst. now rewrite Eab.
  - now rewrite (ascii_compare_lt_trans a b c Eab Ebc).
Qed.

Lemma string_compare_refl (s : string) : String.compare s s = Eq.
Proof.
  induction s as [|a s IH]; simpl; [reflexivity|]. now rewrite ascii_compare_refl.
Qed.

Lemma string_leb_trans (a b c : string) :
  String.leb a b = true -> String.leb b c = true -> String.leb a c = true.
Proof.
  unfold String.leb.
  destruct (String.compare a b) eqn:Eab; try discriminate;
    destruct (String.compare b c) eqn:Ebc; try discriminate; intros _ _.
  - apply String.compare_eq_iff in Eab, Ebc. subst. now rewrite string_compare_refl.
  - apply String.compare_eq_iff in Eab. subst. now rewrite Ebc.
  - apply String.compare_eq_iff in Ebc. subst. now rewrite Eab.
  - now rewrite (string_compare_lt_trans a b c Eab Ebc).
Qed.

Lemma z_eqb_eq (x y : Z) : Z.eqb x y = true <-> x = y.
Proof. apply Z.eqb_eq. Qed.

Lemma counter_positive (K : Type) (eqb : K -> K -> bool)
    (Heq : forall x y, eqb x y = true <-> x = y) (l : list K) :
  Forall (fun kv => (1 <= snd kv)%nat) (Counter.count_elements eqb l).
Proof.
  rewrite Forall_forall. intros [k n] H.
  destruct (Counter.count_elements_spec eqb Heq l) as (_ & Hkeys & Hocc & _).
  rewrite (Hocc k n H). simpl. apply (Counter.occurrences_pos eqb Heq).
  apply Hkeys. change k with (fst (k, n)). now apply in_map.
Qed.

(** X14. The three frequency maps each count every commit once: their
    counts add up to the number of commits and none is zero. The hours come
    in increasing order and the dates in increasing order of their text,
    without repetition; the count of an hour is the number of commits made
    at that hour. *)
Theorem frequency_maps_count_commits (self : GitCommitAnalyzer) :
  let f := analyze_commit_frequency self in
  Counter.total (by_hour f) = List.length (commits self)
  /\ Counter.total (by_day f) = List.length (commits self)
  /\ Counter.total (by_date f) = List.length (commits self)
  /\ Forall (fun kv => (1 <= snd kv)%nat) (by_hour f)
  /\ Forall (fun kv => (1 <= snd kv)%nat) (by_day f)
  /\ Forall (fun kv => (1 <= snd kv)%nat) (by_date f)
  /\ StronglySorted (fun a b => (fst a <= fst b)%Z) (by_hour f)
  /\ NoDup (map fst (by_hour f))
  /\ StronglySorted (fun a b => String.leb (fst a) (fst b) = true) (by_date f)
  /\ NoDup (map fst (by_date f))
  /\ (forall h n, In (h, n) (by_hour f) ->
        n = Counter.occurrences Z.eqb h (map (fun c => hour (date c)) (commits self))).
Proof.
  unfold analyze_commit_frequency. cbn [by_hour by_day by_date].
  set (hours := map (fun c => hour (date c)) (commits self)).
  set (weekdays := map (fun c => weekday (date c)) (commits self)).
  set (dates := map (fun c => isodate (date c)) (commits self)).
  assert (Hlen : forall A (g : Commit -> A), List.length (map g (commits self))
                                             = List.length (commits self))
    by (intros; apply length_map).
  repeat match goal with |- _ /\ _ => split end.
  - rewrite <- (Counter.total_perm _ _ (sorted_items_perm _ _ Z.leb _)).
    rewrite Counter.count_elements_total. apply Hlen.
  - rewrite Counter.count_elements_total. apply Hlen.
  - rewrite <- (Counter.total_perm _ _ (sorted_items_perm _ _ String.leb _)).
    rewrite Counter.count_elements_total. apply Hlen.
  - eapply Permutation_Forall; [apply sorted_items_perm|].
    apply (counter_positive Z Z.eqb z_eqb_eq).
  - apply (counter_positive string String.eqb string_eqb_eq).
  - eapply Permutation_Forall; [apply sorted_items_perm|].
    apply (counter_positive string String.eqb string_eqb_eq).
  - eapply Counter.sorted_weaken.
    + apply sorted_items_sorted.
      * intros a b. destruct (Z.leb a b) eqn:E; [now left|right].
        apply Z.leb_gt in E. apply Z.leb_le. lia.
      * intros a b c Hab Hbc. apply Z.leb_le in Hab, Hbc. apply Z.leb_le. lia.
    + intros a b _ _ H. now apply Z.leb_le.
  - eapply Permutation_NoDup; [apply Permutation_map, sorted_items_perm|].
    now destruct (Counter.count_elements_spec Z.eqb z_eqb_eq hours) as (ND & _).
  - apply sorted_items_sorted; [apply String.leb_total|apply string_leb_trans].
  - eapply Permutation_NoDup; [apply Permutation_map, sorted_items_perm|].
    now destruct (Counter.count_elements_spec String.eqb string_eqb_eq dates) as (ND & _).
  - intros h n H.
    apply (Permutation_in _ (Permutation_sym (sorted_items_perm _ _ Z.leb _))) in H.
    destruct (Counter.count_elements_spec Z.eqb z_eqb_eq hours) as (_ & _ & Hocc & _).
    now apply Hocc.
Qed.

(** *** Authors *)

Definition by_author (name : string) (cs : list Commit) : list Commit :=
  filter (fun c => String.eqb (author c) name) cs.

Definition credit_commit (d : list (string * AuthorStats)) (c : Commit)
  : list (string * AuthorStats) :=
  credit (author c) (additions c) (deletions c) d.

(** The statistics of one author after more commits of that author. *)
Definition bulk (s : AuthorStats) (cs : list Commit) : AuthorStats :=
  {| stat_commits := (stat_commits s + List.length cs)%nat;
     stat_additions := (stat_additions s + sum_additions cs)%Z;
     stat_deletions := (stat_deletions s + sum_deletions cs)%Z |}.

Definition no_stats : AuthorStats :=
  {| stat_commits := 0; stat_additions := 0; stat_deletions := 0 |}.

Lemma credit_lookup (a b : string) (add del : Z) (d : list (string * AuthorStats)) :
  lookup a (credit b add del d)
  = if String.eqb a b
    then Some (let s := match lookup a d with Some s => s | None => no_stats end in
               {| stat_commits := S (stat_commits s);
                  stat_additions := (stat_additions s + add)%Z;
                  stat_deletions := (stat_deletions s + del)%Z |})
    else lookup a d.
Proof.
  induction d as [|[k s] d IH]; simpl.
  - now destruct (String.eqb a b).
  - destruct (String.eqb_spec b k) as [->|Hbk]; simpl.
    + destruct (String.eqb_spec a k) as [->|Hak]; reflexivity.
    + destruct (String.eqb_spec a k) as [->|Hak].
      * destruct (String.eqb_spec k b) as [->|_]; [congruence|reflexivity].
      * exact IH.
Qed.

Lemma credit_keys_in (a : string) (add del : Z) (d : list (string * AuthorStats)) :
  In a (map fst d) -> map fst (credit a add del d) = map fst d.
Proof.
  induction d as [|[k s] d IH]; simpl; [intros []|].
  destruct (String.eqb_spec a k) as [->|Hak]; simpl; [reflexivity|].
  intros [H|H]; [congruence|]. now rewrite IH.
Qed.

Lemma credit_keys_new (a : string) (add del : Z) (d : list (string * AuthorStats)) :
  ~ In a (map fst d) -> map fst (credit a add del d) = (map fst d ++ [a])%list.
Proof.
  induction d as [|[k s] d IH]; simpl; [reflexivity|].
  destruct (String.eqb_spec a k) as [->|Hak]; simpl.
  - intros H. exfalso. apply H. now left.
  - intros H. rewrite IH; [reflexivity|]. intros Hin. apply H. now right.
Qed.

Lemma author_stats_keys (cs : list Commit) :
  map fst (fold_left credit_commit cs [])
  = Counter.keys (Counter.count_elements String.eqb (map author cs)).
Proof.
  induction cs as [|c cs IH] using rev_ind; [reflexivity|].
  rewrite fold_left_app, map_app. simpl.
  rewrite (Counter.count_elements_snoc String.eqb). unfold credit_commit at 1.
  destruct (Counter.keys_in_dec String.eqb string_eqb_eq (author c)
              (Counter.keys (Counter.count_elements String.eqb (map author cs))))
    as [Hin|Hnew].
  - rewrite (Counter.incr_keys_in String.eqb string_eqb_eq _ _ Hin).
    rewrite credit_keys_in; [exact IH|]. now rewrite IH.
  - rewrite (Counter.incr_keys_new String.eqb string_eqb_eq _ _ Hnew).
    rewrite credit_keys_new; [now rewrite IH|]. now rewrite IH.
Qed.

Lemma bulk_step (s : AuthorStats) (c : Commit) (cs : list Commit) :
  bulk {| stat_commits := S (stat_commits s);
          stat_additions := (stat_additions s + additions c)%Z;
          stat_deletions := (stat_deletions s + deletions c)%Z |} cs
  = bulk s (c :: cs).
Proof.
  unfold bulk, sum_additions, sum_deletions. simpl. f_equal; lia.
Qed.

Lemma author_stats_lookup (name : string) (cs : list Commit)
    (d : list (string * AuthorStats)) :
  lookup name (fold_left credit_commit cs d)
  = match by_author name cs with
    | [] => lookup name d
    | mine => Some (bulk (match lookup name d with Some s => s | None => no_stats end)
                         mine)
    end.
Proof.
  revert d. induction cs as [|c cs IH]; intros d; simpl; [reflexivity|].
  rewrite IH. unfold credit_commit at 1 2. rewrite credit_lookup.
  unfold by_author. simpl. rewrite (String.eqb_sym name (author c)).
  destruct (String.eqb (author c) name) eqn:E.
  - fold (by_author name cs). rewrite <- bulk_step.
    destruct (by_author name cs) as [|c' mine] eqn:Em; [|reflexivity].
    f_equal. unfold bulk, sum_additions, sum_deletions. simpl. f_equal; lia.
  - reflexivity.
Qed.

Lemma occurrences_by_author (name : string) (cs : list Commit) :
  Counter.occurrences String.eqb name (map author cs) = List.length (by_author name cs).
Proof.
  induction cs as [|c cs IH]; simpl; [reflexivity|].
  rewrite (String.eqb_sym name (author c)).
  destruct (String.eqb (author c) name); simpl; now rewrite IH.
Qed.

(** X15. The author analysis lists each author once, counts every commit
    once, and orders the authors by decreasing number of commits. Every
    author listed has statistics (the lookup made by the report cannot
    fail): the commits, additions and deletions of that author's commits. *)
Theorem author_statistics (self : GitCommitAnalyzer) :
  let a := analyze_authors self in
  total_authors a = List.length (author_commits a)
  /\ total_authors a = List.length (author_stats a)
  /\ NoDup (map fst (author_commits a))
  /\ (forall name, In name (map fst (author_commits a))
                   <-> In name (map author (commits self)))
  /\ Counter.total (author_commits a) = List.length (commits self)
  /\ StronglySorted (fun x y => (snd y <= snd x)%nat) (author_commits a)
  /\ (forall name n,
        In (name, n) (author_commits a) ->
        n = List.length (by_author name (commits self))
        /\ lookup name (author_stats a)
           = Some {| stat_commits := n;
                     stat_additions := sum_additions (by_author name (commits self));
                     stat_deletions := sum_deletions (by_author name (commits self)) |}).
Proof.
  unfold analyze_authors.
  cbn [total_authors author_commits author_stats]. unfold Counter.most_common_all.
  set (authors := map author (commits self)).
  destruct (Counter.count_elements_spec String.eqb string_eqb_eq authors)
    as (ND & Hkeys & Hocc & _).
  repeat match goal with |- _ /\ _ => split end.
  - now rewrite Counter.sort_desc_length.
  - change (fold_left _ (commits self) [])
      with (fold_left credit_commit (commits self) []).
    rewrite <- (length_map fst (fold_left credit_commit (commits self) [])).
    rewrite author_stats_keys. unfold Counter.keys. now rewrite length_map.
  - eapply Permutation_NoDup; [apply Permutation_map, Counter.sort_desc_perm|exact ND].
  - intros name. rewrite <- Hkeys. unfold Counter.keys. split; intros H.
    + eapply Permutation_in; [|exact H].
      apply Permutation_map, Permutation_sym, Counter.sort_desc_perm.
    + eapply Permutation_in; [|exact H]. apply Permutation_map, Counter.sort_desc_perm.
  - rewrite <- (Counter.total_perm _ _ (Counter.sort_desc_perm _)).
    rewrite Counter.count_elements_total. apply length_map.
  - eapply Counter.sorted_weaken.
    + apply (Counter.sort_desc_sorted (fun x => Counter.first_index String.eqb (fst x) authors)).
      apply (Counter.count_elements_sorted_items String.eqb string_eqb_eq).
    + intros x y _ _. apply Counter.ranked_count.
  - intros name n H.
    apply (proj1 (Counter.sort_desc_in (name, n) _)) in H.
    pose proof (Hocc name n H) as Hn.
    unfold authors in Hn. rewrite occurrences_by_author in Hn.
    split; [exact Hn|].
    change (fold_left _ (commits self) [])
      with (fold_left credit_commit (commits self) []).
    rewrite author_stats_lookup.
    destruct (by_author name (commits self)) as [|c mine] eqn:Em.
    + exfalso. simpl in Hn. subst n.
      assert (Hin : In name authors).
      { apply Hkeys. change name with (fst (name, O)). now apply in_map. }
      apply (Counter.occurrences_pos String.eqb string_eqb_eq) in Hin.
      unfold authors in Hin. rewrite occurrences_by_author, Em in Hin. simpl in Hin. lia.
    + simpl lookup. unfold bulk, no_stats. simpl. f_equal. rewrite Hn. reflexivity.
Qed.

(** *** When the report and the export are produced *)

Lemma max_item_nonempty (K : Type) (l : list (K * nat)) :
  l <> [] -> exists x, max_item l = Ok x.
Proof. destruct l as [|x l]; [congruence|]. intros _. simpl. eauto. Qed.

Lemma frequency_nonempty (self : GitCommitAnalyzer) :
  commits self <> [] ->
  by_hour (analyze_commit_frequency self) <> []
  /\ by_day (analyze_commit_frequency self) <> [].
Proof.
  intros Hne. unfold analyze_commit_frequency. cbn [by_hour by_day].
  assert (Hlen : forall A (g : Commit -> A), (0 < List.length (map g (commits self)))%nat).
  { intros A g. rewrite length_map. destruct (commits self); [congruence|simpl; lia]. }
  split.
  - intros H.
    pose proof (Counter.total_perm _ _
                  (sorted_items_perm _ _ Z.leb
                     (Counter.count_elements Z.eqb
                        (map (fun c => hour (date c)) (commits self))))) as Ht.
    rewrite H, Counter.count_elements_total in Ht. simpl in Ht.
    specialize (Hlen Z (fun c => hour (date c))). lia.
  - intros H.
    pose proof (Counter.count_elements_total String.eqb
                  (map (fun c => weekday (date c)) (commits self))) as Ht.
    rewrite H in Ht. simpl in Ht.
    specialize (Hlen string (fun c => weekday (date c))). lia.
Qed.

Lemma generate_report_nonempty (self : GitCommitAnalyzer) :
  commits self <> [] -> days self <> 0%Z ->
  exists text, generate_report self = Ok text.
Proof.
  intros Hne Hd. unfold generate_report.
  rewrite (analyze_commit_messages_nonempty self Hne).
  rewrite (analyze_file_changes_nonempty self Hne).
  rewrite (get_productivity_score_nonempty self Hne Hd).
  destruct (frequency_nonempty self Hne) as [Hh Hw].
  destruct (max_item_nonempty _ _ Hh) as [best_hour ->].
  destruct (max_item_nonempty _ _ Hw) as [best_day ->].
  destruct (commits self); [congruence|]. cbn [bind]. eauto.
Qed.

Lemma generate_report_zero_days (self : GitCommitAnalyzer) :
  commits self <> [] -> days self = 0%Z ->
  generate_report self = Raise ZeroDivisionError.
Proof.
  intros Hne Hd. unfold generate_report.
  rewrite (analyze_commit_messages_nonempty self Hne).
  rewrite (analyze_file_changes_nonempty self Hne).
  rewrite (get_productivity_score_zero_days self Hne Hd).
  destruct (commits self); [congruence|]. reflexivity.
Qed.

Lemma export_data_nonempty (self : GitCommitAnalyzer) :
  commits self <> [] ->
  (days self <> 0%Z -> exists doc, export_data self = Ok doc)
  /\ (days self = 0%Z -> export_data self = Raise ZeroDivisionError).
Proof.
  intros Hne. unfold export_data.
  rewrite (analyze_commit_messages_nonempty self Hne).
  rewrite (analyze_file_changes_nonempty self Hne). split; intros Hd.
  - rewrite (get_productivity_score_nonempty self Hne Hd). cbn [bind]. eauto.
  - rewrite (get_productivity_score_zero_days self Hne Hd). reflexivity.
Qed.

(** X16. The report and the exported document are produced in the same
    cases: for an empty commit set, and for a window that is not zero days.
    For commits and a window of zero days both raise [ZeroDivisionError];
    neither raises anything else, in particular the two [max] of the report
    are never taken over an empty map. *)
Theorem report_and_export_agree (self : GitCommitAnalyzer) :
  ((exists text, generate_report self = Ok text)
   <-> commits self = [] \/ days self <> 0%Z)
  /\ ((exists doc, export_data self = Ok doc)
      <-> commits self = [] \/ days self <> 0%Z)
  /\ (commits self <> [] -> days self = 0%Z ->
      generate_report self = Raise ZeroDivisionError
      /\ export_data self = Raise ZeroDivisionError).
Proof.
  destruct (commits self) as [|c cs] eqn:E.
  - split; [|split].
    + split; [intros _; now left|]. intros _. unfold generate_report.
      rewrite E. eauto.
    + split; [intros _; now left|]. intros _.
      unfold export_data. rewrite (analyze_commit_messages_empty self E).
      rewrite (analyze_file_changes_empty self E).
      unfold get_productivity_score. rewrite E. cbn [bind]. eauto.
    + intros H. congruence.
  - assert (Hne : commits self <> []) by congruence.
    destruct (export_data_nonempty self Hne) as [Hok Hraise].
    destruct (Z.eq_dec (days self) 0) as [Hd|Hd].
    + rewrite (generate_report_zero_days self Hne Hd), (Hraise Hd).
      split; [|split].
      * split; [intros [t H]; discriminate|intros [H|H]; congruence].
      * split; [intros [t H]; discriminate|intros [H|H]; congruence].
      * intros _ _. now split.
    + split; [|split].
      * split; [intros _; now right|intros _; now apply generate_report_nonempty].
      * split; [intros _; now right|intros _; now apply Hok].
      * intros _ H. congruence.
Qed.

(** *** Runs of [main] *)

(** X18. When the path is a repository, the log command succeeds, every
    date of its output is accepted and either no commit is found or the
    window is not zero days, [main] without export prints its two opening
    lines and the report of the parsed commits and ends with exit code 0. *)
Theorem main_prints_report (args : Args) (w : World) (output : string)
    (cs : list Commit) :
  has_git_dir w = true ->
  git w = Completed output ->
  parse_log output = Ok cs ->
  cs = [] \/ arg_days args <> 0%Z ->
  arg_export args = None ->
  exists report,
    generate_report {| repo_path := arg_repo_path args; days := arg_days args;
                       author_filter := arg_author args; commits := cs |} = Ok report
    /\ main args w
       = {| printed :=
              ["Analyzing Git repository at " ++ absolute (arg_repo_path args) ++ "...";
               "Looking at the last " ++ PyFormat.str_Z (arg_days args) ++ " days...";
               report];
            written := None; uncaught := None; exit_code := 0 |}.
Proof.
  intros Hdir Hgit Hparse Hdays Hexp.
  set (analyzer := {| repo_path := arg_repo_path args; days := arg_days args;
                      author_filter := arg_author args; commits := cs |}).
  assert (Hrep : exists report, generate_report analyzer = Ok report).
  { destruct cs as [|c cs'].
    - exists no_commits_message. reflexivity.
    - destruct Hdays as [H|H]; [discriminate|].
      apply generate_report_nonempty; [discriminate|exact H]. }
  destruct Hrep as [report Hrep]. exists report. split; [exact Hrep|].
  unfold main, fetch_commits. rewrite Hdir, Hgit.
  cbn [negb run_git_command fst snd bind]. rewrite Hparse.
  cbn [bind init commits repo_path days author_filter app].
  fold analyzer. rewrite Hrep, Hexp. reflexivity.
Qed.

(** *** File changes of a parsed log *)

Definition sum_of (g : FileChange -> Z) (fs : list FileChange) : Z :=
  fold_right Z.add 0%Z (map g fs).

Lemma sum_of_app (g : FileChange -> Z) (fs gs : list FileChange) :
  sum_of g (fs ++ gs) = (sum_of g fs + sum_of g gs)%Z.
Proof.
  unfold sum_of. induction fs as [|f fs IH]; simpl; [reflexivity|]. rewrite IH. lia.
Qed.

Lemma sum_additions_files (cs : list Commit) :
  Forall (fun c => additions c = files_added c /\ deletions c = files_deleted c) cs ->
  sum_additions cs = sum_of file_additions (all_files cs)
  /\ sum_deletions cs = sum_of file_deletions (all_files cs).
Proof.
  unfold sum_additions, sum_deletions, all_files.
  induction 1 as [|c cs [Ha Hd] _ [IHa IHd]]; simpl; [now split|].
  rewrite !sum_of_app, Ha, Hd, IHa, IHd. now split.
Qed.

(** X19. For the commits parsed from a log, the totals of the file
    analysis are the sums over all recorded file changes of their added and
    deleted lines, and the net change is their difference. *)
Theorem totals_of_parsed_log (self : GitCommitAnalyzer) (output : string) :
  parse_log output = Ok (commits self) ->
  exists f,
    analyze_file_changes self = Ok f
    /\ total_additions f = sum_of file_additions (all_files (commits self))
    /\ total_deletions f = sum_of file_deletions (all_files (commits self))
    /\ net_lines f = (total_additions f - total_deletions f)%Z.
Proof.
  intros Hparse.
  assert (Hsum : sum_additions (commits self)
                 = sum_of file_additions (all_files (commits self))
                 /\ sum_deletions (commits self)
                    = sum_of file_deletions (all_files (commits self))).
  { apply sum_additions_files. apply (parse_log_invariant _ output); [| |exact Hparse].
    - intros h a d m. split; reflexivity.
    - intros c f add delete [Ha Hd]. unfold files_added, files_deleted. simpl.
      rewrite !map_app. simpl. rewrite !fold_add_snoc.
      unfold files_added, files_deleted in Ha, Hd. split; congruence. }
  destruct Hsum as [Ha Hd]. destruct (commits self) as [|c cs] eqn:E.
  - eexists. split; [now apply analyze_file_changes_empty|]. now repeat split.
  - eexists. split; [apply analyze_file_changes_nonempty; congruence|].
    cbn [total_additions total_deletions net_lines]. rewrite E.
    split; [exact Ha|]. split; [exact Hd|reflexivity].
Qed.

(** *** Extensions *)

Lemma rfind_dot_none (s : string) : rfind_dot s = None -> contains "." s = false.
Proof.
  induction s as [|c s IH]; simpl; [reflexivity|].
  destruct (rfind_dot s) as [[j r]|]; [discriminate|].
  destruct (Ascii.eqb c "."); [discriminate|]. intros _. now apply IH.
Qed.

Lemma rfind_dot_spec (s : string) (i : nat) (rest : string) :
  rfind_dot s = Some (i, rest) ->
  exists before tail,
    s = before ++ rest /\ String.length before = i
    /\ rest = String "." tail /\ contains "." tail = false.
Proof.
  revert i rest. induction s as [|c s IH]; intros i rest; simpl; [discriminate|].
  destruct (rfind_dot s) as [[j r]|] eqn:E.
  - intros H. inversion H; subst.
    destruct (IH j rest eq_refl) as (before & tail & -> & Hlen & Hrest & Hno).
    exists (String c before), tail. simpl. rewrite Hlen. auto.
  - destruct (Ascii.eqb_spec c ".") as [->|Hc]; [|discriminate].
    intros H. inversion H; subst. exists "", s.
    split; [reflexivity|]. split; [reflexivity|]. split; [reflexivity|].
    now apply rfind_dot_none.
Qed.

Lemma contains_app (c : ascii) (s t : string) :
  contains c (s ++ t) = contains c s || contains c t.
Proof.
  induction s as [|x s IH]; simpl; [reflexivity|]. now rewrite IH, orb_assoc.
Qed.

Lemma length_append (s t : string) :
  String.length (s ++ t) = (String.length s + String.length t)%nat.
Proof. induction s as [|x s IH]; simpl; [reflexivity|]. now rewrite IH. Qed.

Lemma path_name_no_slash (filename : string) : contains "/" (path_name filename) = false.
Proof.
  unfold path_name.
  set (parts := filter _ (split "/" filename)).
  assert (H : forall p, In p parts -> contains "/" p = false).
  { intros p Hp. apply filter_In in Hp. destruct Hp as [Hp _].
    now apply (split_fields_clean "/" filename). }
  clearbody parts. induction parts as [|p parts IH]; [reflexivity|].
  destruct parts as [|q parts].
  - simpl. apply H. now left.
  - change (last (p :: q :: parts) "") with (last (q :: parts) "").
    apply IH. intros x Hx. apply H. now right.
Qed.

(** A suffix that is not empty is a dot followed by at least one
    character, none of them a dot or a slash. *)
Lemma suffix_shape (filename : string) :
  suffix filename <> "" ->
  exists tail,
    suffix filename = String "." tail /\ tail <> ""
    /\ contains "." tail = false /\ contains "/" tail = false.
Proof.
  unfold suffix. pose proof (path_name_no_slash filename) as Hslash.
  destruct (rfind_dot (path_name filename)) as [[i rest]|] eqn:E; [|congruence].
  destruct (rfind_dot_spec _ _ _ E) as (before & tail & Hname & Hlen & -> & Hdot).
  destruct (Nat.ltb 0 i && Nat.ltb i (String.length (path_name filename) - 1)) eqn:Hc;
    [|congruence].
  intros _. exists tail. split; [reflexivity|].
  apply andb_true_iff in Hc. destruct Hc as [_ Hc]. apply Nat.ltb_lt in Hc.
  rewrite Hname, length_append in Hc. simpl in Hc.
  rewrite Hname, contains_app in Hslash. apply orb_false_iff in Hslash.
  destruct Hslash as [_ Hslash]. simpl in Hslash.
  repeat split.
  - intros ->. simpl in Hc. lia.
  - exact Hdot.
  - exact Hslash.
Qed.

(** X20. Every extension listed by the file analysis is a dot followed by
    at least one character, none of them a dot or a slash, and is listed
    with a count of at least 1. *)
Theorem listed_extensions_shape (self : GitCommitAnalyzer) :
  exists f,
    analyze_file_changes self = Ok f
    /\ forall ext n,
         In (ext, n) (file_extensions f) ->
         (1 <= n)%nat
         /\ exists tail,
              ext = String "." tail /\ tail <> ""
              /\ contains "." tail = false /\ contains "/" tail = false.
Proof.
  destruct (analyze_file_changes_counts self) as (f & Hf & Hext & _).
  exists f. split; [exact Hf|]. intros ext n H. rewrite Hext in H.
  apply (Counter.most_common_count String.eqb string_eqb_eq) in H.
  destruct H as [Hin ->]. split.
  - now apply (Counter.occurrences_pos String.eqb string_eqb_eq).
  - unfold counted_extensions in Hin. apply filter_In in Hin.
    destruct Hin as [Hin Ht]. apply in_map_iff in Hin.
    destruct Hin as (fc & <- & _). apply suffix_shape.
    intros Hempty. rewrite Hempty in Ht. discriminate.
Qed.

(** X21. The files listed as most changed are pairwise different, and
    they are the most changed ones: when a changed file is not listed, ten
    files are listed and none of them has fewer changes than that file. The
    same holds of the extensions listed. *)
Theorem most_changed_are_listed (self : GitCommitAnalyzer) :
  exists f,
    analyze_file_changes self = Ok f
    /\ NoDup (map fst (most_changed_files f))
    /\ NoDup (map fst (file_extensions f))
    /\ (forall name,
          In name (map file_name (all_files (commits self))) ->
          ~ In name (map fst (most_changed_files f)) ->
          List.length (most_changed_files f) = 10%nat
          /\ forall other n,
               In (other, n) (most_changed_files f) ->
               (Counter.occurrences String.eqb name
                  (map file_name (all_files (commits self))) <= n)%nat)
    /\ (forall ext,
          In ext (counted_extensions (all_files (commits self))) ->
          ~ In ext (map fst (file_extensions f)) ->
          List.length (file_extensions f) = 10%nat
          /\ forall other n,
               In (other, n) (file_extensions f) ->
               (Counter.occurrences String.eqb ext
                  (counted_extensions (all_files (commits self))) <= n)%nat).
Proof.
  destruct (analyze_file_changes_counts self) as (f & Hf & Hext & Hch).
  exists f. split; [exact Hf|]. rewrite Hext, Hch.
  assert (Hgen : forall l k,
            In k l ->
            ~ In k (map fst (Counter.most_common 10 (Counter.count_elements String.eqb l))) ->
            List.length (Counter.most_common 10 (Counter.count_elements String.eqb l))
            = 10%nat
            /\ forall other n,
                 In (other, n)
                    (Counter.most_common 10 (Counter.count_elements String.eqb l)) ->
                 (Counter.occurrences String.eqb k l <= n)%nat).
  { intros l k Hin Hout.
    destruct (Counter.most_common_left_out String.eqb string_eqb_eq 10 l k Hin Hout)
      as [Hle Hlen].
    split; [exact Hlen|]. intros other n Ho.
    pose proof (Counter.most_common_count String.eqb string_eqb_eq _ _ _ _ Ho) as [_ ->].
    apply Hle. change other with (fst (other, Counter.occurrences String.eqb other l)).
    now apply in_map. }
  split; [apply (Counter.most_common_nodup String.eqb string_eqb_eq)|].
  split; [apply (Counter.most_common_nodup String.eqb string_eqb_eq)|].
  split; intros k Hin Hout; now apply Hgen.
Qed.

End WithDatetime.

Arguments hash {datetime} c.
Arguments author {datetime} c.
Arguments date {datetime} c.
Arguments message {datetime} c.
Arguments files {datetime} c.
Arguments additions {datetime} c.
Arguments deletions {datetime} c.
Arguments repo_path {datetime} g.
Arguments days {datetime} g.
Arguments author_filter {datetime} g.
Arguments commits {datetime} g.

(** *** An instance of the time-stamp library

    Time stamps in the form the log prints them with [%ai], once the space
    before a positive offset is removed: [YYYY-MM-DD HH:MM:SS+HHMM]. It
    serves to run the analyzer on concrete logs. *)

Record stamp : Type := {
  stamp_date : string;
  stamp_hour : Z;
  stamp_weekday : Z
}.

Fixpoint all_digits (s : string) : bool :=
  match s with
  | EmptyString => true
  | String c s' => is_digit c && all_digits s'
  end.

Definition number_at (s : string) (i n : nat) : option Z :=
  let t := substring i n s in
  if all_digits t && Nat.eqb (String.length t) n then int_unsigned t else None.

Definition char_at (s : string) (i : nat) (c : ascii) : bool :=
  match String.get i s with
  | Some c' => Ascii.eqb c' c
  | None => false
  end.

(** Day of the week of a date of the Gregorian calendar, Sunday being 0. *)
Definition day_of_week (y m d : Z) : Z :=
  let shift := nth (Z.to_nat (m - 1)) [0; 3; 2; 5; 0; 3; 5; 1; 4; 6; 2; 4]%Z 0%Z in
  let y' := (if m <? 3 then y - 1 else y)%Z in
  ((y' + y' / 4 - y' / 100 + y' / 400 + shift + d) mod 7)%Z.

Definition stamp_of_text (s : string) : option stamp :=
  if Nat.eqb (String.length s) 24
     && char_at s 4 "-" && char_at s 7 "-" && char_at s 10 " "
     && char_at s 13 ":" && char_at s 16 ":" && char_at s 19 "+"
  then
    match number_at s 0 4, number_at s 5 2, number_at s 8 2,
          number_at s 11 2, number_at s 14 2, number_at s 17 2, number_at s 20 4 with
    | Some y, Some m, Some d, Some h, Some mi, Some se, Some _ =>
        if ((1 <=? m) && (m <=? 12) && (1 <=? d) && (d <=? 31)
            && (h <? 24) && (mi <? 60) && (se <? 60))%Z
        then Some {| stamp_date := substring 0 10 s; stamp_hour := h;
                     stamp_weekday := day_of_week y m d |}
        else None
    | _, _, _, _, _, _, _ => None
    end
  else None.

Definition weekday_name (s : stamp) : string :=
  nth (Z.to_nat (stamp_weekday s))
      ["Sunday"; "Monday"; "Tuesday"; "Wednesday"; "Thursday"; "Friday"; "Saturday"]
      "".

(** The analyzer run with this instance, the repository path taken as
    absolute and a fixed clock. *)
Definition log_commits : string -> result (list (Commit stamp)) :=
  parse_log stamp stamp_of_text.

Definition run_main : Args -> World -> Outcome :=
  main stamp stamp_of_text stamp_hour weekday_name stamp_date
       (fun path => path) "2024-03-01T12:00:00".

Definition commit_at (text subject : string) (fs : list FileChange) (add del : Z)
  : option (Commit stamp) :=
  match stamp_of_text text with
  | Some d =>
      Some {| hash := "h"; author := "dev"; date := d; message := subject;
              files := fs; additions := add; deletions := del |}
  | None => None
  end.

Definition sample_log : string :=
  "a1|Ann|2024-02-29 09:15:00 +0100|feat: a" ++ nl ++
  "10" ++ String tab "2" ++ String tab "src/main.py" ++ nl ++
  "-" ++ String tab "-" ++ String tab "logo.png" ++ nl ++
  nl ++
  "b2|Bob|2024-02-28 17:40:00 +0000|random text" ++ nl ++
  "0" ++ String tab "5" ++ String tab "Makefile" ++ nl ++
  "c3|Ann|2024-02-28 09:05:00 +0100|fix(core): b".

Example stamp_leap_day :
  option_map weekday_name (stamp_of_text "2024-02-29 09:15:00+0100") = Some "Thursday".
Proof. reflexivity. Qed.

Example sample_log_commits :
  match log_commits sample_log with
  | Ok cs =>
      map (fun c => (hash c, message c, additions c, deletions c,
                     map file_name (files c))) cs
  | Raise _ => []
  end
  = [("a1", "feat: a", 10, 2, ["src/main.py"; "logo.png"]);
     ("b2", "random text", 0, 5, ["Makefile"]);
     ("c3", "fix(core): b", 0, 0, [])]%Z.
Proof. reflexivity. Qed.

Example suffix_examples :
  map suffix ["src/main.py"; "Makefile"; ".gitignore"; "a/b.tar.gz"; "dir.d/file"; "trailing."]
  = [".py"; ""; ""; ".gz"; ""; ""].
Proof. reflexivity. Qed.

Example match_type_examples :
  map match_type ["feat: a"; "random text"; "fix(core): b"; "feat(): c"; "feature: d";
                  "docs(a)(b): e"; "fix:"; " fix: f"; "test(x) : g"]
  = [Some "feat"; None; Some "fix"; None; None; Some "docs"; Some "fix"; None; None].
Proof. reflexivity. Qed.


(** *** The theorems on concrete runs *)

Definition leap_day : stamp :=
  {| stamp_date := "2024-02-29"; stamp_hour := 9; stamp_weekday := 4 |}.

Definition fresh : GitCommitAnalyzer stamp := init stamp "." 30 None.

Definition open_commit : Commit stamp := new_commit stamp "a1" "Ann" leap_day "feat: a".

Definition no_export : Args :=
  {| arg_repo_path := "."; arg_days := 30; arg_author := None; arg_export := None |}.

Definition failing_git : World :=
  {| has_git_dir := true;
     git := CalledProcessError "Command returned non-zero exit status 128.";
     writable := true |}.

(** C1, the claim refuted: the log command fails, and the run prints the
    report for an empty commit set and ends with exit code 0. *)
Lemma failed_command_exit_zero :
  git failing_git = CalledProcessError "Command returned non-zero exit status 128."
  /\ run_main no_export failing_git
     = {| printed :=
            ["Analyzing Git repository at ....";
             "Looking at the last 30 days...";
             "Error running git command: Command returned non-zero exit status 128.";
             "No commits found in the specified time range."];
          written := None; uncaught := None; exit_code := 0 |}.
Proof. split; reflexivity. Qed.

Lemma failed_command_continues_witness :
  exit_code (run_main no_export failing_git) = 0%Z
  /\ uncaught (run_main no_export failing_git) = None
  /\ firstn 4 (printed (run_main no_export failing_git))
     = ["Analyzing Git repository at ....";
        "Looking at the last 30 days...";
        "Error running git command: Command returned non-zero exit status 128.";
        "No commits found in the specified time range."].
Proof.
  apply (failed_command_continues stamp stamp_of_text stamp_hour weekday_name
           stamp_date (fun path => path) "2024-03-01T12:00:00" no_export failing_git
           "Command returned non-zero exit status 128.").
  - reflexivity.
  - reflexivity.
  - left. reflexivity.
Defined.

(** C2, the claim refuted: with a window of -1 days the score of one
    commit is -10, and with a window of 0 days no score is returned. *)
Lemma productivity_score_negative :
  get_productivity_score stamp
    {| repo_path := "."; days := -1; author_filter := None;
       commits := [new_commit stamp "a1" "Ann" leap_day "work"] |}
  = Ok (-10 # 1)
  /\ ~ (0 <= -10 # 1)%Q
  /\ get_productivity_score stamp
       {| repo_path := "."; days := 0; author_filter := None;
          commits := [new_commit stamp "a1" "Ann" leap_day "work"] |}
     = Raise ZeroDivisionError.
Proof.
  split; [now vm_compute|]. split; [|reflexivity].
  intros H. unfold Qle in H. simpl in H. lia.
Qed.

Lemma productivity_score_range_witness :
  exists score,
    get_productivity_score stamp
      (with_messages stamp leap_day ["feat: a"; "random text"; "fix(core): b"])
    = Ok score
    /\ (0 <= score)%Q /\ (score <= 100)%Q.
Proof.
  destruct (productivity_score_range stamp
              (with_messages stamp leap_day ["feat: a"; "random text"; "fix(core): b"]))
    as (score & Hs & _ & _ & Hlo & Hhi).
  - simpl. lia.
  - repeat constructor; simpl; lia.
  - exists score. auto.
Defined.

Lemma empty_commit_set_witness :
  generate_report stamp stamp_hour weekday_name stamp_date (fun path => path) fresh
  = Ok "No commits found in the specified time range."
  /\ get_productivity_score stamp fresh = Ok 0%Q.
Proof.
  destruct (empty_commit_set stamp stamp_hour weekday_name stamp_date
              (fun path => path) fresh) as (Hr & _ & _ & Hs).
  - reflexivity.
  - split; assumption.
Defined.

(** C6, the claim refuted: the percentage of the three messages is not
    66.67, and the report shows 66.7. *)
Lemma conventional_percentage_unrounded :
  exists m,
    analyze_commit_messages stamp
      (with_messages stamp leap_day ["feat: a"; "random text"; "fix(core): b"]) = Ok m
    /\ conventional_percentage m = 2345624805922133 # 35184372088832
    /\ ~ (conventional_percentage m == 6667 # 100)%Q
    /\ ~ (conventional_percentage m == rnd (6667 # 100))%Q
    /\ PyFormat.fmt_1f (conventional_percentage m) = "66.7".
Proof.
  eexists. split; [now vm_compute|]. split; [reflexivity|].
  split; [|split; [|now vm_compute]]; now vm_compute.
Qed.

(** C7, the claim refuted: a stat line with one placeholder adds the other
    field, and a stat line with a placeholder and a field that does not
    convert records no file. *)
Lemma placeholder_on_one_side :
  parse_line stamp stamp_of_text ([], Some open_commit)
    ("-" ++ String tab "5" ++ String tab "logo.png")
  = Ok ([], Some (add_file stamp open_commit "logo.png" 0 5))
  /\ deletions (add_file stamp open_commit "logo.png" 0 5) = 5%Z
  /\ parse_line stamp stamp_of_text ([], Some open_commit)
       ("-" ++ String tab "x" ++ String tab "logo.png")
     = Ok ([], Some open_commit)
  /\ files open_commit = [].
Proof. repeat split. Qed.

Lemma stat_line_fields_witness :
  parse_line stamp stamp_of_text ([], Some open_commit)
    ("-" ++ String tab "-" ++ String tab "logo.png")
  = Ok ([], Some (add_file stamp open_commit "logo.png" 0 0))
  /\ additions (add_file stamp open_commit "logo.png" 0 0) = additions open_commit
  /\ deletions (add_file stamp open_commit "logo.png" 0 0) = deletions open_commit
  /\ In "logo.png" (map file_name (files (add_file stamp open_commit "logo.png" 0 0))).
Proof.
  destruct (stat_line_fields stamp stamp_of_text ([], Some open_commit) open_commit
              ("-" ++ String tab "-" ++ String tab "logo.png") "-" "-" "logo.png")
    as (_ & _ & H & _).
  - reflexivity.
  - reflexivity.
  - reflexivity.
  - apply H; reflexivity.
Defined.

(** C8, the claim refuted: the change of a file without extension adds
    nothing to the extension counts, and nothing is rendered for it. *)
Lemma no_extension_not_counted :
  exists f,
    analyze_file_changes stamp
      {| repo_path := "."; days := 30; author_filter := None;
         commits := [add_file stamp open_commit "Makefile" 3 1] |} = Ok f
    /\ most_changed_files f = [("Makefile", 1%nat)]
    /\ file_extensions f = []
    /\ lines_of extension_line (firstn 5 (file_extensions f)) = "".
Proof. eexists. split; [reflexivity|]. repeat split. Qed.

Lemma export_json_empty_witness :
  export_json stamp stamp_hour weekday_name stamp_date (fun path => path)
    "2024-03-01T12:00:00" fresh "out.json" true
  = Ok (("out.json",
         empty_document stamp (fun path => path) "2024-03-01T12:00:00" fresh),
        "Analysis exported to out.json").
Proof.
  destruct (export_json_empty stamp stamp_hour weekday_name stamp_date
              (fun path => path) "2024-03-01T12:00:00" fresh "out.json") as (H & _).
  - reflexivity.
  - exact H.
Defined.

Lemma commit_line_four_fields_witness :
  is_commit_line "b2|Bob|2024-02-28 17:40:00 +0000|fix: a|b" = false
  /\ parse_lines stamp stamp_of_text ([], Some open_commit)
       ["b2|Bob|2024-02-28 17:40:00 +0000|fix: a|b";
        "4" ++ String tab "1" ++ String tab "src/main.py"]
     = Ok ([], Some (add_file stamp open_commit "src/main.py" 4 1)).
Proof.
  destruct (commit_line_four_fields stamp stamp_of_text ([], Some open_commit)
              "b2" "Bob" "2024-02-28 17:40:00 +0000" "fix: a|b")
    as (_ & Hline & _ & Hnext).
  - reflexivity.
  - split; [exact Hline|].
    apply (Hnext ltac:(simpl; discriminate)
             ("4" ++ String tab "1" ++ String tab "src/main.py") "4" "1" "src/main.py");
      reflexivity.
Defined.

(** The same on a whole log: the second commit, whose subject contains a
    bar, is not seen, and its file goes to the first one. *)
Example log_with_bar_in_subject :
  match log_commits
          ("a1|Ann|2024-02-29 09:15:00 +0100|feat: a" ++ nl ++
           "10" ++ String tab "2" ++ String tab "src/main.py" ++ nl ++ nl ++
           "b2|Bob|2024-02-28 17:40:00 +0000|fix: a|b" ++ nl ++
           "4" ++ String tab "1" ++ String tab "Makefile") with
  | Ok cs => map (fun c => (hash c, additions c, deletions c, map file_name (files c))) cs
  | Raise _ => []
  end
  = [("a1", 14, 3, ["src/main.py"; "Makefile"])]%Z.
Proof. reflexivity. Qed.

(** *** The further theorems on the sample log *)

Definition sample_commits : list (Commit stamp) :=
  match log_commits sample_log with
  | Ok cs => cs
  | Raise _ => []
  end.

Definition sample_analyzer : GitCommitAnalyzer stamp :=
  {| repo_path := "."; days := 30; author_filter := None; commits := sample_commits |}.

Definition working_git : World :=
  {| has_git_dir := true; git := Completed sample_log; writable := true |}.

Lemma parsed_totals_are_file_sums_witness :
  Forall (fun c => additions c = files_added stamp c
                   /\ deletions c = files_deleted stamp c) sample_commits.
Proof.
  apply (parsed_totals_are_file_sums stamp stamp_of_text sample_log sample_commits).
  reflexivity.
Defined.

Lemma parsed_commits_follow_headers_witness :
  map (header_of stamp) sample_commits = map header_fields (header_lines sample_log)
  /\ List.length sample_commits = List.length (header_lines sample_log).
Proof.
  apply (parsed_commits_follow_headers stamp stamp_of_text sample_log sample_commits).
  reflexivity.
Defined.

Lemma parsed_fields_clean_witness :
  Forall (fun c => clean (hash c) /\ clean (author c) /\ clean (message c))
         sample_commits.
Proof.
  apply (parsed_fields_clean stamp stamp_of_text sample_log sample_commits).
  reflexivity.
Defined.

Lemma productivity_score_at_most_100_witness :
  get_productivity_score stamp sample_analyzer = Ok (rnd (2133 # 100))
  /\ (rnd (2133 # 100) <= 100)%Q.
Proof.
  split; [now vm_compute|].
  apply (productivity_score_at_most_100 stamp sample_analyzer (rnd (2133 # 100))).
  now vm_compute.
Defined.

Lemma main_prints_report_witness :
  exists report,
    generate_report stamp stamp_hour weekday_name stamp_date (fun path => path)
      {| repo_path := "."; days := 30; author_filter := None;
         commits := sample_commits |} = Ok report
    /\ run_main no_export working_git
       = {| printed := ["Analyzing Git repository at ....";
                        "Looking at the last 30 days...";
                        report];
            written := None; uncaught := None; exit_code := 0 |}.
Proof.
  apply (main_prints_report stamp stamp_of_text stamp_hour weekday_name stamp_date
           (fun path => path) "2024-03-01T12:00:00" no_export working_git
           sample_log sample_commits).
  - reflexivity.
  - reflexivity.
  - reflexivity.
  - right. discriminate.
  - reflexivity.
Defined.

Lemma totals_of_parsed_log_witness :
  exists f,
    analyze_file_changes stamp sample_analyzer = Ok f
    /\ total_additions f = sum_of file_additions (all_files stamp sample_commits)
    /\ total_deletions f = sum_of file_deletions (all_files stamp sample_commits)
    /\ net_lines f = (total_additions f - total_deletions f)%Z.
Proof.
  apply (totals_of_parsed_log stamp stamp_of_text sample_analyzer sample_log).
  reflexivity.
Defined.

Example sample_totals :
  sum_of file_additions (all_files stamp sample_commits) = 10%Z
  /\ sum_of file_deletions (all_files stamp sample_commits) = 7%Z.
Proof. split; reflexivity. Qed.

End Analyzer.

(** ** color_palette_extractor.py: hex codes, the HTML palette and [main] *)
Module PaletteCli.

Import PyStr Palette.

Local Open Scope string_scope.

Definition dq : string := String (ascii_of_nat 34) "".
Definition nl : string := String (ascii_of_nat 10) "".

(** Exceptions that reach the top of the script. *)
Inductive exn : Type :=
  ValueError | ZeroDivisionError | OSError | UnicodeEncodeError.

(** The digits of a natural number in base sixteen, in lower case. *)
Definition hex (n : Z) : string :=
  HexadecimalString.NilZero.string_of_uint (N.to_hex_uint (Z.to_N n)).

(** The format [{:02x}] of an integer: at least two characters, zeros being
    put after the sign. *)
Definition fmt_02x (z : Z) : string :=
  if (z <? 0)%Z then "-" ++ hex (- z)
  else if (z <? 16)%Z then "0" ++ hex z
  else hex z.

(** [rgb_to_hex(rgb)]. *)
Definition rgb_to_hex (c : rgb) : string :=
  let '(r, g, b) := c in "#" ++ fmt_02x r ++ fmt_02x g ++ fmt_02x b.

(** The text before the cards. *)
Definition html_head : string :=
  nl ++
  "<!DOCTYPE html>" ++ nl ++
  "<html lang=" ++ dq ++ "en" ++ dq ++ ">" ++ nl ++
  "<head>" ++ nl ++
  "    <meta charset=" ++ dq ++ "UTF-8" ++ dq ++ ">" ++ nl ++
  "    <meta name=" ++ dq ++ "viewport" ++ dq ++ " content=" ++ dq ++ "width=device-width, initial-scale=1.0" ++ dq ++ ">" ++ nl ++
  "    <title>Color Palette</title>" ++ nl ++
  "    <style>" ++ nl ++
  "        * {" ++ nl ++
  "            margin: 0;" ++ nl ++
  "            padding: 0;" ++ nl ++
  "            box-sizing: border-box;" ++ nl ++
  "        }" ++ nl ++
  "        " ++ nl ++
  "        body {" ++ nl ++
  "            font-family: 'Segoe UI', Tahoma, Geneva, Verdana, sans-serif;" ++ nl ++
  "            background: linear-gradient(135deg, #667eea 0%, #764ba2 100%);" ++ nl ++
  "            min-height: 100vh;" ++ nl ++
  "            display: flex;" ++ nl ++
  "            justify-content: center;" ++ nl ++
  "            align-items: center;" ++ nl ++
  "            padding: 20px;" ++ nl ++
  "        }" ++ nl ++
  "        " ++ nl ++
  "        .container {" ++ nl ++
  "            background: white;" ++ nl ++
  "            border-radius: 20px;" ++ nl ++
  "            padding: 40px;" ++ nl ++
  "            box-shadow: 0 20px 60px rgba(0,0,0,0.3);" ++ nl ++
  "            max-width: 800px;" ++ nl ++
  "            width: 100%;" ++ nl ++
  "        }" ++ nl ++
  "        " ++ nl ++
  "        h1 {" ++ nl ++
  "            text-align: center;" ++ nl ++
  "            color: #333;" ++ nl ++
  "            margin-bottom: 30px;" ++ nl ++
  "            font-size: 2.5em;" ++ nl ++
  "        }" ++ nl ++
  "        " ++ nl ++
  "        .palette {" ++ nl ++
  "            display: flex;" ++ nl ++
  "            flex-direction: column;" ++ nl ++
  "            gap: 20px;" ++ nl ++
  "        }" ++ nl ++
  "        " ++ nl ++
  "        .color-card {" ++ nl ++
  "            display: flex;" ++ nl ++
  "            align-items: center;" ++ nl ++
  "            border-radius: 12px;" ++ nl ++
  "            overflow: hidden;" ++ nl ++
  "            box-shadow: 0 4px 15px rgba(0,0,0,0.1);" ++ nl ++
  "            transition: transform 0.3s ease;" ++ nl ++
  "        }" ++ nl ++
  "        " ++ nl ++
  "        .color-card:hover {" ++ nl ++
  "            transform: translateY(-5px);" ++ nl ++
  "            box-shadow: 0 8px 25px rgba(0,0,0,0.2);" ++ nl ++
  "        }" ++ nl ++
  "        " ++ nl ++
  "        .color-swatch {" ++ nl ++
  "            width: 150px;" ++ nl ++
  "            height: 100px;" ++ nl ++
  "            flex-shrink: 0;" ++ nl ++
  "        }" ++ nl ++
  "        " ++ nl ++
  "        .color-info {" ++ nl ++
  "            padding: 20px;" ++ nl ++
  "            flex-grow: 1;" ++ nl ++
  "            background: #f8f9fa;" ++ nl ++
  "        }" ++ nl ++
  "        " ++ nl ++
  "        .color-name {" ++ nl ++
  "            font-size: 1.3em;" ++ nl ++
  "            font-weight: bold;" ++ nl ++
  "            color: #333;" ++ nl ++
  "            margin-bottom: 8px;" ++ nl ++
  "        }" ++ nl ++
  "        " ++ nl ++
  "        .color-hex {" ++ nl ++
  "            font-family: 'Courier New', monospace;" ++ nl ++
  "            font-size: 1.1em;" ++ nl ++
  "            color: #666;" ++ nl ++
  "            margin-bottom: 5px;" ++ nl ++
  "        }" ++ nl ++
  "        " ++ nl ++
  "        .color-rgb {" ++ nl ++
  "            font-family: 'Courier New', monospace;" ++ nl ++
  "            font-size: 0.9em;" ++ nl ++
  "            color: #999;" ++ nl ++
  "        }" ++ nl ++
  "        " ++ nl ++
  "        .copy-btn {" ++ nl ++
  "            background: #667eea;" ++ nl ++
  "            color: white;" ++ nl ++
  "            border: none;" ++ nl ++
  "            padding: 8px 16px;" ++ nl ++
  "            border-radius: 6px;" ++ nl ++
  "            cursor: pointer;" ++ nl ++
  "            font-size: 0.9em;" ++ nl ++
  "            margin-top: 10px;" ++ nl ++
  "            transition: background 0.3s ease;" ++ nl ++
  "        }" ++ nl ++
  "        " ++ nl ++
  "        .copy-btn:hover {" ++ nl ++
  "            background: #5568d3;" ++ nl ++
  "        }" ++ nl ++
  "    </style>" ++ nl ++
  "</head>" ++ nl ++
  "<body>" ++ nl ++
  "    <div class=" ++ dq ++ "container" ++ dq ++ ">" ++ nl ++
  "        <h1>🎨 Color Palette</h1>" ++ nl ++
  "        <div class=" ++ dq ++ "palette" ++ dq ++ ">" ++ nl.

(** The card of color number [i]. *)
Definition html_card (i : nat) (color : rgb) (hex_code color_name : string) : string :=
  let '(r, g, b) := color in
  nl ++
  "            <div class=" ++ dq ++ "color-card" ++ dq ++ ">" ++ nl ++
  "                <div class=" ++ dq ++ "color-swatch" ++ dq ++ " style=" ++ dq ++ "background-color: " ++
  hex_code ++
  ";" ++ dq ++ "></div>" ++ nl ++
  "                <div class=" ++ dq ++ "color-info" ++ dq ++ ">" ++ nl ++
  "                    <div class=" ++ dq ++ "color-name" ++ dq ++ ">" ++
  color_name ++
  " #" ++
  PyFormat.str_nat i ++
  "</div>" ++ nl ++
  "                    <div class=" ++ dq ++ "color-hex" ++ dq ++ ">" ++
  hex_code ++
  "</div>" ++ nl ++
  "                    <div class=" ++ dq ++ "color-rgb" ++ dq ++ ">RGB(" ++
  PyFormat.str_Z r ++
  ", " ++
  PyFormat.str_Z g ++
  ", " ++
  PyFormat.str_Z b ++
  ")</div>" ++ nl ++
  "                    <button class=" ++ dq ++ "copy-btn" ++ dq ++ " onclick=" ++ dq ++ "copyToClipboard('" ++
  hex_code ++
  "')" ++ dq ++ ">Copy Hex</button>" ++ nl ++
  "                </div>" ++ nl ++
  "            </div>" ++ nl.

(** The text after the cards. *)
Definition html_tail : string :=
  nl ++
  "        </div>" ++ nl ++
  "    </div>" ++ nl ++
  "    " ++ nl ++
  "    <script>" ++ nl ++
  "        function copyToClipboard(text) {" ++ nl ++
  "            navigator.clipboard.writeText(text).then(() => {" ++ nl ++
  "                alert('Copied ' + text + ' to clipboard!');" ++ nl ++
  "            });" ++ nl ++
  "        }" ++ nl ++
  "    </script>" ++ nl ++
  "</body>" ++ nl ++
  "</html>" ++ nl.

(** The cards of the colors, numbered from [i]; [None] when
    [get_color_name] raises. *)
Fixpoint html_cards (i : nat) (colors : list rgb) : option string :=
  match colors with
  | [] => Some ""
  | color :: rest =>
      match get_color_name color with
      | Some color_name =>
          match html_cards (S i) rest with
          | Some cards => Some (html_card i color (rgb_to_hex color) color_name ++ cards)
          | None => None
          end
      | None => None
      end
  end.

(** The text that [generate_html_palette(colors, output_file)] writes. *)
Definition html_palette (colors : list rgb) : option string :=
  match html_cards 1 colors with
  | Some cards => Some (html_head ++ cards ++ html_tail)
  | None => None
  end.

(** What can be seen of a run: the lines printed, the file written, an
    exception that was not caught, the exit code. *)
Record Outcome : Type := {
  printed : list string;
  written : option (string * string);
  uncaught : option exn;
  exit_code : Z
}.

Definition crashed (out : list string) (e : exn) : Outcome :=
  {| printed := out; written := None; uncaught := Some e; exit_code := 1 |}.

Definition exited (out : list string) (code : Z) : Outcome :=
  {| printed := out; written := None; uncaught := None; exit_code := code |}.

(** [RGB{color}] for a tuple of three integers. *)
Definition tuple_text (c : rgb) : string :=
  let '(r, g, b) := c in
  "(" ++ PyFormat.str_Z r ++ ", " ++ PyFormat.str_Z g ++ ", " ++ PyFormat.str_Z b ++ ")".

Definition color_line (i : nat) (color : rgb) (color_name : string) : string :=
  "  " ++ PyFormat.str_nat i ++ ". " ++ color_name ++ ": " ++ rgb_to_hex color
  ++ " - RGB" ++ tuple_text color.

(** The loop of [main] that prints the colors: the lines printed, and
    whether [get_color_name] raised. *)
Fixpoint color_lines (i : nat) (colors : list rgb) : list string * bool :=
  match colors with
  | [] => ([], true)
  | color :: rest =>
      match get_color_name color with
      | Some color_name =>
          let '(lines, ok) := color_lines (S i) rest in
          (color_line i color color_name :: lines, ok)
      | None => ([], false)
      end
  end.

(** What the file system does with [open(output_file, 'w')] and with the
    [write] that follows. The file cannot be opened; or it is opened, and so
    created, but the write raises [e] (the encoding of the locale does not
    hold the emoji of the page, or the device fails) and leaves the text
    [rest] in it, none when the encoding fails; or the page is written. *)
Inductive disk : Type :=
| Unopenable
| Unwritable (e : exn) (rest : string)
| Writable.

(** [generate_html_palette(colors, output_file)]: the file that the call
    leaves, and the line printed or the exception raised. *)
Definition generate_html_palette (colors : list rgb) (output_file : string)
    (d : disk) : option (string * string) * (string + exn) :=
  match html_palette colors with
  | None => (None, inr ZeroDivisionError)
  | Some html =>
      match d with
      | Unopenable => (None, inr OSError)
      | Unwritable e rest => (Some (output_file, rest), inr e)
      | Writable =>
          (Some (output_file, html), inl ("✅ Palette saved to " ++ output_file))
      end
  end.

Definition extracting_line (num_colors : Z) (image_path : string) : string :=
  "🎨 Extracting " ++ PyFormat.str_Z num_colors ++ " dominant colors from "
  ++ image_path ++ "...".

Definition error_line (decoded : list rgb + string) : string :=
  "Error processing image: " ++ match decoded with inl _ => "" | inr e => e end.

Definition dominant_header : string := nl ++ "📊 Dominant Colors:".

Definition closing_line : string :=
  nl ++ "🌐 Open palette.html in your browser to view the palette!".

(** [main]. [argv] is [sys.argv]; [open_image] gives, for a path, the
    pixels of the image opened, resized and converted, or the text of the
    exception raised on the way. *)
Definition main (argv : list string) (open_image : string -> list rgb + string)
    (d : disk) : Outcome :=
  if Nat.ltb (List.length argv) 2 then
    exited ["Usage: python color_palette_extractor.py <image_path> [num_colors]";
            "Example: python color_palette_extractor.py photo.jpg 5"] 1
  else
    let image_path := nth 1 argv "" in
    match (if Nat.ltb 2 (List.length argv) then int (nth 2 argv "") else Some 5%Z) with
    | None => crashed [] ValueError
    | Some num_colors =>
        let out0 := [extracting_line num_colors image_path] in
        let decoded := open_image image_path in
        match get_dominant_colors
                (match decoded with inl pixels => Some pixels | inr _ => None end)
                num_colors 1 with
        | Exited code => exited (out0 ++ [error_line decoded])%list code
        | Returned colors =>
            let out1 := (out0 ++ [dominant_header])%list in
            let '(lines, ok) := color_lines 1 colors in
            let out2 := (out1 ++ lines)%list in
            if ok then
              match generate_html_palette colors "palette.html" d with
              | (file, inr e) =>
                  {| printed := out2; written := file;
                     uncaught := Some e; exit_code := 1 |}
              | (file, inl line) =>
                  {| printed := (out2 ++ [line; closing_line])%list;
                     written := file; uncaught := None; exit_code := 0 |}
              end
            else crashed out2 ZeroDivisionError
        end
    end.

Example hex_code_example : rgb_to_hex (255, 128, 7)%Z = "#ff8007".
Proof. reflexivity. Qed.

Example fmt_02x_negative : fmt_02x (-255) = "-ff".
Proof. reflexivity. Qed.

Example fmt_02x_wide : fmt_02x 4096 = "1000".
Proof. reflexivity. Qed.

(** *** Hex codes *)

(** Reading a hex code back: the decoder against which [rgb_to_hex] is
    checked. Only lower-case digits are read. *)
Definition hex_value (c : ascii) : option Z :=
  let n := Z.of_nat (nat_of_ascii c) in
  if (48 <=? n)%Z && (n <=? 57)%Z then Some (n - 48)%Z
  else if (97 <=? n)%Z && (n <=? 102)%Z then Some (n - 87)%Z
  else None.

Definition byte_of_hex (s : string) : option Z :=
  match s with
  | String a (String b EmptyString) =>
      match hex_value a, hex_value b with
      | Some x, Some y => Some (16 * x + y)%Z
      | _, _ => None
      end
  | _ => None
  end.

Definition hex_to_rgb (s : string) : option rgb :=
  match s with
  | String "#" (String a (String b (String c (String d (String e (String f EmptyString)))))) =>
      match byte_of_hex (String a (String b EmptyString)),
            byte_of_hex (String c (String d EmptyString)),
            byte_of_hex (String e (String f EmptyString)) with
      | Some r, Some g, Some bl => Some (r, g, bl)
      | _, _, _ => None
      end
  | _ => None
  end.

Definition two_digits (v : Z) : bool :=
  match fmt_02x v with
  | String a (String b EmptyString) =>
      match byte_of_hex (String a (String b EmptyString)) with
      | Some w => (w =? v)%Z
      | None => false
      end
  | _ => false
  end.

Lemma two_digits_all : forallb two_digits (map Z.of_nat (seq 0 256)) = true.
Proof. vm_compute. reflexivity. Qed.

Lemma fmt_02x_byte (v : Z) :
  (0 <= v <= 255)%Z ->
  exists a b,
    fmt_02x v = String a (String b EmptyString)
    /\ byte_of_hex (String a (String b EmptyString)) = Some v.
Proof.
  intros Hv. pose proof two_digits_all as H. rewrite forallb_forall in H.
  specialize (H v). unfold two_digits in H.
  assert (Hin : In v (map Z.of_nat (seq 0 256))).
  { apply in_map_iff. exists (Z.to_nat v). split; [lia|]. apply in_seq. lia. }
  specialize (H Hin).
  destruct (fmt_02x v) as [|a [|b [|? ?]]]; try discriminate.
  exists a, b. split; [reflexivity|].
  destruct (byte_of_hex (String a (String b ""))) as [w|]; [|discriminate].
  apply Z.eqb_eq in H. now subst.
Qed.

(** X4. The hex code of a color with channels in 0..255 is [#] and six
    lower-case hexadecimal digits, from which the color is read back; so two
    such colors with the same code are the same color. *)
Theorem rgb_to_hex_round_trip (c : rgb) :
  valid_rgb c ->
  String.length (rgb_to_hex c) = 7%nat
  /\ hex_to_rgb (rgb_to_hex c) = Some c
  /\ (forall c', valid_rgb c' -> rgb_to_hex c' = rgb_to_hex c -> c' = c).
Proof.
  assert (Hrt : forall x, valid_rgb x ->
            String.length (rgb_to_hex x) = 7%nat /\ hex_to_rgb (rgb_to_hex x) = Some x).
  { intros [[r g] b] (Hr & Hg & Hb). unfold rgb_to_hex.
    destruct (fmt_02x_byte r Hr) as (r1 & r2 & -> & Er).
    destruct (fmt_02x_byte g Hg) as (g1 & g2 & -> & Eg).
    destruct (fmt_02x_byte b Hb) as (b1 & b2 & -> & Eb).
    split; [reflexivity|].
    cbn [append hex_to_rgb]. now rewrite Er, Eg, Eb. }
  intros Hc. destruct (Hrt c Hc) as [Hlen Hback]. split; [exact Hlen|].
  split; [exact Hback|].
  intros c' Hc' Heq. destruct (Hrt c' Hc') as [_ Hback'].
  rewrite Heq in Hback'. congruence.
Qed.

Lemma rgb_to_hex_round_trip_witness :
  hex_to_rgb (rgb_to_hex (255, 128, 7)%Z) = Some (255, 128, 7)%Z.
Proof.
  apply (rgb_to_hex_round_trip (255, 128, 7)%Z). simpl. lia.
Defined.

(** *** Runs of [main] *)

Lemma get_color_name_valid (c : rgb) :
  valid_rgb c -> exists name, get_color_name c = Some name.
Proof.
  destruct c as [[r g] b]. intros Hv.
  destruct (rgb_to_hsv_total r g b Hv) as (h & s & v & Hhsv & _).
  unfold get_color_name. rewrite Hhsv. eauto.
Qed.

Lemma color_lines_valid (colors : list rgb) (i : nat) :
  Forall valid_rgb colors ->
  exists lines,
    color_lines i colors = (lines, true)
    /\ List.length lines = List.length colors.
Proof.
  intros H. revert i. induction H as [|c colors Hc _ IH]; intros i; simpl.
  - now exists [].
  - destruct (get_color_name_valid c Hc) as [name ->].
    destruct (IH (S i)) as (lines & -> & Hlen).
    eexists. split; [reflexivity|]. simpl. now rewrite Hlen.
Qed.

Lemma html_cards_valid (colors : list rgb) (i : nat) :
  Forall valid_rgb colors -> exists cards, html_cards i colors = Some cards.
Proof.
  intros H. revert i. induction H as [|c colors Hc _ IH]; intros i; simpl.
  - now exists "".
  - destruct (get_color_name_valid c Hc) as [name ->].
    destruct (IH (S i)) as (cards & ->). eauto.
Qed.

Lemma dominant_colors_valid (pixels : list rgb) (k : Z) :
  Forall valid_rgb pixels ->
  exists colors,
    get_dominant_colors (Some pixels) k 1 = Returned colors
    /\ Forall valid_rgb colors
    /\ (List.length colors <= Z.to_nat k)%nat.
Proof.
  intros Hv. unfold get_dominant_colors, slice_step. simpl.
  eexists. split; [reflexivity|]. split.
  - rewrite Forall_forall in *. intros c Hc. apply Hv.
    apply (Counter.most_common_from rgb_eqb rgb_eqb_eq) in Hc.
    eapply every_in. exact Hc.
  - rewrite length_map. unfold Counter.most_common. apply firstn_le_length.
Qed.

(** X5. When the image opens to valid pixels, the count (5 when it is not
    given) converts to an integer and the file can be written, [main] ends
    with exit code 0 and no exception: it prints the first line, the
    heading, one line per dominant color and the two closing lines, and
    writes the palette of those colors to [palette.html]. *)
Theorem main_writes_palette (prog path : string) (more : list string)
    (open_image : string -> list rgb + string) (pixels : list rgb) (k : Z) :
  open_image path = inl pixels ->
  Forall valid_rgb pixels ->
  match more with [] => Some 5%Z | count :: _ => int count end = Some k ->
  exists colors lines html,
    get_dominant_colors (Some pixels) k 1 = Returned colors
    /\ html_palette colors = Some html
    /\ List.length lines = List.length colors
    /\ (List.length colors <= Z.to_nat k)%nat
    /\ main (prog :: path :: more) open_image Writable
       = {| printed :=
              ([extracting_line k path; dominant_header] ++ lines
               ++ ["✅ Palette saved to palette.html"; closing_line])%list;
            written := Some ("palette.html", html);
            uncaught := None;
            exit_code := 0 |}.
Proof.
  intros Hopen Hvalid Hcount.
  destruct (dominant_colors_valid pixels k Hvalid) as (colors & Hdom & Hcv & Hlen).
  destruct (color_lines_valid colors 1 Hcv) as (lines & Hlines & Hll).
  destruct (html_cards_valid colors 1 Hcv) as (cards & Hcards).
  exists colors, lines, (html_head ++ cards ++ html_tail).
  split; [exact Hdom|]. split; [unfold html_palette; now rewrite Hcards|].
  split; [exact Hll|]. split; [exact Hlen|].
  unfold main.
  destruct more as [|count more']; cbn [List.length Nat.ltb Nat.leb nth].
  - injection Hcount as <-. rewrite Hopen, Hdom, Hlines.
    unfold generate_html_palette, html_palette. rewrite Hcards.
    cbn [app]. reflexivity.
  - rewrite Hcount, Hopen, Hdom, Hlines.
    unfold generate_html_palette, html_palette. rewrite Hcards.
    cbn [app]. reflexivity.
Qed.

Lemma main_writes_palette_witness :
  exists colors lines html,
    get_dominant_colors (Some [(255, 0, 0); (255, 0, 0); (0, 0, 255)]%Z) 1 1
      = Returned colors
    /\ html_palette colors = Some html
    /\ List.length lines = List.length colors
    /\ (List.length colors <= Z.to_nat 1)%nat
    /\ main ["color_palette_extractor.py"; "photo.jpg"; "1"]
            (fun _ => inl [(255, 0, 0); (255, 0, 0); (0, 0, 255)]%Z) Writable
       = {| printed :=
              ([extracting_line 1 "photo.jpg"; dominant_header] ++ lines
               ++ ["✅ Palette saved to palette.html"; closing_line])%list;
            written := Some ("palette.html", html);
            uncaught := None;
            exit_code := 0 |}.
Proof.
  apply (main_writes_palette "color_palette_extractor.py" "photo.jpg" ["1"]
           (fun _ => inl [(255, 0, 0); (255, 0, 0); (0, 0, 255)]%Z)
           [(255, 0, 0); (255, 0, 0); (0, 0, 255)]%Z 1).
  - reflexivity.
  - repeat constructor; simpl; lia.
  - reflexivity.
Defined.

(** A write that fails after the file was opened leaves the file behind:
    here the encoding fails, the run ends with exit code 1 and
    [palette.html] is empty. *)
Example failed_write_leaves_file :
  let run := main ["color_palette_extractor.py"; "photo.jpg"]
                  (fun _ => inl [(255, 0, 0)]%Z) (Unwritable UnicodeEncodeError "") in
  written run = Some ("palette.html", "")
  /\ uncaught run = Some UnicodeEncodeError
  /\ exit_code run = 1%Z.
Proof. now vm_compute. Qed.

End PaletteCli.
